(** * nodejs-stream: a shallow embedding of the employee import pipeline

    The JavaScript modules embedded here, with the file each is read from:
      - utils/validator.js     isValidEmail, validateEmployee
                               (src/nodejs-stream/src/utils/validator.js)
      - lib/transformer.js     EmployeeTransformer, BatchTransformer
                               (src/unnamed/part_002, after the file reader)
      - config/database.js     the connection pool: query, getClient
                               (src/nodejs-stream/src/config/database.js)
      - models/employee.js     Employee.insert, Employee.batchInsert
                               (src/unnamed/part_003)
      - lib/database.js        DatabaseWriter
                               (src/nodejs-stream/src/lib/database.js)
      - lib/memoryMonitor.js   MemoryMonitor
                               (same file, after the database module)
      - utils/memoryGraph.js   MemoryGraph
                               (src/nodejs-stream/src/utils/memoryGraph.js)
      - index.js               the pipeline that chains the stages
                               (src/nodejs-stream/src/index.js)
      - lib/fileReader.js      the record loop of processCSVFile
                               (src/unnamed/part_002, before the transformers)
      - utils/logger.js        Logger
                               (src/nodejs-stream/src/config/database.js,
                               after the connection pool)

    Conventions.  A JavaScript number is an IEEE 754 binary64 value and is
    modelled by Rocq's primitive [float]; counters that are only ever
    incremented or added to lengths, and capacities read by [parseInt], are
    modelled by [Z].  A string is a sequence of code units; the embedding
    covers code units below 256, one [ascii] each.  A [throw] (or a rejected
    promise that is awaited) is the [Throw] branch of [Res].  Mutable objects
    (stream instances, their [stats]) are records threaded through the
    functions that mutate them; an [await] is sequencing. *)

From Stdlib Require Import ZArith List String Ascii Bool Lia Floats.
Import ListNotations.

Set Implicit Arguments.
Set Warnings "-inexact-float".

Local Open Scope string_scope.
Local Open Scope Z_scope.
Local Open Scope list_scope.

(* ================================================================== *)
(** ** JavaScript values, errors and the built-ins the sources call    *)
(* ================================================================== *)

Module JS.

(** An error object: [name], the driver's optional [code] and [message]. *)
Record Error : Type := mkError
  { err_name : string;
    err_code : option string;
    err_message : string }.

Definition TypeError (msg : string) : Error := mkError "TypeError" None msg.

(** The outcome of evaluating code that may throw. *)
Inductive Res (A : Type) : Type :=
| Ok (a : A)
| Throw (e : Error).

Arguments Ok {A} a.
Arguments Throw {A} e.

Definition bind {A B : Type} (m : Res A) (k : A -> Res B) : Res B :=
  match m with
  | Ok a => k a
  | Throw e => Throw e
  end.

(** Primitive values that a property of a parsed record can hold. *)
Inductive Prim : Type :=
| PUndefined
| PNull
| PBoolean (b : bool)
| PNumber (x : float)
| PString (s : string).

(** A value handed to the validator: a primitive, a bigint, a symbol, a
    function, or a plain object with its own properties (first binding of a
    key is the property). *)
Inductive Value : Type :=
| VPrim (p : Prim)
| VBigInt (z : Z)
| VSymbol
| VFunction
| VObject (props : list (string * Prim)).

(** ToBoolean. *)
Definition truthy_prim (p : Prim) : bool :=
  match p with
  | PUndefined => false
  | PNull => false
  | PBoolean b => b
  | PNumber x => negb (PrimFloat.eqb x 0%float || PrimFloat.is_nan x)
  | PString s => negb (String.eqb s "")
  end.

Definition truthy (v : Value) : bool :=
  match v with
  | VPrim p => truthy_prim p
  | VBigInt z => negb (Z.eqb z 0)
  | VSymbol => true
  | VFunction => true
  | VObject _ => true
  end.

(** The [typeof] operator. *)
Definition typeof (v : Value) : string :=
  match v with
  | VPrim PUndefined => "undefined"
  | VPrim PNull => "object"
  | VPrim (PBoolean _) => "boolean"
  | VPrim (PNumber _) => "number"
  | VPrim (PString _) => "string"
  | VBigInt _ => "bigint"
  | VSymbol => "symbol"
  | VFunction => "function"
  | VObject _ => "object"
  end.

Fixpoint lookup (k : string) (props : list (string * Prim)) : option Prim :=
  match props with
  | [] => None
  | (k', p) :: rest => if String.eqb k k' then Some p else lookup k rest
  end.

(** Property read [v.k] on a value that passed the validator's guard; a
    missing property reads [undefined]. *)
Definition get (v : Value) (k : string) : Prim :=
  match v with
  | VObject props =>
      match lookup k props with
      | Some p => p
      | None => PUndefined
      end
  | _ => PUndefined
  end.

(** WhiteSpace and LineTerminator code units below 256: TAB, LF, VT, FF, CR,
    SP and NBSP.  [String.prototype.trim] and the regular expression class
    [\s] use the same set. *)
Definition is_space (c : ascii) : bool :=
  let n := nat_of_ascii c in
  (Nat.leb 9 n && Nat.leb n 13) || Nat.eqb n 32 || Nat.eqb n 160.

Fixpoint trimStart (s : string) : string :=
  match s with
  | EmptyString => EmptyString
  | String c s' => if is_space c then trimStart s' else s
  end.

Fixpoint trimEnd (s : string) : string :=
  match s with
  | EmptyString => EmptyString
  | String c s' =>
      let t := trimEnd s' in
      if is_space c && String.eqb t "" then EmptyString else String c t
  end.

Definition trim (s : string) : string := trimEnd (trimStart s).

(** The method call [p.trim()]: only strings have the method; on any other
    truthy primitive the property is [undefined] and the call throws a
    [TypeError] whose message names the callee as it is written in the
    source, [callee]. *)
Definition call_trim (callee : string) (p : Prim) : Res string :=
  match p with
  | PString s => Ok (trim s)
  | _ => Throw (TypeError (callee ++ " is not a function")%string)
  end.

(** Built-ins whose results are fixed by the engine, not by this
    repository: [Date.parse], [parseFloat] and Number-to-String. *)
Class Engine : Type :=
  { Date_parse : string -> float;
    parseFloat : string -> float;
    Number_toString : float -> string }.

(** ToString on a primitive. *)
Definition ToString `{Engine} (p : Prim) : string :=
  match p with
  | PUndefined => "undefined"
  | PNull => "null"
  | PBoolean true => "true"
  | PBoolean false => "false"
  | PNumber x => Number_toString x
  | PString s => s
  end.

(** The global [isNaN] on a number. *)
Definition isNaN (x : float) : bool := PrimFloat.is_nan x.

(** [Math.round]: the nearest integer, ties towards +infinity.  Below 2^52 in
    magnitude, adding and subtracting 2^52 yields a neighbouring integer [t];
    its ceiling correction and the half-way test follow (the sign of a zero
    result is not tracked).  From 2^52 on every value is an integer. *)
Definition two52 : float := 4503599627370496%float.

Definition Math_ceil (x : float) : float :=
  if PrimFloat.ltb (PrimFloat.abs x) two52 then
    let t := if PrimFloat.ltb x 0%float
             then PrimFloat.add (PrimFloat.sub x two52) two52
             else PrimFloat.sub (PrimFloat.add x two52) two52 in
    if PrimFloat.ltb t x then PrimFloat.add t 1%float else t
  else x.

Definition Math_round (x : float) : float :=
  let c := Math_ceil x in
  if PrimFloat.ltb x (PrimFloat.sub c 0.5%float)
  then PrimFloat.sub c 1%float
  else c.

(** *** Regular expressions, matched by derivatives *)

Inductive Regex : Type :=
| Void
| Eps
| Class (p : ascii -> bool)
| Seq (r1 r2 : Regex)
| Alt (r1 r2 : Regex)
| Star (r : Regex).

Definition Plus (r : Regex) : Regex := Seq r (Star r).
Definition Chr (c : ascii) : Regex := Class (Ascii.eqb c).

Fixpoint nullable (r : Regex) : bool :=
  match r with
  | Void => false
  | Eps => true
  | Class _ => false
  | Seq r1 r2 => nullable r1 && nullable r2
  | Alt r1 r2 => nullable r1 || nullable r2
  | Star _ => true
  end.

Fixpoint deriv (c : ascii) (r : Regex) : Regex :=
  match r with
  | Void => Void
  | Eps => Void
  | Class p => if p c then Eps else Void
  | Seq r1 r2 =>
      if nullable r1
      then Alt (Seq (deriv c r1) r2) (deriv c r2)
      else Seq (deriv c r1) r2
  | Alt r1 r2 => Alt (deriv c r1) (deriv c r2)
  | Star r1 => Seq (deriv c r1) (Star r1)
  end.

(** [/^r$/.test(s)]: the whole of [s] matches [r]. *)
Fixpoint test (r : Regex) (s : string) : bool :=
  match s with
  | EmptyString => nullable r
  | String c s' => test (deriv c r) s'
  end.

(** The strings a regular expression denotes. *)
Inductive matches : Regex -> string -> Prop :=
| m_eps : matches Eps ""
| m_class (p : ascii -> bool) (c : ascii) :
    p c = true -> matches (Class p) (String c "")
| m_seq (r1 r2 : Regex) (s1 s2 : string) :
    matches r1 s1 -> matches r2 s2 -> matches (Seq r1 r2) (s1 ++ s2)%string
| m_alt_l (r1 r2 : Regex) (s : string) :
    matches r1 s -> matches (Alt r1 r2) s
| m_alt_r (r1 r2 : Regex) (s : string) :
    matches r2 s -> matches (Alt r1 r2) s
| m_star_nil (r : Regex) : matches (Star r) ""
| m_star_app (r : Regex) (s1 s2 : string) :
    matches r s1 -> matches (Star r) s2 -> matches (Star r) (s1 ++ s2)%string.

(** Every code unit of [s] is in the class [p]. *)
Fixpoint all_chars (p : ascii -> bool) (s : string) : bool :=
  match s with
  | EmptyString => true
  | String c s' => p c && all_chars p s'
  end.

End JS.

Export JS.

(* ================================================================== *)
(** ** src/utils/validator.js                                          *)
(* ================================================================== *)

Module Validator.

(** The class [[^\s@]]. *)
Definition not_space_at (c : ascii) : bool :=
  negb (is_space c || Ascii.eqb c "@"%char).

(** [/^[^\s@]+@[^\s@]+\.[^\s@]+$/] *)
Definition emailRegex : Regex :=
  Seq (Plus (Class not_space_at))
    (Seq (Chr "@"%char)
       (Seq (Plus (Class not_space_at))
          (Seq (Chr "."%char) (Plus (Class not_space_at))))).

Definition isValidEmail `{Engine} (email : Prim) : bool :=
  if negb (truthy_prim email) then false
  else test emailRegex (ToString email).

Record ValidationOutcome : Type := mkOutcome
  { isValid : bool;
    errors : list string }.

(** [!p || p.trim() === ''], where [p] is written [employee.<name>]. *)
Definition blank (name : string) (p : Prim) : Res bool :=
  if negb (truthy_prim p) then Ok true
  else bind (call_trim ("employee." ++ name ++ ".trim")%string p)
         (fun t => Ok (String.eqb t "")).

(** [errors.push(msg)] when [c] holds. *)
Definition push_if (c : bool) (msg : string) (errors : list string) : list string :=
  if c then errors ++ [msg] else errors.

Definition validateEmployee `{Engine} (employee : Value) : Res ValidationOutcome :=
  let errors := [] in
  if negb (truthy employee) || negb (String.eqb (typeof employee) "object") then
    Ok (mkOutcome false ["Invalid employee data format"])
  else
    bind (blank "first_name" (get employee "first_name")) (fun b1 =>
    let errors := push_if b1 "First name is required" errors in
    bind (blank "last_name" (get employee "last_name")) (fun b2 =>
    let errors := push_if b2 "Last name is required" errors in
    let errors :=
      if negb (truthy_prim (get employee "email"))
      then errors ++ ["Email is required"]
      else push_if (negb (isValidEmail (get employee "email")))
             "Email format is invalid" errors in
    let errors :=
      push_if (truthy_prim (get employee "hire_date")
               && isNaN (Date_parse (ToString (get employee "hire_date"))))
        "Hire date is invalid" errors in
    let errors :=
      push_if (truthy_prim (get employee "salary")
               && (isNaN (parseFloat (ToString (get employee "salary")))
                   || PrimFloat.ltb (parseFloat (ToString (get employee "salary"))) 0%float))
        "Salary must be a positive number" errors in
    Ok (mkOutcome (Nat.eqb (List.length errors) 0) errors))).

End Validator.

(* ================================================================== *)
(** ** src/lib/transformer.js                                          *)
(* ================================================================== *)

Module Transformer.

(** What [EmployeeTransformer] pushes downstream:
    [{ data: chunk, valid, errors }]. *)
Record ValidatedRecord : Type := mkRecord
  { data : Value;
    valid : bool;
    errors : list string }.

(** The number of valid records in a list. *)
Definition count_valid (l : list ValidatedRecord) : Z :=
  Z.of_nat (List.length (filter valid l)).

Module EmployeeTransformer.

Record Stats : Type := mkStats
  { processed : Z;
    valid : Z;
    invalid : Z;
    errors : list (Value * list string) }.

(** The stream instance; only [stats] is mutated by the methods. *)
Record t : Type := mk
  { stats : Stats }.

Definition constructor : t :=
  mk (mkStats 0 0 0 []).

(** [_transform(chunk, encoding, callback)]: the new instance, the values
    handed to [this.push] in order, and the argument of [callback]. *)
Definition _transform `{Engine} (chunk : Value) (this : t)
  : t * list ValidatedRecord * Res unit :=
  let st := stats this in
  let st := mkStats (processed st + 1) (valid st) (invalid st) (errors st) in
  match Validator.validateEmployee chunk with
  | Throw error => (mk st, [], Throw error)
  | Ok validation =>
      if Validator.isValid validation then
        let st := mkStats (processed st) (valid st + 1) (invalid st) (errors st) in
        (mk st, [mkRecord chunk true []], Ok tt)
      else
        let st := mkStats (processed st) (valid st) (invalid st + 1) (errors st) in
        let error := (chunk, Validator.errors validation) in
        let st := mkStats (processed st) (valid st) (invalid st) (errors st ++ [error]) in
        (mk st, [mkRecord chunk false (Validator.errors validation)], Ok tt)
  end.

Definition _flush (this : t) : t * list ValidatedRecord * Res unit :=
  (this, [], Ok tt).

Definition getStats (this : t) : Stats := stats this.

(** Feeding a sequence of chunks, as the stream machinery does: one
    [_transform] per chunk, stopping at the first error passed to the
    callback. *)
Fixpoint feed `{Engine} (chunks : list Value) (this : t)
  : t * list ValidatedRecord * Res unit :=
  match chunks with
  | [] => (this, [], Ok tt)
  | chunk :: rest =>
      match _transform chunk this with
      | (this1, out1, Ok _) =>
          match feed rest this1 with
          | (this2, out2, r) => (this2, out1 ++ out2, r)
          end
      | (this1, out1, Throw e) => (this1, out1, Throw e)
      end
  end.

End EmployeeTransformer.

Module BatchTransformer.

Definition Batch : Type := list ValidatedRecord.

Record t : Type := mk
  { batchSize : Z;
    currentBatch : Batch;
    validOnly : bool }.

(** The [options] argument: a property that is absent is [None]. *)
Record Options : Type := mkOptions
  { opt_batchSize : option Z;
    opt_validOnly : option bool }.

(** [options.batchSize || 100] and
    [options.validOnly === undefined ? true : options.validOnly]. *)
Definition constructor (options : Options) : t :=
  mk (match opt_batchSize options with
      | Some n => if Z.eqb n 0 then 100 else n
      | None => 100
      end)
     []
     (match opt_validOnly options with
      | None => true
      | Some b => b
      end).

(** [_transform]: the new instance and the batches handed to [this.push].
    The pushed array is never touched again: [currentBatch] is rebound to a
    fresh array, so a pushed batch is a value. *)
Definition _transform (chunk : ValidatedRecord) (this : t) : t * list Batch :=
  if validOnly this && negb (valid chunk) then (this, [])
  else
    let cb := currentBatch this ++ [chunk] in
    if Z.geb (Z.of_nat (List.length cb)) (batchSize this)
    then (mk (batchSize this) [] (validOnly this), [cb])
    else (mk (batchSize this) cb (validOnly this), []).

Definition _flush (this : t) : t * list Batch :=
  if Z.gtb (Z.of_nat (List.length (currentBatch this))) 0
  then (mk (batchSize this) [] (validOnly this), [currentBatch this])
  else (this, []).

(** One [_transform] per chunk, collecting what was pushed. *)
Fixpoint feed (chunks : list ValidatedRecord) (this : t) : t * list Batch :=
  match chunks with
  | [] => (this, [])
  | chunk :: rest =>
      let (this1, out1) := _transform chunk this in
      let (this2, out2) := feed rest this1 in
      (this2, out1 ++ out2)
  end.

(** A whole run: every chunk, then the single [_flush] at end of input.
    The result separates what [_transform] pushed from what [_flush] pushed. *)
Definition run (chunks : list ValidatedRecord) (this : t) : t * list Batch * list Batch :=
  let (this1, out1) := feed chunks this in
  let (this2, out2) := _flush this1 in
  (this2, out1, out2).

(** Every batch pushed during a run, in emission order. *)
Definition emitted (chunks : list ValidatedRecord) (this : t) : list Batch :=
  match run chunks this with
  | (_, out1, out2) => out1 ++ out2
  end.

(** The records that pass the test [this.validOnly && !chunk.valid]. *)
Definition keeps (vo : bool) (chunk : ValidatedRecord) : bool :=
  negb (vo && negb (valid chunk)).

Definition admitted (this : t) (chunks : list ValidatedRecord) : list ValidatedRecord :=
  filter (keeps (validOnly this)) chunks.

End BatchTransformer.

End Transformer.

(* ================================================================== *)
(** ** src/config/database.js: the connection pool                     *)
(* ================================================================== *)

Module Db.

(** The statements the sources send.  [INSERT es] stands for
    [INSERT INTO employees (...) VALUES (...), ... RETURNING id] with one
    tuple per element of [es]; its text and bound values are determined by
    [es]. *)
Inductive Sql : Type :=
| BEGIN
| COMMIT
| ROLLBACK
| INSERT (employees : list Value).

(** The [pg] pool over a store of type [W]: each call may change the store
    and either returns or rejects.  A query result is the list of the [id]s
    of [result.rows]. *)
Class Driver (W : Type) : Type :=
  { pool_connect : W -> W * Res unit;
    pool_query : Sql -> W -> W * Res (list Z);
    client_query : Sql -> W -> W * Res (list Z);
    client_release : W -> W }.

(** Calls made on the pool and on the checked-out client, in order. *)
Inductive Event : Type :=
| EConnect
| EPoolQuery (q : Sql)
| EClientQuery (q : Sql)
| ERelease.

(** The store together with the record of the calls made so far. *)
Record Session (W : Type) : Type := mkSession
  { world : W;
    log : list Event }.

Section Pool.
Context {W : Type} `{Driver W}.

(** [db.query(text, params)] is [pool.query(text, params)]. *)
Definition query (q : Sql) (s : Session W) : Session W * Res (list Z) :=
  let (w, r) := pool_query q (world s) in
  (mkSession w (log s ++ [EPoolQuery q]), r).

(** [db.getClient()] is [pool.connect()] (the wrapper around [release]
    forwards to the original). *)
Definition getClient (s : Session W) : Session W * Res unit :=
  let (w, r) := pool_connect (world s) in
  (mkSession w (log s ++ [EConnect]), r).

(** [client.query(text, params)] on the checked-out client. *)
Definition clientQuery (q : Sql) (s : Session W) : Session W * Res (list Z) :=
  let (w, r) := client_query q (world s) in
  (mkSession w (log s ++ [EClientQuery q]), r).

(** [client.release()]. *)
Definition release (s : Session W) : Session W :=
  mkSession (client_release (world s)) (log s ++ [ERelease]).

End Pool.

(** What PostgreSQL guarantees for [INSERT ... VALUES ... RETURNING id] on a
    client: when the statement succeeds it returns one row per tuple. *)
Definition returns_a_row_per_tuple {W : Type} (D : Driver W) : Prop :=
  forall (es : list Value) (w w' : W) (ids : list Z),
    client_query (INSERT es) w = (w', Ok ids) ->
    List.length ids = List.length es.

End Db.

(* ================================================================== *)
(** ** src/models/employee.js                                          *)
(* ================================================================== *)

Module Employee.

Import Db.

(** [const { first_name, ... } = employee]: destructuring throws on
    [null] and [undefined] only. *)
Definition destructurable (employee : Value) : bool :=
  match employee with
  | VPrim PUndefined => false
  | VPrim PNull => false
  | _ => true
  end.

(** What it throws then: the message names the first property, the
    variable and the value. *)
Definition destructure_error (employee : Value) : Error :=
  TypeError
    ("Cannot destructure property 'first_name' of 'employee' as it is "
     ++ match employee with
        | VPrim PNull => "null"
        | _ => "undefined"
        end
     ++ ".")%string.

Definition destructure (employee : Value) : Res unit :=
  if destructurable employee then Ok tt
  else Throw (destructure_error employee).

(** [JSON.stringify(employee)] throws on a bigint only. *)
Definition stringifiable (employee : Value) : bool :=
  match employee with
  | VBigInt _ => false
  | _ => true
  end.

Definition stringify_error : Error :=
  TypeError "Do not know how to serialize a BigInt".

(** The bound values of an INSERT for [employee] can be built. *)
Definition bindable (employee : Value) : bool :=
  destructurable employee && stringifiable employee.

(** What building them throws otherwise. *)
Definition bind_error (employee : Value) : Error :=
  if destructurable employee then stringify_error
  else destructure_error employee.

(** [error.code === '23505'] *)
Definition is_unique_violation (error : Error) : bool :=
  match err_code error with
  | Some code => String.eqb code "23505"
  | None => false
  end.

(** The pool calls one [Employee.insert(employee)] makes. *)
Definition insert_events (employee : Value) : list Event :=
  if bindable employee then [EPoolQuery (INSERT [employee])] else [].

Section Model.
Context {W : Type} `{Driver W}.

(** [Employee.insert(employee)]: [Some (id, employee)] is the returned
    object [{ id, ...employee }], [None] is [null].  The destructuring is
    outside the [try]; building the bound values and the query are inside. *)
Definition insert (employee : Value) (s : Session W)
  : Session W * Res (option (Z * Value)) :=
  match destructure employee with
  | Throw e => (s, Throw e)
  | Ok _ =>
      let caught (s1 : Session W) (error : Error)
        : Session W * Res (option (Z * Value)) :=
        if is_unique_violation error then (s1, Ok None) else (s1, Throw error) in
      if negb (stringifiable employee) then caught s stringify_error
      else
        let (s1, r) := query (INSERT [employee]) s in
        match r with
        | Ok (id :: _) => (s1, Ok (Some (id, employee)))
        | Ok [] =>
            caught s1 (TypeError "Cannot read properties of undefined (reading 'id')")
        | Throw error => caught s1 error
        end
  end.

(** The [try] block of [batchInsert]: BEGIN, the [forEach] that builds the
    bound values (it throws at the first employee for which they cannot be
    built), the INSERT and COMMIT. *)
Definition batchInsert_try (employees : list Value) (s : Session W)
  : Session W * Res (list Z) :=
  let (s1, r1) := clientQuery BEGIN s in
  match r1 with
  | Throw e => (s1, Throw e)
  | Ok _ =>
      match find (fun employee => negb (bindable employee)) employees with
      | Some employee => (s1, Throw (bind_error employee))
      | None =>
          let (s2, r2) := clientQuery (INSERT employees) s1 in
          match r2 with
          | Throw e => (s2, Throw e)
          | Ok rows =>
              let (s3, r3) := clientQuery COMMIT s2 in
              match r3 with
              | Throw e => (s3, Throw e)
              | Ok _ => (s3, Ok rows)
              end
          end
      end
  end.

(** [Employee.batchInsert(employees)]: the client is obtained outside the
    [try]; the [catch] sends ROLLBACK and rethrows; [finally] releases. *)
Definition batchInsert (employees : list Value) (s : Session W)
  : Session W * Res (list Z) :=
  if Nat.eqb (List.length employees) 0 then (s, Ok [])
  else
    let (s0, c) := getClient s in
    match c with
    | Throw e => (s0, Throw e)
    | Ok _ =>
        let (s1, r) := batchInsert_try employees s0 in
        match r with
        | Ok insertedIds => (release s1, Ok insertedIds)
        | Throw error =>
            let (s2, rb) := clientQuery ROLLBACK s1 in
            match rb with
            | Throw e2 => (release s2, Throw e2)
            | Ok _ => (release s2, Throw error)
            end
        end
    end.

End Model.

End Employee.

(* ================================================================== *)
(** ** src/lib/database.js: DatabaseWriter                             *)
(* ================================================================== *)

Module DatabaseWriter.

Import Db Transformer.

Record Stats : Type := mkStats
  { totalProcessed : Z;
    successfulInserts : Z;
    failedInserts : Z;
    errors : list (option Value * string) }.

Record t : Type := mk
  { batchSize : Z;
    stats : Stats }.

(** [options.batchSize || parseInt(process.env.BATCH_SIZE || '100', 10)];
    [env_batch_size] is the value of the right operand. *)
Definition constructor (opt_batchSize : option Z) (env_batch_size : Z) : t :=
  mk (match opt_batchSize with
      | Some n => if Z.eqb n 0 then env_batch_size else n
      | None => env_batch_size
      end)
     (mkStats 0 0 0 []).

(** What the stream hands to [_write]: an array of records, or one record. *)
Inductive Chunk : Type :=
| ChunkArray (records : list ValidatedRecord)
| ChunkRecord (record : ValidatedRecord).

(** [Array.isArray(chunk) ? chunk : [chunk]] *)
Definition records_of (chunk : Chunk) : list ValidatedRecord :=
  match chunk with
  | ChunkArray records => records
  | ChunkRecord record => [record]
  end.

(** [records.filter(record => record.valid).map(record => record.data)] *)
Definition validEmployees (records : list ValidatedRecord) : list Value :=
  map data (filter valid records).

Definition duplicate_message : string :=
  "Failed to insert record (likely duplicate email)".

Section Writer.
Context {W : Type} `{Driver W}.

(** The body of the fallback loop, for one [employee]. *)
Definition fallback_one (acc : Stats * Session W) (employee : Value)
  : Stats * Session W :=
  let (st, s) := acc in
  match Employee.insert employee s with
  | (s1, Ok (Some _)) =>
      (mkStats (totalProcessed st) (successfulInserts st + 1)
         (failedInserts st) (errors st), s1)
  | (s1, Ok None) =>
      (mkStats (totalProcessed st) (successfulInserts st)
         (failedInserts st + 1)
         (errors st ++ [(Some employee, duplicate_message)]), s1)
  | (s1, Throw singleError) =>
      (mkStats (totalProcessed st) (successfulInserts st)
         (failedInserts st + 1)
         (errors st ++ [(Some employee, err_message singleError)]), s1)
  end.

(** [_write(chunk, encoding, callback)]: the new instance, the session and
    the argument of [callback].  Nothing in the outer [try] can throw on
    records of this shape, so its [catch] has no case here; every path
    calls [callback()] without an error. *)
Definition _write (chunk : Chunk) (this : t) (s : Session W)
  : t * Session W * Res unit :=
  let records := records_of chunk in
  if Nat.eqb (List.length records) 0 then (this, s, Ok tt)
  else
    let employees := validEmployees records in
    let st := stats this in
    let st := mkStats (totalProcessed st + Z.of_nat (List.length records))
                (successfulInserts st) (failedInserts st) (errors st) in
    if Nat.eqb (List.length employees) 0 then (mk (batchSize this) st, s, Ok tt)
    else
      match Employee.batchInsert employees s with
      | (s1, Ok insertedIds) =>
          let st := mkStats (totalProcessed st)
                      (successfulInserts st + Z.of_nat (List.length insertedIds))
                      (failedInserts st) (errors st) in
          (mk (batchSize this) st, s1, Ok tt)
      | (s1, Throw dbError) =>
          let (st, s2) := fold_left fallback_one employees (st, s1) in
          (mk (batchSize this) st, s2, Ok tt)
      end.

Definition getStats (this : t) : Stats := stats this.

End Writer.

End DatabaseWriter.

(** A row as the CSV parser produces it: column name to string. *)
Definition RawRecord : Type := list (string * string).

Definition of_record (r : RawRecord) : Value :=
  VObject (map (fun kv => (fst kv, PString (snd kv))) r).

(* ================================================================== *)
(** ** src/index.js: the chain of stages                               *)
(* ================================================================== *)

Module Pipeline.

Import Db Transformer.

(** The stages of [pipeline(sourceStream, csvParser, recordCounter,
    employeeTransformer, batchTransformer, dbWriter)] with the buffers
    between them.  [source] holds the rows the parser has still to deliver;
    each [to_...] list is the buffer in front of a stage, oldest first. *)
Record State (W : Type) : Type := mkState
  { source : list RawRecord;
    recordCount : Z;
    to_transformer : list Value;
    employeeTransformer : EmployeeTransformer.t;
    to_batcher : list ValidatedRecord;
    batchTransformer : BatchTransformer.t;
    flushed : bool;
    to_writer : list BatchTransformer.Batch;
    dbWriter : DatabaseWriter.t;
    session : Session W;
    failure : option Error }.

(** One stage handling one item. *)
Inductive Action : Type :=
| Count        (* recordCounter.transform *)
| Validate     (* employeeTransformer._transform *)
| Batch        (* batchTransformer._transform *)
| Flush        (* batchTransformer._flush, once upstream has ended *)
| Write.       (* dbWriter._write *)

Section Run.
Context {W : Type} `{Driver W} `{Engine}.

(** The state [processEmployeeFile] builds before [pipeline(...)] runs:
    [batchSize] is [processingOptions.batchSize], [validOnly] is [true]. *)
Definition init (batchSize : Z) (rows : list RawRecord) (w : W) : State W :=
  mkState rows 0 []
    EmployeeTransformer.constructor []
    (BatchTransformer.constructor
       (BatchTransformer.mkOptions (Some batchSize) (Some true)))
    false []
    (DatabaseWriter.constructor (Some batchSize) 100)
    (mkSession w [])
    None.

Definition step (a : Action) (st : State W) : option (State W) :=
  match failure st with
  | Some _ => None
  | None =>
      match a with
      | Count =>
          match source st with
          | [] => None
          | row :: rest =>
              Some (mkState rest (recordCount st + 1)
                      (to_transformer st ++ [of_record row])
                      (employeeTransformer st) (to_batcher st)
                      (batchTransformer st) (flushed st) (to_writer st)
                      (dbWriter st) (session st) None)
          end
      | Validate =>
          match to_transformer st with
          | [] => None
          | chunk :: rest =>
              match EmployeeTransformer._transform chunk (employeeTransformer st) with
              | (et, out, r) =>
                  Some (mkState (source st) (recordCount st) rest et
                          (to_batcher st ++ out)
                          (batchTransformer st) (flushed st) (to_writer st)
                          (dbWriter st) (session st)
                          (match r with Ok _ => None | Throw e => Some e end))
              end
          end
      | Batch =>
          match to_batcher st with
          | [] => None
          | chunk :: rest =>
              let (bt, out) := BatchTransformer._transform chunk (batchTransformer st) in
              Some (mkState (source st) (recordCount st) (to_transformer st)
                      (employeeTransformer st) rest bt (flushed st)
                      (to_writer st ++ out)
                      (dbWriter st) (session st) None)
          end
      | Flush =>
          match source st, to_transformer st, to_batcher st, flushed st with
          | [], [], [], false =>
              let (bt, out) := BatchTransformer._flush (batchTransformer st) in
              Some (mkState [] (recordCount st) []
                      (employeeTransformer st) [] bt true
                      (to_writer st ++ out)
                      (dbWriter st) (session st) None)
          | _, _, _, _ => None
          end
      | Write =>
          match to_writer st with
          | [] => None
          | batch :: rest =>
              match DatabaseWriter._write (DatabaseWriter.ChunkArray batch)
                      (dbWriter st) (session st) with
              | (dw, s, r) =>
                  Some (mkState (source st) (recordCount st) (to_transformer st)
                          (employeeTransformer st) (to_batcher st)
                          (batchTransformer st) (flushed st) rest
                          dw s
                          (match r with Ok _ => None | Throw e => Some e end))
              end
          end
      end
  end.

(** Running a schedule, one action after the other. *)
Fixpoint exec (schedule : list Action) (st : State W) : option (State W) :=
  match schedule with
  | [] => Some st
  | a :: rest =>
      match step a st with
      | Some st1 => exec rest st1
      | None => None
      end
  end.

Definition reachable (st0 st : State W) : Prop :=
  exists schedule, exec schedule st0 = Some st.

(** The run is over: everything was consumed, the batcher was flushed and
    no stage failed. *)
Definition finished (st : State W) : bool :=
  match source st, to_transformer st, to_batcher st, to_writer st, failure st with
  | [], [], [], [], None => flushed st
  | _, _, _, _, _ => false
  end.

(** The counters [processEmployeeFile] copies into its [stats]. *)
Definition validRecords (st : State W) : Z :=
  EmployeeTransformer.valid (EmployeeTransformer.getStats (employeeTransformer st)).

Definition invalidRecords (st : State W) : Z :=
  EmployeeTransformer.invalid (EmployeeTransformer.getStats (employeeTransformer st)).

Definition storedRecords (st : State W) : Z :=
  DatabaseWriter.successfulInserts (DatabaseWriter.getStats (dbWriter st)).

Definition failedRecords (st : State W) : Z :=
  DatabaseWriter.failedInserts (DatabaseWriter.getStats (dbWriter st)).

(** *** Invariants of the run *)

(** Every valid record counted by the transformer is stored, failed, or
    still on its way to the writer. *)
Definition accounted (st : State W) : Prop :=
  storedRecords st + failedRecords st
  + count_valid (List.concat (to_writer st))
  + count_valid (BatchTransformer.currentBatch (batchTransformer st))
  + count_valid (to_batcher st)
  = validRecords st
  /\ 0 <= storedRecords st
  /\ 0 <= failedRecords st.

(** Once the batcher was flushed nothing is left upstream of the writer. *)
Definition drained (st : State W) : Prop :=
  flushed st = true ->
  source st = [] /\ to_transformer st = [] /\ to_batcher st = []
  /\ BatchTransformer.currentBatch (batchTransformer st) = [].

(** A bound on the number of stage activations still possible. *)
Definition work_left (st : State W) : nat :=
  5 * List.length (source st)
  + 4 * List.length (to_transformer st)
  + 3 * List.length (to_batcher st)
  + (if flushed st then 0 else 2)
  + List.length (to_writer st).

(** Every chunk waiting for the transformer is a parsed row. *)
Definition parsed (st : State W) : Prop :=
  Forall (fun chunk => exists row, chunk = of_record row) (to_transformer st).

End Run.

End Pipeline.

(* ================================================================== *)
(** ** src/utils/memoryGraph.js                                        *)
(* ================================================================== *)

Module MemoryGraph.

(** [process.memoryUsage()], in bytes. *)
Record MemoryUsage : Type := mkUsage
  { mu_heapUsed : float;
    mu_heapTotal : float;
    mu_rss : float;
    mu_external : float }.

Record MemoryData : Type := mkData
  { heapUsed : list float;
    heapTotal : list float;
    rss : list float;
    external : list float }.

(** The payload of the ['memory'] event (without its timestamps). *)
Record MemoryInfo : Type := mkInfo
  { heap_used : float;
    heap_total : float;
    info_rss : float;
    info_external : float }.

Record t : Type := mk
  { maxDataPoints : Z;
    memoryData : MemoryData;
    running : bool;
    maxMemoryUsed : float }.

Record Stats : Type := mkStats
  { current : float;
    max : float;
    average : float }.

(** [options.maxDataPoints || 60] *)
Definition constructor (opt_maxDataPoints : option Z) : t :=
  mk (match opt_maxDataPoints with
      | Some n => if Z.eqb n 0 then 60 else n
      | None => 60
      end)
     (mkData [] [] [] [])
     false
     0%float.

Definition start (this : t) : t :=
  if running this then this
  else mk (maxDataPoints this) (memoryData this) true 0%float.

Definition stop (this : t) : t :=
  if negb (running this) then this
  else mk (maxDataPoints this) (memoryData this) false (maxMemoryUsed this).

(** [Math.round((bytes / 1024 / 1024) * 100) / 100] *)
Definition _bytesToMB (bytes : float) : float :=
  PrimFloat.div
    (Math_round
       (PrimFloat.mul (PrimFloat.div (PrimFloat.div bytes 1024%float) 1024%float)
          100%float))
    100%float.

(** [arr.push(value); if (arr.length > maxDataPoints) arr.shift()] *)
Definition update_collection (maxDataPoints : Z) (arr : list float) (value : float)
  : list float :=
  let arr := arr ++ [value] in
  if Z.gtb (Z.of_nat (List.length arr)) maxDataPoints then tl arr else arr.

(** [_captureMemoryUsage()], given what [process.memoryUsage()] returns:
    the new instance and the payload emitted as ['memory']. *)
Definition _captureMemoryUsage (memoryUsage : MemoryUsage) (this : t)
  : t * MemoryInfo :=
  let heapUsedMB := _bytesToMB (mu_heapUsed memoryUsage) in
  let maxUsed :=
    if PrimFloat.ltb (maxMemoryUsed this) heapUsedMB
    then heapUsedMB else maxMemoryUsed this in
  let n := maxDataPoints this in
  let d := memoryData this in
  let d := mkData
             (update_collection n (heapUsed d) heapUsedMB)
             (update_collection n (heapTotal d) (_bytesToMB (mu_heapTotal memoryUsage)))
             (update_collection n (rss d) (_bytesToMB (mu_rss memoryUsage)))
             (update_collection n (external d) (_bytesToMB (mu_external memoryUsage))) in
  (mk n d (running this) maxUsed,
   mkInfo heapUsedMB
     (_bytesToMB (mu_heapTotal memoryUsage))
     (_bytesToMB (mu_rss memoryUsage))
     (_bytesToMB (mu_external memoryUsage))).

(** An array length as a number (exact below 2^53). *)
Fixpoint number_of_nat (n : nat) : float :=
  match n with
  | O => 0%float
  | S m => PrimFloat.add (number_of_nat m) 1%float
  end.

(** [arr.reduce((acc, val) => acc + val, 0)] *)
Definition sum (arr : list float) : float :=
  fold_left PrimFloat.add arr 0%float.

Definition getStats (this : t) : Stats :=
  let arr := heapUsed (memoryData this) in
  if Nat.eqb (List.length arr) 0 then mkStats 0%float 0%float 0%float
  else
    mkStats (last arr 0%float)
      (maxMemoryUsed this)
      (PrimFloat.div (sum arr) (number_of_nat (List.length arr))).

(** A ['memory'] payload whose heap-used reading is [heapUsedMB]. *)
Definition sample (heapUsedMB : float) : MemoryInfo :=
  mkInfo heapUsedMB heapUsedMB heapUsedMB 0%float.

End MemoryGraph.

(* ================================================================== *)
(** ** src/lib/memoryMonitor.js                                        *)
(* ================================================================== *)

Module MemoryMonitor.

Record Options : Type := mkOptions
  { thresholdMB : float;
    autoThrottle : bool }.

Record t : Type := mk
  { options : Options;
    memoryGraph : MemoryGraph.t;
    running : bool;
    throttling : bool }.

(** What the monitor emits. *)
Inductive Emitted : Type :=
| threshold_exceeded (current threshold : float)
| threshold_restored (current threshold : float)
| memory_update (memoryInfo : MemoryGraph.MemoryInfo).

(** [options.thresholdMB || parseInt(process.env.MAX_MEMORY_USAGE_MB || '512', 10)],
    [options.autoThrottle === undefined ? true : options.autoThrottle], and a
    graph with [maxDataPoints: 120].  [env_thresholdMB] is the value of the
    [parseInt] operand. *)
Definition constructor (opt_thresholdMB : option float) (opt_autoThrottle : option bool)
    (env_thresholdMB : float) : t :=
  mk (mkOptions
        (match opt_thresholdMB with
         | Some x => if truthy_prim (PNumber x) then x else env_thresholdMB
         | None => env_thresholdMB
         end)
        (match opt_autoThrottle with
         | None => true
         | Some b => b
         end))
     (MemoryGraph.constructor (Some 120))
     false
     false.

(** [start()]: registers [_onMemoryUpdate] on the graph and starts it. *)
Definition start (this : t) : t :=
  if running this then this
  else mk (options this) (MemoryGraph.start (memoryGraph this)) true (throttling this).

Definition stop (this : t) : t :=
  if negb (running this) then this
  else mk (options this) (MemoryGraph.stop (memoryGraph this)) false (throttling this).

(** [_onMemoryUpdate(memoryInfo)]: the new instance and what is emitted. *)
Definition _onMemoryUpdate (memoryInfo : MemoryGraph.MemoryInfo) (this : t)
  : t * list Emitted :=
  let currentUsageMB := MemoryGraph.heap_used memoryInfo in
  let threshold := thresholdMB (options this) in
  let (this1, out) :=
    if PrimFloat.ltb threshold currentUsageMB then
      if negb (throttling this) && autoThrottle (options this)
      then (mk (options this) (memoryGraph this) (running this) true,
            [threshold_exceeded currentUsageMB threshold])
      else (this, [])
    else if throttling this
            && PrimFloat.ltb currentUsageMB (PrimFloat.mul threshold 0.8%float)
    then (mk (options this) (memoryGraph this) (running this) false,
          [threshold_restored currentUsageMB threshold])
    else (this, []) in
  (this1, out ++ [memory_update memoryInfo]).

Definition isThrottling (this : t) : bool := throttling this.

Definition getStats (this : t) : MemoryGraph.Stats :=
  MemoryGraph.getStats (memoryGraph this).

(** One firing of the graph's interval timer while the monitor runs: the
    graph captures a sample and its ['memory'] event reaches the registered
    [_onMemoryUpdate]. *)
Definition tick (memoryUsage : MemoryGraph.MemoryUsage) (this : t) : t * list Emitted :=
  if negb (MemoryGraph.running (memoryGraph this)) then (this, [])
  else
    let (g, memoryInfo) := MemoryGraph._captureMemoryUsage memoryUsage (memoryGraph this) in
    let this1 := mk (options this) g (running this) (throttling this) in
    if running this then _onMemoryUpdate memoryInfo this1 else (this1, []).

(** The monitor after a sequence of timer firings. *)
Definition ticks (usages : list MemoryGraph.MemoryUsage) (this : t) : t :=
  fold_left (fun m u => fst (tick u m)) usages this.

End MemoryMonitor.

(* ================================================================== *)
(** ** An in-memory store, to run the embedding                        *)
(* ================================================================== *)

Module MemStore.

Import Db.

(** The [employees] table reduced to its unique column, the [id] sequence,
    whether the server can be reached, and the state saved by BEGIN. *)
Record Store : Type := mkStore
  { online : bool;
    emails : list string;
    next_id : Z;
    saved : option (list string * Z) }.

Definition email_of (employee : Value) : string :=
  match get employee "email" with
  | PString s => s
  | _ => ""
  end.

Definition connection_error : Error :=
  mkError "Error" (Some "ECONNREFUSED") "connect ECONNREFUSED 127.0.0.1:5432".

Definition unique_violation : Error :=
  mkError "error" (Some "23505")
    "duplicate key value violates unique constraint employees_email_key".

(** All the tuples of one INSERT, or none of them. *)
Fixpoint insert_rows (es : list Value) (table : list string) (next : Z)
  : option (list string * Z * list Z) :=
  match es with
  | [] => Some (table, next, [])
  | e :: rest =>
      if existsb (String.eqb (email_of e)) table then None
      else
        match insert_rows rest (table ++ [email_of e]) (next + 1) with
        | Some (table', next', ids) => Some (table', next', next :: ids)
        | None => None
        end
  end.

Definition run_query (q : Sql) (w : Store) : Store * Res (list Z) :=
  if negb (online w) then (w, Throw connection_error)
  else
    match q with
    | BEGIN =>
        (mkStore true (emails w) (next_id w) (Some (emails w, next_id w)), Ok [])
    | COMMIT =>
        (mkStore true (emails w) (next_id w) None, Ok [])
    | ROLLBACK =>
        match saved w with
        | Some (table, next) => (mkStore true table next None, Ok [])
        | None => (w, Ok [])
        end
    | INSERT es =>
        match insert_rows es (emails w) (next_id w) with
        | Some (table, next, ids) => (mkStore true table next (saved w), Ok ids)
        | None => (w, Throw unique_violation)
        end
    end.

Definition driver : Driver Store :=
  {| pool_connect := fun w =>
       if online w then (w, Ok tt) else (w, Throw connection_error);
     pool_query := run_query;
     client_query := run_query;
     client_release := fun w => w |}.

End MemStore.

(* ================================================================== *)
(** ** Sample rows                                                     *)
(* ================================================================== *)

Module Samples.

Import Transformer.

Definition row (first_name last_name email : string) : RawRecord :=
  [("first_name", first_name); ("last_name", last_name); ("email", email)].

Definition ann : RawRecord := row "Ann" "Lee" "ann@example.com".
Definition bob : RawRecord := row "Bob" "Ray" "bob@example.com".
Definition eve : RawRecord := row "" "Lee" "eve@example.com".

(** What [EmployeeTransformer] pushes for a valid row. *)
Definition valid_record (r : RawRecord) : ValidatedRecord :=
  mkRecord (of_record r) true [].

(** A store that already holds Ann's address. *)
Definition store_with_ann : MemStore.Store :=
  MemStore.mkStore true ["ann@example.com"] 2 None.

(** A store that cannot be reached. *)
Definition store_offline : MemStore.Store :=
  MemStore.mkStore false [] 1 None.

End Samples.

(* ================================================================== *)
(** ** The statistics the specification names                          *)
(* ================================================================== *)

Module MemorySpec.

(** The running maximum of a sequence of readings, starting from the [0]
    that [start()] stores. *)
Definition running_maximum (readings : list float) : float :=
  fold_left (fun m x => if PrimFloat.ltb m x then x else m) readings 0%float.

(** The mean of a sequence of readings: their sum over their number. *)
Definition mean (readings : list float) : float :=
  PrimFloat.div (fold_left PrimFloat.add readings 0%float)
    (MemoryGraph.number_of_nat (List.length readings)).

(** The [n] most recent of a sequence (all of it when it is shorter). *)
Definition most_recent {A : Type} (n : nat) (xs : list A) : list A :=
  skipn (List.length xs - n) xs.

(** What the graph holds after the readings [seen]. *)
Definition graph_holds (seen : list float) (g : MemoryGraph.t) : Prop :=
  MemoryGraph.maxDataPoints g = 120
  /\ MemoryGraph.running g = true
  /\ MemoryGraph.heapUsed (MemoryGraph.memoryData g) = most_recent 120 seen
  /\ MemoryGraph.maxMemoryUsed g = running_maximum seen.

End MemorySpec.

(** An engine used to run the embedding on examples: every date and number
    text is unparseable.  The examples below carry no date, number or salary,
    so they do not depend on it. *)
Definition stub_engine : Engine :=
  {| Date_parse := fun _ => PrimFloat.nan;
     parseFloat := fun _ => PrimFloat.nan;
     Number_toString := fun _ => "NaN" |}.

(* ================================================================== *)
(** ** Reading parsed rows and validator outcomes                      *)
(* ================================================================== *)

Module Rows.

(** The string a parsed row holds under [k], if it has the column (the
    first binding of [k]). *)
Fixpoint field (r : RawRecord) (k : string) : option string :=
  match r with
  | [] => None
  | (k', v) :: rest => if String.eqb k k' then Some v else field rest k
  end.

(** The outcome of [validateEmployee] on a chunk for which it returns. *)
Definition outcome `{Engine} (chunk : Value) : Validator.ValidationOutcome :=
  match Validator.validateEmployee chunk with
  | Ok o => o
  | Throw _ => Validator.mkOutcome false []
  end.

(** [{ data: chunk, valid: validation.isValid, errors: validation.errors }] *)
Definition validated `{Engine} (chunk : Value) : Transformer.ValidatedRecord :=
  Transformer.mkRecord chunk (Validator.isValid (outcome chunk))
    (Validator.errors (outcome chunk)).

End Rows.

(* ================================================================== *)
(** ** src/utils/memoryGraph.js: the data of the line chart            *)
(* ================================================================== *)

Module MemoryChart.

(** One series handed to [lineChart.setData]. *)
Record Series : Type := mkSeries
  { title : string;
    x : list string;
    y : list float }.

(** [Math.max(1, Math.floor(n / 10))] for an array length [n]. *)
Definition step_of (n : nat) : nat := Nat.max 1 (n / 10).

(** [for (let i = ...; i < n; i += step) xLabels.push(label(i))], from
    index [i], with [fuel] turns at most. *)
Fixpoint xLabels_from (label : nat -> string) (fuel i n step : nat) : list string :=
  match fuel with
  | O => []
  | S fuel' =>
      if Nat.ltb i n then label i :: xLabels_from label fuel' (i + step) n step
      else []
  end.

(** [arr.filter((_, i) => i % step === 0)], the head of [arr] being at
    index [i]. *)
Fixpoint every (step i : nat) (arr : list float) : list float :=
  match arr with
  | [] => []
  | val :: rest =>
      if Nat.eqb (i mod step) 0 then val :: every step (S i) rest
      else every step (S i) rest
  end.

(** [val => isNaN(val) ? 0 : val] *)
Definition valid_reading (val : float) : float :=
  if isNaN val then 0%float else val.

(** [_updateChart()]: what is handed to [lineChart.setData], if anything.
    [hasLineChart] says whether [this.lineChart] is set, and [label i] is
    [(i * this.options.interval / 1000).toFixed(0) + 's']. *)
Definition _updateChart (label : nat -> string) (hasLineChart : bool)
    (this : MemoryGraph.t) : option (list Series) :=
  let d := MemoryGraph.memoryData this in
  let n := List.length (MemoryGraph.heapUsed d) in
  if negb hasLineChart || Nat.eqb n 0 then None
  else
    let step := step_of n in
    let xLabels := xLabels_from label n 0 n step in
    let validHeapUsed := map valid_reading (MemoryGraph.heapUsed d) in
    let validHeapTotal := map valid_reading (MemoryGraph.heapTotal d) in
    let validRSS := map valid_reading (MemoryGraph.rss d) in
    Some [mkSeries "Heap Used" xLabels (every step 0 validHeapUsed);
          mkSeries "Heap Total" xLabels (every step 0 validHeapTotal);
          mkSeries "RSS" xLabels (every step 0 validRSS)].

End MemoryChart.

(* ================================================================== *)
(** ** src/lib/fileReader.js: the record loop of processCSVFile        *)
(* ================================================================== *)

Module FileReader.

(** The counters of [stats] ([startTime] and [endTime] are left out). *)
Record Stats : Type := mkStats
  { totalRecords : Z;
    errorRecords : Z;
    successRecords : Z }.

(** What the generator yields: [{ record, result }] or [{ record, error }]. *)
Inductive Yielded : Type :=
| YResult (record result : Value)
| YError (record : Value) (error : Error).

Definition record_of (y : Yielded) : Value :=
  match y with
  | YResult record _ => record
  | YError record _ => record
  end.

(** [result === false] *)
Definition is_false (result : Value) : bool :=
  match result with
  | VPrim (PBoolean false) => true
  | _ => false
  end.

(** The items that were counted in [errorRecords]. *)
Definition failed (y : Yielded) : bool :=
  match y with
  | YResult _ result => is_false result
  | YError _ _ => true
  end.

Section Loop.

(** [processFunction(record, stats)], awaited: it is handed the [stats]
    object itself and may change it before it returns or throws. *)
Variable processFunction : Value -> Stats -> Stats * Res Value.

(** The body of [for await (const record of source)], for one record. *)
Definition handle (record : Value) (stats : Stats) : Stats * Yielded :=
  let stats :=
    mkStats (totalRecords stats + 1) (errorRecords stats) (successRecords stats) in
  match processFunction record stats with
  | (stats, Ok result) =>
      if is_false result
      then (mkStats (totalRecords stats) (errorRecords stats + 1) (successRecords stats),
            YResult record result)
      else (mkStats (totalRecords stats) (errorRecords stats) (successRecords stats + 1),
            YResult record result)
  | (stats, Throw error) =>
      (mkStats (totalRecords stats) (errorRecords stats + 1) (successRecords stats),
       YError record error)
  end.

(** The generator advanced through the records of [source]: the counters
    and what was yielded, in order. *)
Fixpoint generator (source : list Value) (stats : Stats) : Stats * list Yielded :=
  match source with
  | [] => (stats, [])
  | record :: rest =>
      let (stats1, y) := handle record stats in
      let (stats2, ys) := generator rest stats1 in
      (stats2, y :: ys)
  end.

End Loop.

End FileReader.

(* ================================================================== *)
(** ** src/utils/logger.js                                             *)
(* ================================================================== *)

Module Logger.

(** The options of the constructor that are read here; a property that is
    absent is [None].  Levels and prefixes are strings, flags are
    booleans. *)
Record Args : Type := mkArgs
  { arg_level : option string;
    arg_timestamp : option bool;
    arg_colors : option bool;
    arg_prefix : option string }.

Record Options : Type := mkOptions
  { level : string;
    timestamp : bool;
    colors : bool;
    prefix : string }.

Record t : Type := mk
  { options : Options }.

(** [options.level || 'info'], [options.timestamp !== undefined ?
    options.timestamp : true], the same for [colors], and
    [options.prefix || '']. *)
Definition constructor (args : Args) : t :=
  mk (mkOptions
        (match arg_level args with
         | Some l => if truthy_prim (PString l) then l else "info"
         | None => "info"
         end)
        (match arg_timestamp args with Some b => b | None => true end)
        (match arg_colors args with Some b => b | None => true end)
        (match arg_prefix args with
         | Some p => if truthy_prim (PString p) then p else ""
         | None => ""
         end)).

(** [this.levels[name]]: the priority of a level, [None] for [undefined]
    (a name that is not a key of the table compares as NaN in [_log]). *)
Definition levels (name : string) : option Z :=
  if String.eqb name "debug" then Some 0
  else if String.eqb name "info" then Some 1
  else if String.eqb name "warn" then Some 2
  else if String.eqb name "error" then Some 3
  else if String.eqb name "fatal" then Some 4
  else None.

Definition esc (code : string) : string :=
  String (ascii_of_nat 27) code.

Definition reset : string := esc "[0m".

(** [this.levelColors[name]] for the names of the table. *)
Definition levelColors (name : string) : option string :=
  if String.eqb name "debug" then Some (esc "[36m")
  else if String.eqb name "info" then Some (esc "[32m")
  else if String.eqb name "warn" then Some (esc "[33m")
  else if String.eqb name "error" then Some (esc "[31m")
  else if String.eqb name "fatal" then Some (esc "[31m" ++ esc "[1m")%string
  else None.

(** [toUpperCase] on the letters a to z. *)
Definition upper (c : ascii) : ascii :=
  let n := nat_of_ascii c in
  if Nat.leb 97 n && Nat.leb n 122 then ascii_of_nat (n - 32) else c.

Fixpoint toUpperCase (s : string) : string :=
  match s with
  | EmptyString => EmptyString
  | String c rest => String (upper c) (toUpperCase rest)
  end.

(** [_format(level, message)], for a level of the table; [now] is
    [new Date().toISOString()]. *)
Definition _format (name message now : string) (this : t) : string :=
  let formatted := "" in
  let formatted :=
    if timestamp (options this) then (formatted ++ "[" ++ now ++ "] ")%string
    else formatted in
  let formatted :=
    if truthy_prim (PString (prefix (options this)))
    then (formatted ++ "[" ++ prefix (options this) ++ "] ")%string
    else formatted in
  let formatted := (formatted ++ "[" ++ toUpperCase name ++ "] ")%string in
  let formatted := (formatted ++ message)%string in
  match levelColors name with
  | Some color =>
      if colors (options this) then (color ++ formatted ++ reset)%string
      else formatted
  | None => formatted
  end.

(** The console method a line is written with. *)
Inductive Console : Type :=
| console_log
| console_warn
| console_error.

(** [_log(level, message)]: the lines written, each with its console
    method.  A comparison with [undefined] on either side is false. *)
Definition _log (name message now : string) (this : t) : list (Console * string) :=
  match levels name, levels (level (options this)) with
  | Some p, Some q =>
      if Z.geb p q then
        let formatted := _format name message now this in
        if String.eqb name "debug" || String.eqb name "info"
        then [(console_log, formatted)]
        else if String.eqb name "warn" then [(console_warn, formatted)]
        else if String.eqb name "error" || String.eqb name "fatal"
        then [(console_error, formatted)]
        else [(console_log, formatted)]
      else []
  | _, _ => []
  end.

Definition debug (message now : string) (this : t) := _log "debug" message now this.
Definition info (message now : string) (this : t) := _log "info" message now this.
Definition warn (message now : string) (this : t) := _log "warn" message now this.
Definition error (message now : string) (this : t) := _log "error" message now this.
Definition fatal (message now : string) (this : t) := _log "fatal" message now this.

End Logger.

(* ================================================================== *)
(** ** Sequences of calls                                              *)
(* ================================================================== *)

Module Runs.

Import Db Transformer.

Section Writes.
Context {W : Type} `{Driver W}.

(** One [_write] as the stream makes it: the callback's argument carries
    no error (see [_write]) and is dropped. *)
Definition write_step (acc : DatabaseWriter.t * Session W)
    (chunk : DatabaseWriter.Chunk) : DatabaseWriter.t * Session W :=
  match DatabaseWriter._write chunk (fst acc) (snd acc) with
  | (this, s, _) => (this, s)
  end.

(** The chunks of a stream written one after the other. *)
Definition write_all (chunks : list DatabaseWriter.Chunk)
    (acc : DatabaseWriter.t * Session W) : DatabaseWriter.t * Session W :=
  fold_left write_step chunks acc.

End Writes.

Section Stages.
Context {W : Type} `{Driver W} `{Engine}.

(** What [processEmployeeFile] reads off the stages when the run is over. *)
Record Outcome : Type := mkOutcome
  { totalRecords : Z;
    transformer : EmployeeTransformer.t;
    batcher : BatchTransformer.t;
    writer : DatabaseWriter.t;
    store : Session W }.

(** The rest of a run from [st] with the stages taken one after the other,
    each to the end of its input before the next one starts: the rows still
    in the source are counted, the transformer validates everything in front
    of it, the batcher takes all the records and is flushed unless it was
    already, and the writer writes every batch. *)
Definition remaining (st : Pipeline.State W) : Outcome :=
  let chunks := Pipeline.to_transformer st ++ map of_record (Pipeline.source st) in
  let fed := EmployeeTransformer.feed chunks (Pipeline.employeeTransformer st) in
  let records := Pipeline.to_batcher st ++ snd (fst fed) in
  let batched := BatchTransformer.feed records (Pipeline.batchTransformer st) in
  let last :=
    if Pipeline.flushed st then (fst batched, [])
    else BatchTransformer._flush (fst batched) in
  let batches := Pipeline.to_writer st ++ snd batched ++ snd last in
  let written :=
    write_all (map DatabaseWriter.ChunkArray batches)
      (Pipeline.dbWriter st, Pipeline.session st) in
  mkOutcome (Pipeline.recordCount st + Z.of_nat (List.length (Pipeline.source st)))
    (fst (fst fed)) (fst last) (fst written) (snd written).

(** A row of the file [rows] that the validator accepts. *)
Definition accepted (rows : list RawRecord) (e : Value) : Prop :=
  exists row, In row rows /\ e = of_record row
              /\ Validator.isValid (Rows.outcome (of_record row)) = true.

(** The record the transformer pushes for a row of the file. *)
Definition pushed (rows : list RawRecord) (r : ValidatedRecord) : Prop :=
  exists row, In row rows /\ r = Rows.validated (of_record row).

End Stages.

(** The employees a call hands to the store. *)
Definition sent (ev : Db.Event) : list Value :=
  match ev with
  | Db.EPoolQuery (Db.INSERT es) => es
  | Db.EClientQuery (Db.INSERT es) => es
  | _ => []
  end.

Section Provenance.
Context {W : Type} `{Driver W} `{Engine}.

(** Everything in flight comes from the file, and everything sent to the
    store was accepted by the validator. *)
Definition from_the_file (rows : list RawRecord) (st : Pipeline.State W) : Prop :=
  incl (Pipeline.source st) rows
  /\ Forall (fun c => exists row, In row rows /\ c = of_record row)
       (Pipeline.to_transformer st)
  /\ Forall (pushed rows) (Pipeline.to_batcher st)
  /\ Forall (pushed rows)
       (BatchTransformer.currentBatch (Pipeline.batchTransformer st))
  /\ Forall (Forall (pushed rows)) (Pipeline.to_writer st)
  /\ Forall (accepted rows) (flat_map sent (log (Pipeline.session st))).

(** A row is still on its way to the writer: in the source, in front of
    the transformer, or, validated, in front of the batcher, in its current
    batch or in a batch in front of the writer. *)
Definition pending (st : Pipeline.State W) (row : RawRecord) : Prop :=
  In row (Pipeline.source st)
  \/ In (of_record row) (Pipeline.to_transformer st)
  \/ In (Rows.validated (of_record row))
       (Pipeline.to_batcher st
        ++ BatchTransformer.currentBatch (Pipeline.batchTransformer st)
        ++ List.concat (Pipeline.to_writer st)).

(** No accepted row of the file is lost: it is on its way or was sent. *)
Definition none_lost (rows : list RawRecord) (st : Pipeline.State W) : Prop :=
  forall row,
    In row rows ->
    Validator.isValid (Rows.outcome (of_record row)) = true ->
    pending st row
    \/ In (of_record row) (flat_map sent (log (Pipeline.session st))).

End Provenance.

(** *** The memory monitor over time *)

(** The firings of the graph's timer, one after the other, with everything
    the monitor emits, in order. *)
Fixpoint tick_all (usages : list MemoryGraph.MemoryUsage) (this : MemoryMonitor.t)
  : MemoryMonitor.t * list MemoryMonitor.Emitted :=
  match usages with
  | [] => (this, [])
  | u :: rest =>
      let (this1, out1) := MemoryMonitor.tick u this in
      let (this2, out2) := tick_all rest this1 in
      (this2, out1 ++ out2)
  end.

(** The flag as a listener follows it from the threshold events alone. *)
Fixpoint flag_after (throttling : bool) (out : list MemoryMonitor.Emitted) : bool :=
  match out with
  | [] => throttling
  | MemoryMonitor.threshold_exceeded _ _ :: rest => flag_after true rest
  | MemoryMonitor.threshold_restored _ _ :: rest => flag_after false rest
  | MemoryMonitor.memory_update _ :: rest => flag_after throttling rest
  end.

(** ['threshold-exceeded'] comes only while the flag is off and
    ['threshold-restored'] only while it is on. *)
Fixpoint alternates (throttling : bool) (out : list MemoryMonitor.Emitted) : bool :=
  match out with
  | [] => true
  | MemoryMonitor.threshold_exceeded _ _ :: rest => negb throttling && alternates true rest
  | MemoryMonitor.threshold_restored _ _ :: rest => throttling && alternates false rest
  | MemoryMonitor.memory_update _ :: rest => alternates throttling rest
  end.

(** The payload of a threshold event agrees with the comparison that
    raised it. *)
Definition justified (T : float) (e : MemoryMonitor.Emitted) : Prop :=
  match e with
  | MemoryMonitor.threshold_exceeded current threshold =>
      threshold = T /\ PrimFloat.ltb T current = true
  | MemoryMonitor.threshold_restored current threshold =>
      threshold = T /\ PrimFloat.ltb current (PrimFloat.mul T 0.8%float) = true
  | MemoryMonitor.memory_update _ => True
  end.

(** The payload of the ['memory'] event for one reading. *)
Definition info_of (u : MemoryGraph.MemoryUsage) : MemoryGraph.MemoryInfo :=
  MemoryGraph.mkInfo
    (MemoryGraph._bytesToMB (MemoryGraph.mu_heapUsed u))
    (MemoryGraph._bytesToMB (MemoryGraph.mu_heapTotal u))
    (MemoryGraph._bytesToMB (MemoryGraph.mu_rss u))
    (MemoryGraph._bytesToMB (MemoryGraph.mu_external u)).

(** The graph after a sequence of [_captureMemoryUsage] calls. *)
Definition captures (usages : list MemoryGraph.MemoryUsage) (g : MemoryGraph.t)
  : MemoryGraph.t :=
  fold_left (fun g u => fst (MemoryGraph._captureMemoryUsage u g)) usages g.

(** One of the four readings of each sample, in megabytes. *)
Definition series (reading : MemoryGraph.MemoryUsage -> float)
    (usages : list MemoryGraph.MemoryUsage) : list float :=
  map (fun u => MemoryGraph._bytesToMB (reading u)) usages.

End Runs.

(* ================================================================== *)
(** * Properties                                                       *)
(* ================================================================== *)

(** ** The built-in models on sample inputs *)

Example round_examples :
  map Math_round [2.5; 1.5; 0.49999999999999994; 150.4; (-2.5); 7]%float
  = [3; 2; 0; 150; (-2); 7]%float.
Proof. vm_compute. reflexivity. Qed.

Example trim_examples :
  map trim ["  a b  "; "   "; ""; "x"] = ["a b"; ""; ""; "x"].
Proof. vm_compute. reflexivity. Qed.

Example email_examples :
  map (fun s => @Validator.isValidEmail stub_engine (PString s))
    ["a@b.com"; "not-an-email"; "a@b"; "a b@c.d"; "a@@b.c"; "a@b.c.d"; "@b.c"; "a@b."]
  = [true; false; false; false; false; true; false; false].
Proof. vm_compute. reflexivity. Qed.

(** ** Regular expressions: [test] decides [matches] *)

Section RegexFacts.

Lemma append_empty (s1 s2 : string) :
  (s1 ++ s2)%string = "" -> s1 = "" /\ s2 = "".
Proof. destruct s1; [auto | discriminate]. Qed.

Lemma seq_inv (r1 r2 : Regex) (s : string) :
  matches (Seq r1 r2) s ->
  exists s1 s2, s = (s1 ++ s2)%string /\ matches r1 s1 /\ matches r2 s2.
Proof. intro Hm. inversion Hm; subst. eauto. Qed.

Lemma class_inv (p : ascii -> bool) (s : string) :
  matches (Class p) s -> exists c, s = String c "" /\ p c = true.
Proof. intro Hm. inversion Hm; subst. eauto. Qed.

Lemma nullable_matches (r : Regex) : nullable r = true <-> matches r "".
Proof.
  induction r as [ | | p | r1 IH1 r2 IH2 | r1 IH1 r2 IH2 | r IH]; cbn; split;
    try discriminate; try (intros _; solve [constructor]).
  - intro Hm. inversion Hm.
  - intro Hm. inversion Hm.
  - intro Hn. apply andb_prop in Hn. destruct Hn as [H1 H2].
    change "" with ("" ++ "")%string. constructor; [now apply IH1 | now apply IH2].
  - intro Hm. destruct (seq_inv Hm) as (s1 & s2 & Hs & H1 & H2).
    symmetry in Hs. apply append_empty in Hs. destruct Hs as [-> ->].
    apply andb_true_intro. split; [now apply IH1 | now apply IH2].
  - intro Hn. apply orb_prop in Hn.
    destruct Hn as [H1 | H2]; [apply m_alt_l; now apply IH1 | apply m_alt_r; now apply IH2].
  - intro Hm. apply orb_true_intro.
    inversion Hm; subst; [left; now apply IH1 | right; now apply IH2].
Qed.

(** A non-empty match of [Star r] starts with a non-empty match of [r]. *)
Lemma star_cons (r : Regex) (c : ascii) (s : string) :
  matches (Star r) (String c s) ->
  exists s1 s2, s = (s1 ++ s2)%string
                /\ matches r (String c s1) /\ matches (Star r) s2.
Proof.
  intro Hm. remember (Star r) as r0 eqn:Er. remember (String c s) as s0 eqn:Es.
  revert s Es.
  induction Hm as [ | | | | | |r' s1 s2 H1 _ H2 IH2]; intros t Et; try discriminate.
  injection Er as ->.
  destruct s1 as [|c1 s1'].
  - cbn in Et. now apply IH2.
  - cbn in Et. injection Et as -> <-. now exists s1', s2.
Qed.

Lemma deriv_matches (c : ascii) (r : Regex) :
  forall s, matches (deriv c r) s <-> matches r (String c s).
Proof.
  induction r as [ | | p | r1 IH1 r2 IH2 | r1 IH1 r2 IH2 | r IH]; intro s; cbn.
  - split; intro Hm; inversion Hm.
  - split; intro Hm; inversion Hm.
  - destruct (p c) eqn:Hp; split; intro Hm.
    + inversion Hm; subst. now constructor.
    + destruct (class_inv Hm) as (c' & [= E1 E2] & _). subst. constructor.
    + inversion Hm.
    + destruct (class_inv Hm) as (c' & [= E1 E2] & Hc). subst. congruence.
  - assert (Hleft : forall s, matches (Seq (deriv c r1) r2) s ->
                               matches (Seq r1 r2) (String c s)).
    { intros s0 Hm. destruct (seq_inv Hm) as (s1 & s2 & -> & H1 & H2).
      change (String c (s1 ++ s2)) with (String c s1 ++ s2)%string.
      constructor; [now apply IH1 | exact H2]. }
    assert (Hback : forall s, matches (Seq r1 r2) (String c s) ->
                               matches (Seq (deriv c r1) r2) s
                               \/ (matches r1 "" /\ matches (deriv c r2) s)).
    { intros s0 Hm. destruct (seq_inv Hm) as (s1 & s2 & Hs & H1 & H2).
      destruct s1 as [|c1 s1'].
      - cbn in Hs. subst s2. right. split; [exact H1 | now apply IH2].
      - cbn in Hs. injection Hs as <- ->. left.
        constructor; [now apply IH1 | exact H2]. }
    destruct (nullable r1) eqn:Hn; split; intro Hm.
    + inversion Hm; subst; [now apply Hleft|].
      change (String c s) with ("" ++ String c s)%string.
      constructor; [now apply nullable_matches | now apply IH2].
    + destruct (Hback _ Hm) as [Hl | [_ Hr]]; [now apply m_alt_l | now apply m_alt_r].
    + now apply Hleft.
    + destruct (Hback _ Hm) as [Hl | [H0 _]]; [exact Hl|].
      apply nullable_matches in H0. congruence.
  - split; intro Hm; inversion Hm; subst;
      solve [apply m_alt_l; now apply IH1 | apply m_alt_r; now apply IH2].
  - split; intro Hm.
    + destruct (seq_inv Hm) as (s1 & s2 & -> & H1 & H2).
      change (String c (s1 ++ s2)) with (String c s1 ++ s2)%string.
      constructor; [now apply IH | exact H2].
    + destruct (star_cons Hm) as (s1 & s2 & -> & H1 & H2).
      constructor; [now apply IH | exact H2].
Qed.

(** [test] accepts exactly the strings the expression denotes. *)
Lemma test_matches (s : string) :
  forall r, test r s = true <-> matches r s.
Proof.
  induction s as [|c s IH]; intro r; cbn.
  - apply nullable_matches.
  - rewrite IH. apply deriv_matches.
Qed.

Lemma star_class (p : ascii -> bool) (s : string) :
  matches (Star (Class p)) s <-> all_chars p s = true.
Proof.
  split.
  - intro Hm. remember (Star (Class p)) as r0 eqn:Er.
    induction Hm as [ | | | | | |r' s1 s2 H1 _ H2 IH2]; try discriminate.
    + reflexivity.
    + injection Er as ->. destruct (class_inv H1) as (c & -> & Hc). cbn.
      apply andb_true_intro. split; [assumption | now apply IH2].
  - revert s. induction s as [|c s IH]; cbn; intro Ha.
    + constructor.
    + apply andb_prop in Ha. destruct Ha as [Hc Hs].
      change (String c s) with (String c "" ++ s)%string.
      constructor; [now constructor | now apply IH].
Qed.

(** [[p]+] denotes the non-empty strings over [p]. *)
Lemma plus_class (p : ascii -> bool) (s : string) :
  matches (Plus (Class p)) s <-> s <> "" /\ all_chars p s = true.
Proof.
  unfold Plus. split.
  - intro Hm. destruct (seq_inv Hm) as (s1 & s2 & -> & H1 & H2).
    destruct (class_inv H1) as (c & -> & Hc). cbn. split; [discriminate|].
    apply andb_true_intro. split; [assumption | now apply star_class].
  - intros [Hne Ha]. destruct s as [|c s]; [now elim Hne|].
    cbn in Ha. apply andb_prop in Ha. destruct Ha as [Hc Hs].
    change (String c s) with (String c "" ++ s)%string.
    constructor; [now constructor | now apply star_class].
Qed.

Lemma chr_matches (c : ascii) (s : string) :
  matches (Chr c) s <-> s = String c "".
Proof.
  unfold Chr. split.
  - intro Hm. destruct (class_inv Hm) as (c' & -> & Hc).
    apply Ascii.eqb_eq in Hc. now subst.
  - intros ->. constructor. apply Ascii.eqb_refl.
Qed.

(** The addresses [emailRegex] accepts: [local@domain.tld] with the three
    parts non-empty and free of white space and of [@]. *)
Lemma emailRegex_shape (s : string) :
  test Validator.emailRegex s = true <->
  exists x y z,
    s = (x ++ "@" ++ y ++ "." ++ z)%string
    /\ (x <> "" /\ all_chars Validator.not_space_at x = true)
    /\ (y <> "" /\ all_chars Validator.not_space_at y = true)
    /\ (z <> "" /\ all_chars Validator.not_space_at z = true).
Proof.
  rewrite test_matches. unfold Validator.emailRegex. split.
  - intro Hm.
    destruct (seq_inv Hm) as (x & s1 & -> & Hx & H1).
    destruct (seq_inv H1) as (a & s2 & -> & Ha & H2).
    destruct (seq_inv H2) as (y & s3 & -> & Hy & H3).
    destruct (seq_inv H3) as (d & z & -> & Hd & Hz).
    apply chr_matches in Ha. apply chr_matches in Hd. subst a d.
    exists x, y, z. split; [reflexivity|].
    split; [now apply plus_class|]. split; now apply plus_class.
  - intros (x & y & z & -> & Hx & Hy & Hz).
    constructor; [now apply plus_class|].
    constructor; [now apply chr_matches|].
    constructor; [now apply plus_class|].
    constructor; [now apply chr_matches | now apply plus_class].
Qed.

End RegexFacts.

(** X1.  [isValidEmail] accepts a string exactly when it has the shape
    [local@domain.tld]: three non-empty parts, free of white space and of
    [@], joined by one [@] and, after it, a dot. *)
Theorem isValidEmail_shape : forall (E : Engine) (s : string),
  Validator.isValidEmail (PString s) = true <->
  exists x y z,
    s = (x ++ "@" ++ y ++ "." ++ z)%string
    /\ (x <> "" /\ all_chars Validator.not_space_at x = true)
    /\ (y <> "" /\ all_chars Validator.not_space_at y = true)
    /\ (z <> "" /\ all_chars Validator.not_space_at z = true).
Proof.
  intros E s. unfold Validator.isValidEmail. cbn [truthy_prim ToString].
  destruct (String.eqb_spec s "") as [-> | Hne]; cbn [negb].
  - split; [discriminate|].
    intros (x & y & z & Hs & (Hx & _) & _).
    destruct x; [now elim Hx | discriminate Hs].
  - apply emailRegex_shape.
Qed.

(** ** Validator *)

Section ValidatorFacts.
Context `{Engine}.

Import Validator.

Lemma lookup_of_record (k : string) (r : RawRecord) :
  lookup k (map (fun kv => (fst kv, PString (snd kv))) r) = None \/
  exists s, lookup k (map (fun kv => (fst kv, PString (snd kv))) r) = Some (PString s).
Proof.
  induction r as [|[k' v] r IH]; simpl.
  - now left.
  - destruct (String.eqb k k').
    + right. now exists v.
    + exact IH.
Qed.

(** A property of a parsed row reads [undefined] or a string. *)
Lemma get_of_record (r : RawRecord) (k : string) :
  get (of_record r) k = PUndefined \/ exists s, get (of_record r) k = PString s.
Proof.
  unfold get, of_record.
  destruct (lookup_of_record k r) as [E | [s E]]; rewrite E.
  - now left.
  - right. now exists s.
Qed.

Lemma blank_of_record (r : RawRecord) (k : string) :
  exists b, blank k (get (of_record r) k) = Ok b.
Proof.
  destruct (get_of_record r k) as [E | [s E]]; rewrite E; unfold blank; simpl.
  - now exists true.
  - destruct (String.eqb s ""); simpl; eauto.
Qed.

(** On a parsed row the validator returns: no field rule throws. *)
Lemma validateEmployee_of_record (r : RawRecord) :
  exists o, validateEmployee (of_record r) = Ok o.
Proof.
  unfold validateEmployee.
  replace (negb (truthy (of_record r))
           || negb (String.eqb (typeof (of_record r)) "object")) with false
    by reflexivity.
  destruct (blank_of_record r "first_name") as [b1 E1].
  destruct (blank_of_record r "last_name") as [b2 E2].
  rewrite E1, E2. simpl. eauto.
Qed.

End ValidatorFacts.

(** C8.  [validateEmployee] is a function of its argument alone, and on the
    three sample records it answers as the specification lists: an empty
    first name is reported as "First name is required", a malformed address
    as "Email format is invalid", and a complete record is valid with no
    error. *)
Theorem validateEmployee_examples : forall E : Engine,
  (forall v r1 r2,
      Validator.validateEmployee v = r1 ->
      Validator.validateEmployee v = r2 -> r1 = r2)
  /\ (exists errs,
        Validator.validateEmployee
          (of_record [("first_name", ""); ("last_name", "Lee"); ("email", "a@b.com")])
        = Ok (Validator.mkOutcome false errs)
        /\ In "First name is required" errs)
  /\ (exists errs,
        Validator.validateEmployee
          (of_record [("first_name", "A"); ("last_name", "B"); ("email", "not-an-email")])
        = Ok (Validator.mkOutcome false errs)
        /\ In "Email format is invalid" errs)
  /\ Validator.validateEmployee
       (of_record [("first_name", "A"); ("last_name", "B"); ("email", "a@b.com")])
     = Ok (Validator.mkOutcome true []).
Proof.
  intro E. repeat split.
  - intros v r1 r2 H1 H2. congruence.
  - exists ["First name is required"]. split; [reflexivity | now left].
  - exists ["Email format is invalid"]. split; [reflexivity | now left].
Qed.

(** C10.  A value that is [null], [undefined] or whose [typeof] is not
    ["object"] is answered without a throw, by the single error
    "Invalid employee data format"; no field rule contributes. *)
Theorem validateEmployee_non_object : forall (E : Engine) (v : Value),
  v = VPrim PNull \/ v = VPrim PUndefined \/ typeof v <> "object" ->
  Validator.validateEmployee v
  = Ok (Validator.mkOutcome false ["Invalid employee data format"]).
Proof.
  intros E v Hv. unfold Validator.validateEmployee.
  destruct v as [[ | | b | x | s] | z | | | props]; simpl;
    rewrite ?orb_true_r; try reflexivity.
  destruct Hv as [Hv | [Hv | Hv]]; try discriminate.
  now elim Hv.
Qed.

Lemma validateEmployee_non_object_witness :
  (VPrim (PNumber 5%float) = VPrim PNull
   \/ VPrim (PNumber 5%float) = VPrim PUndefined
   \/ typeof (VPrim (PNumber 5%float)) <> "object")
  /\ @Validator.validateEmployee stub_engine (VPrim (PNumber 5%float))
     = Ok (Validator.mkOutcome false ["Invalid employee data format"]).
Proof.
  assert (Hv : VPrim (PNumber 5%float) = VPrim PNull
               \/ VPrim (PNumber 5%float) = VPrim PUndefined
               \/ typeof (VPrim (PNumber 5%float)) <> "object").
  { right. right. simpl. discriminate. }
  split; [exact Hv | exact (validateEmployee_non_object stub_engine Hv)].
Defined.

(** ** EmployeeTransformer *)

Section EmployeeTransformerFacts.
Context `{Engine}.

Import Transformer Transformer.EmployeeTransformer.

(** What one [_transform] does to the counters, whatever the chunk. *)
Lemma transform_counters (chunk : Value) (this : t) :
  forall this' out r, _transform chunk this = (this', out, r) ->
    processed (stats this') = processed (stats this) + 1
    /\ match r with
       | Ok _ =>
           (valid (stats this') = valid (stats this) + 1
            /\ invalid (stats this') = invalid (stats this))
           \/ (valid (stats this') = valid (stats this)
               /\ invalid (stats this') = invalid (stats this) + 1)
       | Throw _ =>
           valid (stats this') = valid (stats this)
           /\ invalid (stats this') = invalid (stats this)
       end.
Proof.
  intros this' out r. unfold _transform.
  destruct (Validator.validateEmployee chunk) as [validation | e].
  - destruct (Validator.isValid validation); intros [= <- <- <-]; simpl; auto.
  - intros [= <- <- <-]; simpl; auto.
Qed.

(** A parsed row never makes [_transform] report an error. *)
Lemma transform_of_record (row : RawRecord) (this : t) :
  exists this' out, _transform (of_record row) this = (this', out, Ok tt).
Proof.
  unfold _transform.
  destruct (validateEmployee_of_record row) as [o ->].
  destruct (Validator.isValid o); eauto.
Qed.

(** After any sequence of parsed rows: no error, one output per row, and
    [processed = valid + invalid] counts the rows. *)
Lemma feed_of_records (rows : list RawRecord) (this : t) :
  exists this' out,
    feed (map of_record rows) this = (this', out, Ok tt)
    /\ processed (stats this') = processed (stats this) + Z.of_nat (List.length rows)
    /\ valid (stats this') + invalid (stats this')
       = valid (stats this) + invalid (stats this) + Z.of_nat (List.length rows)
    /\ valid (stats this) <= valid (stats this')
    /\ invalid (stats this) <= invalid (stats this').
Proof.
  revert this. induction rows as [|row rows IH]; intro this.
  - exists this, []. simpl. repeat split; lia.
  - cbn [map feed].
    destruct (transform_of_record row this) as (this1 & out1 & E1).
    rewrite E1.
    destruct (transform_counters _ _ E1) as (Hp & Hv).
    destruct (IH this1) as (this2 & out2 & E2 & Hp2 & Hs2 & Hv2 & Hi2).
    rewrite E2. exists this2, (out1 ++ out2).
    cbn [List.length]. repeat split; lia.
Qed.

End EmployeeTransformerFacts.

(** C7.  Over any sequence of parsed rows, after every prefix of it the
    transformer has reported no error and its counters satisfy
    [processed = valid + invalid], both sides being the number of rows
    consumed; and one [_transform] raises [processed] by one and exactly one
    of [valid] and [invalid] by one. *)
Theorem processed_is_valid_plus_invalid :
  forall (E : Engine) (rows : list RawRecord),
    (forall n : nat,
        exists this out,
          Transformer.EmployeeTransformer.feed
            (map of_record (firstn n rows))
            Transformer.EmployeeTransformer.constructor
          = (this, out, Ok tt)
          /\ Transformer.EmployeeTransformer.processed
               (Transformer.EmployeeTransformer.getStats this)
             = Transformer.EmployeeTransformer.valid
                 (Transformer.EmployeeTransformer.getStats this)
               + Transformer.EmployeeTransformer.invalid
                   (Transformer.EmployeeTransformer.getStats this)
          /\ Transformer.EmployeeTransformer.processed
               (Transformer.EmployeeTransformer.getStats this)
             = Z.of_nat (List.length (firstn n rows)))
    /\ (forall (row : RawRecord) (this : Transformer.EmployeeTransformer.t),
          exists this' out,
            Transformer.EmployeeTransformer._transform (of_record row) this
            = (this', out, Ok tt)
            /\ Transformer.EmployeeTransformer.processed
                 (Transformer.EmployeeTransformer.stats this')
               = Transformer.EmployeeTransformer.processed
                   (Transformer.EmployeeTransformer.stats this) + 1
            /\ ((Transformer.EmployeeTransformer.valid
                   (Transformer.EmployeeTransformer.stats this')
                 = Transformer.EmployeeTransformer.valid
                     (Transformer.EmployeeTransformer.stats this) + 1
                 /\ Transformer.EmployeeTransformer.invalid
                      (Transformer.EmployeeTransformer.stats this')
                    = Transformer.EmployeeTransformer.invalid
                        (Transformer.EmployeeTransformer.stats this))
                \/ (Transformer.EmployeeTransformer.valid
                      (Transformer.EmployeeTransformer.stats this')
                    = Transformer.EmployeeTransformer.valid
                        (Transformer.EmployeeTransformer.stats this)
                    /\ Transformer.EmployeeTransformer.invalid
                         (Transformer.EmployeeTransformer.stats this')
                       = Transformer.EmployeeTransformer.invalid
                           (Transformer.EmployeeTransformer.stats this) + 1))).
Proof.
  intros E rows. split.
  - intro n.
    destruct (feed_of_records (firstn n rows)
                Transformer.EmployeeTransformer.constructor)
      as (this & out & Efeed & Hp & Hs & _ & _).
    exists this, out. unfold Transformer.EmployeeTransformer.getStats.
    simpl in Hp, Hs. repeat split; [exact Efeed | lia | lia].
  - intros row this.
    destruct (transform_of_record row this) as (this' & out & E1).
    exists this', out.
    destruct (transform_counters _ _ E1) as (Hp & Hv).
    repeat split; assumption.
Qed.

(** ** BatchTransformer *)

Section BatchTransformerFacts.

Import Transformer Transformer.BatchTransformer.

Lemma admitted_eq (this : t) (chunks : list ValidatedRecord) :
  admitted this chunks = filter (keeps (validOnly this)) chunks.
Proof. reflexivity. Qed.

Lemma keeps_true_valid (chunks : list ValidatedRecord) :
  filter (keeps true) chunks = filter Transformer.valid chunks.
Proof.
  apply filter_ext. intro c. unfold keeps. simpl. apply negb_involutive.
Qed.

(** [_transform] keeps the configuration and moves the chunk, if admitted,
    either into [currentBatch] or, with it, into the one batch pushed. *)
Lemma transform_concat (chunk : ValidatedRecord) (this this' : t) (out : list Batch) :
  _transform chunk this = (this', out) ->
  batchSize this' = batchSize this
  /\ validOnly this' = validOnly this
  /\ List.concat out ++ currentBatch this'
     = currentBatch this ++ filter (keeps (validOnly this)) [chunk].
Proof.
  unfold _transform, keeps. simpl.
  destruct (validOnly this && negb (Transformer.valid chunk)); simpl.
  - intros [= <- <-]. simpl. now rewrite app_nil_r.
  - destruct (Z.geb _ _); intros [= <- <-]; simpl; now rewrite ?app_nil_r.
Qed.

Lemma feed_concat (chunks : list ValidatedRecord) :
  forall (this this' : t) (out : list Batch),
    feed chunks this = (this', out) ->
    batchSize this' = batchSize this
    /\ validOnly this' = validOnly this
    /\ List.concat out ++ currentBatch this'
       = currentBatch this ++ filter (keeps (validOnly this)) chunks.
Proof.
  induction chunks as [|chunk chunks IH]; intros this this' out; simpl.
  - intros [= <- <-]. simpl. now rewrite app_nil_r.
  - destruct (_transform chunk this) as [this1 out1] eqn:E1.
    destruct (feed chunks this1) as [this2 out2] eqn:E2.
    intros [= <- <-].
    destruct (transform_concat _ _ E1) as (HB1 & Hv1 & Hc1).
    destruct (IH _ _ _ E2) as (HB2 & Hv2 & Hc2).
    repeat split; try congruence.
    rewrite concat_app, <- app_assoc, Hc2, Hv1, app_assoc, Hc1.
    simpl. destruct (keeps (validOnly this) chunk); simpl;
      now rewrite <- ?app_assoc, ?app_nil_r.
Qed.

(** With a capacity of at least one and a shorter [currentBatch], a
    [_transform] pushes only batches of exactly that capacity and leaves
    [currentBatch] shorter than it. *)
Lemma transform_sizes (chunk : ValidatedRecord) (this this' : t) (out : list Batch) :
  1 <= batchSize this ->
  Z.of_nat (List.length (currentBatch this)) < batchSize this ->
  _transform chunk this = (this', out) ->
  Forall (fun b => Z.of_nat (List.length b) = batchSize this) out
  /\ Z.of_nat (List.length (currentBatch this')) < batchSize this.
Proof.
  intros HB Hlt. unfold _transform.
  destruct (validOnly this && negb (Transformer.valid chunk)).
  - intros [= <- <-]. auto.
  - destruct (Z.geb _ _) eqn:G; intros [= <- <-]; simpl.
    + split; [|lia]. constructor; [|constructor].
      rewrite Z.geb_leb in G. apply Z.leb_le in G.
      rewrite length_app in *. simpl in *. lia.
    + split; [constructor|].
      rewrite Z.geb_leb in G. apply Z.leb_gt in G. exact G.
Qed.

Lemma feed_sizes (chunks : list ValidatedRecord) :
  forall (this this' : t) (out : list Batch),
    1 <= batchSize this ->
    Z.of_nat (List.length (currentBatch this)) < batchSize this ->
    feed chunks this = (this', out) ->
    Forall (fun b => Z.of_nat (List.length b) = batchSize this) out
    /\ Z.of_nat (List.length (currentBatch this')) < batchSize this.
Proof.
  induction chunks as [|chunk chunks IH]; intros this this' out HB Hlt; simpl.
  - intros [= <- <-]. auto.
  - destruct (_transform chunk this) as [this1 out1] eqn:E1.
    destruct (feed chunks this1) as [this2 out2] eqn:E2.
    intros [= <- <-].
    destruct (transform_sizes _ _ HB Hlt E1) as (F1 & L1).
    destruct (transform_concat _ _ E1) as (HB1 & _ & _).
    rewrite <- HB1 in L1.
    assert (HB' : 1 <= batchSize this1) by lia.
    destruct (IH _ _ _ HB' L1 E2) as (F2 & L2).
    rewrite HB1 in F2, L2.
    split; [apply Forall_app; auto | exact L2].
Qed.

Lemma length_concat_uniform (B : Z) (bs : list Batch) :
  Forall (fun b => Z.of_nat (List.length b) = B) bs ->
  Z.of_nat (List.length (List.concat bs)) = Z.of_nat (List.length bs) * B.
Proof.
  induction 1 as [|b bs Hb _ IH]; cbn [List.concat List.length].
  - reflexivity.
  - rewrite length_app, Nat2Z.inj_add, Nat2Z.inj_succ, IH. lia.
Qed.

(** The shape of a whole run from a fresh instance of capacity [B >= 1]
    that admits [V] records: [V / B] full batches from [_transform], and
    from [_flush] the remaining [V mod B] records as one batch, if any. *)
Lemma run_shape (options : Options) (chunks : list ValidatedRecord) :
  let this := constructor options in
  let B := batchSize this in
  let V := Z.of_nat (List.length (admitted this chunks)) in
  1 <= B ->
  forall this' out1 out2,
    run chunks this = (this', out1, out2) ->
    Forall (fun b => Z.of_nat (List.length b) = B) out1
    /\ Z.of_nat (List.length out1) = V / B
    /\ currentBatch this' = []
    /\ ((V mod B = 0 /\ out2 = [])
        \/ (V mod B <> 0
            /\ exists b, out2 = [b] /\ Z.of_nat (List.length b) = V mod B)).
Proof.
  intros this B V HB this' out1 out2. unfold run.
  destruct (feed chunks this) as [this1 o1] eqn:E1.
  destruct (_flush this1) as [this2 o2] eqn:E2.
  intros [= <- <- <-].
  assert (Hcb : currentBatch this = []) by reflexivity.
  assert (Hlt : Z.of_nat (List.length (currentBatch this)) < batchSize this)
    by (rewrite Hcb; change (0 < B); lia).
  destruct (feed_sizes _ _ HB Hlt E1) as (F1 & L1).
  destruct (feed_concat _ _ E1) as (HB1 & Hv1 & Hc1).
  fold B in F1, L1.
  rewrite Hcb in Hc1. cbn [app] in Hc1.
  assert (HV : V = Z.of_nat (List.length o1) * B
                   + Z.of_nat (List.length (currentBatch this1))).
  { unfold V. rewrite admitted_eq, <- Hc1, length_app, Nat2Z.inj_add.
    now rewrite (length_concat_uniform F1). }
  assert (Hq : V / B = Z.of_nat (List.length o1)).
  { symmetry. apply (Z.div_unique V B _ (Z.of_nat (List.length (currentBatch this1)))); lia. }
  assert (Hr : V mod B = Z.of_nat (List.length (currentBatch this1))).
  { symmetry. apply (Z.mod_unique V B (Z.of_nat (List.length o1))); lia. }
  unfold _flush in E2.
  destruct (currentBatch this1) as [|c cb] eqn:Ecb.
  - cbn in E2. injection E2 as <- <-.
    split; [exact F1|]. split; [now rewrite Hq|]. split; [exact Ecb|].
    left. split; [exact Hr | reflexivity].
  - replace (Z.gtb (Z.of_nat (List.length (c :: cb))) 0) with true in E2
      by (symmetry; apply Z.gtb_lt; cbn [List.length]; lia).
    injection E2 as <- <-.
    split; [exact F1|]. split; [now rewrite Hq|]. split; [reflexivity|].
    right. split.
    + rewrite Hr. cbn [List.length]. lia.
    + exists (c :: cb). split; [reflexivity | now rewrite Hr].
Qed.

End BatchTransformerFacts.

Section BatchTransformerRuns.

Import Transformer Transformer.BatchTransformer.

(** All the batches of a run, laid end to end, are the [currentBatch] the
    run started with followed by the admitted chunks. *)
Lemma emitted_concat (chunks : list ValidatedRecord) (this : t) :
  List.concat (emitted chunks this)
  = currentBatch this ++ filter (keeps (validOnly this)) chunks.
Proof.
  unfold emitted, run.
  destruct (feed chunks this) as [this1 o1] eqn:E1.
  destruct (feed_concat _ _ E1) as (_ & _ & Hc).
  unfold _flush.
  destruct (currentBatch this1) as [|c cb] eqn:Ecb.
  - cbn. now rewrite app_nil_r, <- Hc, app_nil_r.
  - replace (Z.gtb (Z.of_nat (List.length (c :: cb))) 0) with true
      by (symmetry; apply Z.gtb_lt; cbn [List.length]; lia).
    rewrite concat_app. cbn [List.concat]. now rewrite app_nil_r.
Qed.

Lemma emitted_validOnly (opt_b : option Z) (opt_v : option bool)
    (chunks : list ValidatedRecord) :
  validOnly (constructor (mkOptions opt_b opt_v)) = true ->
  List.concat (emitted chunks (constructor (mkOptions opt_b opt_v)))
  = filter Transformer.valid chunks
  /\ Forall (Forall (fun r => Transformer.valid r = true))
       (emitted chunks (constructor (mkOptions opt_b opt_v))).
Proof.
  intro Hv.
  assert (Hc : List.concat (emitted chunks (constructor (mkOptions opt_b opt_v)))
               = filter Transformer.valid chunks).
  { rewrite emitted_concat, Hv, keeps_true_valid. reflexivity. }
  split; [exact Hc|].
  apply Forall_concat. rewrite Hc.
  apply Forall_forall. intros r Hr. now apply filter_In in Hr.
Qed.

End BatchTransformerRuns.

(** C6.  With [validOnly] set (explicitly, as the pipeline does, or by
    default), the batches pushed during a run, laid end to end in emission
    order, are exactly the valid input records in arrival order; hence every
    valid record is in one batch, none is repeated or moved, and no batch
    holds an invalid record. *)
Theorem batches_are_the_valid_records :
  forall (opt_b : option Z) (chunks : list Transformer.ValidatedRecord),
    (List.concat
       (Transformer.BatchTransformer.emitted chunks
          (Transformer.BatchTransformer.constructor
             (Transformer.BatchTransformer.mkOptions opt_b (Some true))))
     = filter Transformer.valid chunks
     /\ Forall (Forall (fun r => Transformer.valid r = true))
          (Transformer.BatchTransformer.emitted chunks
             (Transformer.BatchTransformer.constructor
                (Transformer.BatchTransformer.mkOptions opt_b (Some true)))))
    /\ (List.concat
          (Transformer.BatchTransformer.emitted chunks
             (Transformer.BatchTransformer.constructor
                (Transformer.BatchTransformer.mkOptions opt_b None)))
        = filter Transformer.valid chunks
        /\ Forall (Forall (fun r => Transformer.valid r = true))
             (Transformer.BatchTransformer.emitted chunks
                (Transformer.BatchTransformer.constructor
                   (Transformer.BatchTransformer.mkOptions opt_b None)))).
Proof.
  intros opt_b chunks. split; apply emitted_validOnly; reflexivity.
Qed.

(** C5.  For a capacity [B] of at least one, every batch pushed by
    [_transform] (before end of input) has exactly [B] records, and every
    batch of the run, the one from [_flush] included, has between [1] and
    [B] records. *)
Theorem batch_lengths_within_capacity :
  forall (options : Transformer.BatchTransformer.Options)
         (chunks : list Transformer.ValidatedRecord),
    1 <= Transformer.BatchTransformer.batchSize
           (Transformer.BatchTransformer.constructor options) ->
    match Transformer.BatchTransformer.run chunks
            (Transformer.BatchTransformer.constructor options) with
    | (_, out1, out2) =>
        Forall (fun b => Z.of_nat (List.length b)
                         = Transformer.BatchTransformer.batchSize
                             (Transformer.BatchTransformer.constructor options))
          out1
        /\ Forall (fun b => 1 <= Z.of_nat (List.length b)
                            <= Transformer.BatchTransformer.batchSize
                                 (Transformer.BatchTransformer.constructor options))
             (out1 ++ out2)
    end.
Proof.
  intros options chunks HB.
  destruct (Transformer.BatchTransformer.run chunks
              (Transformer.BatchTransformer.constructor options))
    as [[this' out1] out2] eqn:E.
  destruct (run_shape options chunks HB E) as (F1 & _ & _ & H2).
  split; [exact F1|].
  apply Forall_app. split.
  - eapply Forall_impl; [|exact F1]. cbn beta. intros b Hb.
    rewrite Hb. split; [exact HB | apply Z.le_refl].
  - destruct H2 as [[_ ->] | (Hne & b & -> & Hb)]; [constructor|].
    constructor; [|constructor]. rewrite Hb.
    set (B := Transformer.BatchTransformer.batchSize _) in *.
    set (V := Z.of_nat _) in *.
    assert (Hm : 0 <= V mod B < B) by (apply Z.mod_pos_bound; lia).
    lia.
Qed.

Lemma batch_lengths_within_capacity_witness :
  let chunks :=
    [Transformer.mkRecord (VPrim PNull) true [];
     Transformer.mkRecord (VPrim PNull) false [];
     Transformer.mkRecord (VPrim PNull) true [];
     Transformer.mkRecord (VPrim PNull) true []] in
  let options := Transformer.BatchTransformer.mkOptions (Some 2) None in
  1 <= Transformer.BatchTransformer.batchSize
         (Transformer.BatchTransformer.constructor options)
  /\ match Transformer.BatchTransformer.run chunks
             (Transformer.BatchTransformer.constructor options) with
     | (_, out1, out2) =>
         Forall (fun b => Z.of_nat (List.length b) = 2) out1
         /\ Forall (fun b => 1 <= Z.of_nat (List.length b) <= 2) (out1 ++ out2)
     end.
Proof.
  intros chunks options.
  assert (HB : 1 <= Transformer.BatchTransformer.batchSize
                      (Transformer.BatchTransformer.constructor options))
    by (vm_compute; discriminate).
  split; [exact HB|].
  exact (batch_lengths_within_capacity options chunks HB).
Defined.

(** C4.  For a capacity [B >= 1] and [V >= 1] admitted records (with
    [validOnly], the valid ones): the last batch of the run has
    [V mod B] records when that is not zero and [B] otherwise; [_transform]
    pushed [V / B] batches, all full; [_flush] pushed the unfinished batch as
    one more batch exactly when [V mod B] is not zero, and left
    [currentBatch] empty, so that flushing again pushes nothing. *)
Theorem last_batch_length :
  forall (options : Transformer.BatchTransformer.Options)
         (chunks : list Transformer.ValidatedRecord),
    let this := Transformer.BatchTransformer.constructor options in
    let B := Transformer.BatchTransformer.batchSize this in
    let V := Z.of_nat (List.length (Transformer.BatchTransformer.admitted this chunks)) in
    1 <= B ->
    1 <= V ->
    match Transformer.BatchTransformer.run chunks this with
    | (this', out1, out2) =>
        Z.of_nat (List.length (last (out1 ++ out2) []))
        = (if Z.eqb (V mod B) 0 then B else V mod B)
        /\ Z.of_nat (List.length out1) = V / B
        /\ Forall (fun b => Z.of_nat (List.length b) = B) out1
        /\ (V mod B = 0 -> out2 = [])
        /\ (V mod B <> 0 ->
            exists b, out2 = [b] /\ Z.of_nat (List.length b) = V mod B)
        /\ snd (Transformer.BatchTransformer._flush this') = []
    end.
Proof.
  intros options chunks this B V HB HV.
  destruct (Transformer.BatchTransformer.run chunks this)
    as [[this' out1] out2] eqn:E.
  destruct (run_shape options chunks HB E) as (F1 & Hq & Hcb & H2).
  fold this in F1, Hq, H2. fold B in F1, Hq, H2. fold V in Hq, H2.
  assert (Hflush : snd (Transformer.BatchTransformer._flush this') = []).
  { unfold Transformer.BatchTransformer._flush. now rewrite Hcb. }
  destruct H2 as [[H0 ->] | (Hne & b & -> & Hb)].
  - rewrite H0, app_nil_r. cbn [Z.eqb].
    repeat split; auto; [|intro Hc; now elim Hc].
    assert (Hn : out1 <> []).
    { intros ->. change (0 = V / B) in Hq.
      assert (Hd : V = B * (V / B) + V mod B) by (apply Z.div_mod; lia).
      rewrite <- Hq, H0 in Hd. lia. }
    destruct (exists_last Hn) as (l & b & ->).
    rewrite last_last.
    apply Forall_app in F1. destruct F1 as [_ F1].
    now inversion F1.
  - rewrite last_last.
    destruct (Z.eqb_spec (V mod B) 0) as [Hz | _]; [contradiction|].
    repeat split; auto; [intro Hc; contradiction|].
    intros _. now exists b.
Qed.

Lemma last_batch_length_witness :
  let chunks :=
    [Transformer.mkRecord (VPrim PNull) true ["a"];
     Transformer.mkRecord (VPrim PNull) false ["b"];
     Transformer.mkRecord (VPrim PNull) true ["c"];
     Transformer.mkRecord (VPrim PNull) true ["d"]] in
  let options := Transformer.BatchTransformer.mkOptions (Some 2) (Some true) in
  let this := Transformer.BatchTransformer.constructor options in
  (1 <= Transformer.BatchTransformer.batchSize this
   /\ 1 <= Z.of_nat (List.length (Transformer.BatchTransformer.admitted this chunks)))
  /\ match Transformer.BatchTransformer.run chunks this with
     | (this', out1, out2) =>
         Z.of_nat (List.length (last (out1 ++ out2) [])) = 1
         /\ Z.of_nat (List.length out1) = 1
         /\ Forall (fun b => Z.of_nat (List.length b) = 2) out1
         /\ (1 = 0 -> out2 = [])
         /\ (1 <> 0 -> exists b, out2 = [b] /\ Z.of_nat (List.length b) = 1)
         /\ snd (Transformer.BatchTransformer._flush this') = []
     end.
Proof.
  intros chunks options this.
  assert (HB : 1 <= Transformer.BatchTransformer.batchSize this)
    by (vm_compute; discriminate).
  assert (HV : 1 <= Z.of_nat (List.length
                                (Transformer.BatchTransformer.admitted this chunks)))
    by (vm_compute; discriminate).
  split; [split; [exact HB | exact HV]|].
  exact (last_batch_length options chunks HB HV).
Defined.

(** ** The order on numbers

    The comparisons the sources make on numbers are those of binary64.
    Their order properties follow from the specification of the primitive
    operations ([ltb_spec], [leb_spec], [eqb_spec]). *)

Section NumberOrder.

Ltac fold_pos_compare :=
  repeat match goal with
    | |- context [PosDef.Pos.compare_cont Eq ?p ?q] =>
        change (PosDef.Pos.compare_cont Eq p q) with (Pos.compare p q)
    end.

Lemma SFcompare_antisym (a b : spec_float) :
  SFcompare b a = option_map CompOpp (SFcompare a b).
Proof.
  destruct a as [s1|s1| |s1 m1 e1], b as [s2|s2| |s2 m2 e2];
    try destruct s1; try destruct s2; simpl; try reflexivity;
    rewrite (Z.compare_antisym e1 e2);
    destruct (e1 ?= e2)%Z; simpl; try reflexivity;
    fold_pos_compare;
    rewrite (Pos.compare_antisym m1 m2);
    try reflexivity; now rewrite CompOpp_involutive.
Qed.

Lemma SFleb_trans (a b c : spec_float) :
  SFleb a b = true -> SFleb b c = true -> SFleb a c = true.
Proof.
  unfold SFleb.
  destruct a as [s1|s1| |s1 m1 e1], b as [s2|s2| |s2 m2 e2], c as [s3|s3| |s3 m3 e3];
    try destruct s1; try destruct s2; try destruct s3; simpl;
    try reflexivity; try discriminate;
    fold_pos_compare;
    destruct (Z.compare_spec e1 e2), (Z.compare_spec e2 e3), (Z.compare_spec e1 e3);
    try lia; simpl; try reflexivity; try discriminate; subst;
    destruct (Pos.compare_spec m1 m2), (Pos.compare_spec m2 m3), (Pos.compare_spec m1 m3);
    simpl; try reflexivity; try discriminate; try lia.
Qed.

Lemma SFleb_total (a b : spec_float) :
  a <> S754_nan -> b <> S754_nan -> SFltb a b = false -> SFleb b a = true.
Proof.
  intros Ha Hb. unfold SFltb, SFleb. rewrite (SFcompare_antisym a b).
  destruct a as [s1|s1| |s1 m1 e1], b as [s2|s2| |s2 m2 e2]; try congruence;
  destruct (SFcompare _ _) as [[]|] eqn:E; simpl; try congruence; try discriminate E.
  all: try (destruct s1; discriminate E).
  all: try (destruct s2; discriminate E).
  all: try (destruct s1, s2; discriminate E).
Qed.

Lemma SFleb_refl (a : spec_float) : a <> S754_nan -> SFleb a a = true.
Proof.
  intro Ha. unfold SFleb.
  destruct a as [s|s| |s m e]; try congruence; try destruct s; simpl; try reflexivity;
    rewrite Z.compare_refl; fold_pos_compare; now rewrite Pos.compare_refl.
Qed.

Lemma not_nan_spec (x : float) :
  PrimFloat.is_nan x = false -> Prim2SF x <> S754_nan.
Proof.
  unfold PrimFloat.is_nan. rewrite eqb_spec. unfold SFeqb.
  intros Hx E. rewrite E in Hx. discriminate.
Qed.

(** [a <= b] excludes [b < a]. *)
Lemma number_leb_not_ltb (a b : float) :
  PrimFloat.leb a b = true -> PrimFloat.ltb b a = false.
Proof.
  rewrite leb_spec, ltb_spec. unfold SFleb, SFltb.
  rewrite (SFcompare_antisym (Prim2SF a) (Prim2SF b)).
  destruct (SFcompare (Prim2SF a) (Prim2SF b)) as [[]|]; simpl; congruence.
Qed.

Lemma number_ltb_leb (a b : float) :
  PrimFloat.ltb a b = true -> PrimFloat.leb a b = true.
Proof.
  rewrite leb_spec, ltb_spec. unfold SFleb, SFltb.
  destruct (SFcompare (Prim2SF a) (Prim2SF b)) as [[]|]; simpl; congruence.
Qed.

Lemma number_leb_trans (a b c : float) :
  PrimFloat.leb a b = true -> PrimFloat.leb b c = true -> PrimFloat.leb a c = true.
Proof. rewrite !leb_spec. apply SFleb_trans. Qed.

Lemma number_leb_refl (a : float) :
  PrimFloat.is_nan a = false -> PrimFloat.leb a a = true.
Proof. intro Ha. rewrite leb_spec. apply SFleb_refl. now apply not_nan_spec. Qed.

(** Among numbers that are not NaN, [not (a < b)] is [b <= a]. *)
Lemma number_not_ltb_leb (a b : float) :
  PrimFloat.is_nan a = false -> PrimFloat.is_nan b = false ->
  PrimFloat.ltb a b = false -> PrimFloat.leb b a = true.
Proof.
  intros Ha Hb. rewrite leb_spec, ltb_spec.
  apply SFleb_total; now apply not_nan_spec.
Qed.

End NumberOrder.

(** ** MemoryMonitor: the throttling flag *)

Section ThrottlingFacts.

Import MemoryMonitor.

(** [_onMemoryUpdate] changes nothing but [throttling]. *)
Lemma onMemoryUpdate_frame (memoryInfo : MemoryGraph.MemoryInfo) (this : t) :
  options (fst (_onMemoryUpdate memoryInfo this)) = options this
  /\ memoryGraph (fst (_onMemoryUpdate memoryInfo this)) = memoryGraph this
  /\ running (fst (_onMemoryUpdate memoryInfo this)) = running this.
Proof.
  unfold _onMemoryUpdate.
  destruct (PrimFloat.ltb _ _);
    [destruct (negb (throttling this) && autoThrottle (options this))
    |destruct (throttling this && _)]; simpl; auto.
Qed.

End ThrottlingFacts.

Section ThrottlingTransitions.

(** The transitions of the flag under one [_onMemoryUpdate]. *)
Lemma onMemoryUpdate_transitions :
  forall (this : MemoryMonitor.t) (memoryInfo : MemoryGraph.MemoryInfo),
      let u := MemoryGraph.heap_used memoryInfo in
      let T := MemoryMonitor.thresholdMB (MemoryMonitor.options this) in
      let this' := fst (MemoryMonitor._onMemoryUpdate memoryInfo this) in
      (MemoryMonitor.autoThrottle (MemoryMonitor.options this) = true ->
       MemoryMonitor.isThrottling this = false ->
       PrimFloat.ltb T u = true ->
       MemoryMonitor.isThrottling this' = true)
      /\ (MemoryMonitor.isThrottling this = true ->
          PrimFloat.leb (PrimFloat.mul T 0.8%float) u = true ->
          PrimFloat.leb u T = true ->
          MemoryMonitor.isThrottling this' = true)
      /\ (MemoryMonitor.isThrottling this = true ->
          PrimFloat.ltb u (PrimFloat.mul T 0.8%float) = false ->
          MemoryMonitor.isThrottling this' = true)
      /\ (MemoryMonitor.isThrottling this = true ->
          MemoryMonitor.isThrottling this' = false ->
          PrimFloat.ltb u (PrimFloat.mul T 0.8%float) = true)
      /\ (MemoryMonitor.isThrottling this = false ->
          MemoryMonitor.isThrottling this' = true ->
          PrimFloat.ltb T u = true).
Proof.
  intros this memoryInfo u T this'.
  assert (Hon : MemoryMonitor.isThrottling this = true ->
                PrimFloat.ltb u (PrimFloat.mul T 0.8%float) = false ->
                MemoryMonitor.isThrottling this' = true).
  { unfold this', MemoryMonitor.isThrottling, MemoryMonitor._onMemoryUpdate.
    fold u. fold T. intros Hth Hlow. rewrite Hth, Hlow.
    destruct (PrimFloat.ltb T u); simpl; exact Hth. }
  split; [|split; [|split; [|split]]].
  - unfold this', MemoryMonitor.isThrottling, MemoryMonitor._onMemoryUpdate.
    fold u. fold T. intros Hauto Hth Habove. now rewrite Habove, Hth, Hauto.
  - intros Hth Hlow _. apply Hon; [exact Hth|].
    now apply number_leb_not_ltb.
  - exact Hon.
  - unfold this', MemoryMonitor.isThrottling, MemoryMonitor._onMemoryUpdate.
    fold u. fold T. intros Hth. rewrite Hth.
    destruct (PrimFloat.ltb T u); simpl; [congruence|].
    destruct (PrimFloat.ltb u (PrimFloat.mul T 0.8%float)); simpl; congruence.
  - unfold this', MemoryMonitor.isThrottling, MemoryMonitor._onMemoryUpdate.
    fold u. fold T. intros Hth. rewrite Hth.
    destruct (PrimFloat.ltb T u); simpl; congruence.
Qed.

(** A sample that is not above the threshold and is below 0.8 times it
    releases the flag, and one that is not above the threshold leaves a flag
    that is off as it is. *)
Lemma onMemoryUpdate_release :
  forall (this : MemoryMonitor.t) (memoryInfo : MemoryGraph.MemoryInfo),
      let u := MemoryGraph.heap_used memoryInfo in
      let T := MemoryMonitor.thresholdMB (MemoryMonitor.options this) in
      let this' := fst (MemoryMonitor._onMemoryUpdate memoryInfo this) in
      (MemoryMonitor.isThrottling this = true ->
       PrimFloat.ltb T u = false ->
       PrimFloat.ltb u (PrimFloat.mul T 0.8%float) = true ->
       MemoryMonitor.isThrottling this' = false)
      /\ (MemoryMonitor.isThrottling this = false ->
          PrimFloat.ltb T u = false ->
          MemoryMonitor.isThrottling this' = false).
Proof.
  intros this memoryInfo u T this'.
  unfold this', MemoryMonitor.isThrottling, MemoryMonitor._onMemoryUpdate.
  fold u. fold T. split.
  - intros Hth Habove Hbelow. now rewrite Habove, Hth, Hbelow.
  - intros Hth Habove. now rewrite Habove, Hth.
Qed.

(** Below 80 is not above 100. *)
Lemma below_80_not_above_100 (u : float) :
  PrimFloat.ltb u 80%float = true -> PrimFloat.ltb 100%float u = false.
Proof.
  intro Hbelow.
  destruct (PrimFloat.ltb 100%float u) eqn:Habove; [|reflexivity].
  pose proof (number_leb_trans (number_ltb_leb Habove) (number_ltb_leb Hbelow))
    as Hle.
  vm_compute in Hle. discriminate Hle.
Qed.

End ThrottlingTransitions.

(** C3.  With [autoThrottle] set and threshold [T]: while the flag is off,
    a sample above [T] turns it on; while it is on, a sample from
    [T * 0.8] up to [T] leaves it on (as does any sample that is not below
    [T * 0.8]); the flag goes from on to off only on a sample below
    [T * 0.8], and from off to on only on a sample above [T].  Conversely a
    sample below [T * 0.8] (and not above [T], which the code tests first)
    turns a flag that is on off, and a sample that is not above [T] leaves
    a flag that is off off.  For [T = 100] the product [T * 0.8] is [80]:
    the flag turns on at 101, stays on at 90 and at 80, turns off at 79.99,
    turns off only on samples below 80, and turns off on every sample below
    80. *)
Theorem throttling_hysteresis :
  (forall (this : MemoryMonitor.t) (memoryInfo : MemoryGraph.MemoryInfo),
      let u := MemoryGraph.heap_used memoryInfo in
      let T := MemoryMonitor.thresholdMB (MemoryMonitor.options this) in
      let this' := fst (MemoryMonitor._onMemoryUpdate memoryInfo this) in
      (MemoryMonitor.autoThrottle (MemoryMonitor.options this) = true ->
       MemoryMonitor.isThrottling this = false ->
       PrimFloat.ltb T u = true ->
       MemoryMonitor.isThrottling this' = true)
      /\ (MemoryMonitor.isThrottling this = true ->
          PrimFloat.leb (PrimFloat.mul T 0.8%float) u = true ->
          PrimFloat.leb u T = true ->
          MemoryMonitor.isThrottling this' = true)
      /\ (MemoryMonitor.isThrottling this = true ->
          PrimFloat.ltb u (PrimFloat.mul T 0.8%float) = false ->
          MemoryMonitor.isThrottling this' = true)
      /\ (MemoryMonitor.isThrottling this = true ->
          MemoryMonitor.isThrottling this' = false ->
          PrimFloat.ltb u (PrimFloat.mul T 0.8%float) = true)
      /\ (MemoryMonitor.isThrottling this = false ->
          MemoryMonitor.isThrottling this' = true ->
          PrimFloat.ltb T u = true)
      /\ (MemoryMonitor.isThrottling this = true ->
          PrimFloat.ltb T u = false ->
          PrimFloat.ltb u (PrimFloat.mul T 0.8%float) = true ->
          MemoryMonitor.isThrottling this' = false)
      /\ (MemoryMonitor.isThrottling this = false ->
          PrimFloat.ltb T u = false ->
          MemoryMonitor.isThrottling this' = false))
  /\ (let m0 := MemoryMonitor.start
                  (MemoryMonitor.constructor (Some 100%float) None 512%float) in
      let m1 := fst (MemoryMonitor._onMemoryUpdate (MemoryGraph.sample 101%float) m0) in
      let m2 := fst (MemoryMonitor._onMemoryUpdate (MemoryGraph.sample 90%float) m1) in
      let m3 := fst (MemoryMonitor._onMemoryUpdate (MemoryGraph.sample 80%float) m2) in
      let m4 := fst (MemoryMonitor._onMemoryUpdate (MemoryGraph.sample 79.99%float) m3) in
      MemoryMonitor.isThrottling m0 = false
      /\ MemoryMonitor.isThrottling m1 = true
      /\ MemoryMonitor.isThrottling m2 = true
      /\ MemoryMonitor.isThrottling m3 = true
      /\ MemoryMonitor.isThrottling m4 = false
      /\ (forall memoryInfo,
            MemoryMonitor.isThrottling
              (fst (MemoryMonitor._onMemoryUpdate memoryInfo m1)) = false ->
            PrimFloat.ltb (MemoryGraph.heap_used memoryInfo) 80%float = true)
      /\ (forall memoryInfo,
            PrimFloat.ltb (MemoryGraph.heap_used memoryInfo) 80%float = true ->
            MemoryMonitor.isThrottling
              (fst (MemoryMonitor._onMemoryUpdate memoryInfo m1)) = false)).
Proof.
  split.
  { intros this memoryInfo. cbv zeta.
    destruct (onMemoryUpdate_transitions this memoryInfo)
      as (Hup & Hstay & Hstay' & Hdown & Hrise).
    destruct (onMemoryUpdate_release this memoryInfo) as (Hrel & Hoff).
    split; [exact Hup|]. split; [exact Hstay|]. split; [exact Hstay'|].
    split; [exact Hdown|]. split; [exact Hrise|]. split; [exact Hrel | exact Hoff]. }
  cbv zeta.
  do 5 (split; [vm_compute; reflexivity|]).
  split.
  - intros memoryInfo Hoff.
    destruct (onMemoryUpdate_transitions
                (fst (MemoryMonitor._onMemoryUpdate (MemoryGraph.sample 101%float)
                        (MemoryMonitor.start
                           (MemoryMonitor.constructor (Some 100%float) None 512%float))))
                memoryInfo) as (_ & _ & _ & Hdown & _).
    apply (Hdown eq_refl Hoff).
  - intros memoryInfo Hbelow.
    destruct (onMemoryUpdate_release
                (fst (MemoryMonitor._onMemoryUpdate (MemoryGraph.sample 101%float)
                        (MemoryMonitor.start
                           (MemoryMonitor.constructor (Some 100%float) None 512%float))))
                memoryInfo) as (Hrel & _).
    apply (Hrel eq_refl); [exact (below_80_not_above_100 Hbelow) | exact Hbelow].
Qed.

(** ** MemoryGraph and the monitor's statistics *)

Section MemoryStatistics.

Import MemorySpec.

Lemma skipn_S_tl {A : Type} (d : nat) :
  forall l : list A, skipn (S d) l = tl (skipn d l).
Proof.
  induction d as [|d IH]; intros [|a l]; try reflexivity.
  change (skipn (S (S d)) (a :: l)) with (skipn (S d) l).
  change (skipn (S d) (a :: l)) with (skipn d l).
  apply IH.
Qed.

Lemma last_skipn {A : Type} (d : nat) (z : A) :
  forall l : list A, (d < List.length l)%nat -> last (skipn d l) z = last l z.
Proof.
  induction d as [|d IH]; intros [|a l] Hd; try reflexivity.
  cbn [List.length] in Hd.
  change (skipn (S d) (a :: l)) with (skipn d l).
  rewrite IH by lia.
  destruct l as [|b l]; [cbn [List.length] in Hd; lia | reflexivity].
Qed.

(** [push] then [shift] when too long keeps the most recent [k]. *)
Lemma update_collection_recent (k : nat) (xs : list float) (v : float) :
  (1 <= k)%nat ->
  MemoryGraph.update_collection (Z.of_nat k) (most_recent k xs) v
  = most_recent k (xs ++ [v]).
Proof.
  intro Hk. unfold MemoryGraph.update_collection, most_recent.
  rewrite !length_app, length_skipn. cbn [List.length].
  destruct (Nat.lt_ge_cases (List.length xs) k) as [Hlt | Hge].
  - replace (List.length xs - k)%nat with 0%nat by lia.
    replace (List.length xs + 1 - k)%nat with 0%nat by lia.
    cbn [skipn].
    replace (Z.gtb (Z.of_nat (List.length xs - 0 + 1)) (Z.of_nat k)) with false;
      [reflexivity|].
    symmetry. rewrite Z.gtb_ltb. apply Z.ltb_ge. lia.
  - replace (Z.gtb (Z.of_nat (List.length xs - (List.length xs - k) + 1)) (Z.of_nat k))
      with true by (symmetry; apply Z.gtb_lt; lia).
    replace (List.length xs + 1 - k)%nat with (S (List.length xs - k)) by lia.
    rewrite skipn_S_tl, skipn_app.
    replace (List.length xs - k - List.length xs)%nat with 0%nat by lia.
    reflexivity.
Qed.

Lemma most_recent_length {A : Type} (k : nat) (xs : list A) :
  (List.length (most_recent k xs) <= k)%nat.
Proof. unfold most_recent. rewrite length_skipn. lia. Qed.

Lemma running_maximum_snoc (xs : list float) (v : float) :
  running_maximum (xs ++ [v])
  = if PrimFloat.ltb (running_maximum xs) v then v else running_maximum xs.
Proof. unfold running_maximum. now rewrite fold_left_app. Qed.

Lemma capture_holds (seen : list float) (g : MemoryGraph.t)
    (u : MemoryGraph.MemoryUsage) :
  graph_holds seen g ->
  graph_holds (seen ++ [MemoryGraph._bytesToMB (MemoryGraph.mu_heapUsed u)])
    (fst (MemoryGraph._captureMemoryUsage u g)).
Proof.
  intros (Hn & Hr & Hd & Hm). unfold graph_holds, MemoryGraph._captureMemoryUsage.
  cbn [fst MemoryGraph.maxDataPoints MemoryGraph.running MemoryGraph.memoryData
         MemoryGraph.heapUsed MemoryGraph.maxMemoryUsed].
  repeat split; try assumption.
  - rewrite Hn, Hd. apply (@update_collection_recent 120%nat seen). lia.
  - now rewrite running_maximum_snoc, Hm.
Qed.

Lemma tick_holds (seen : list float) (m : MemoryMonitor.t)
    (u : MemoryGraph.MemoryUsage) :
  graph_holds seen (MemoryMonitor.memoryGraph m) ->
  graph_holds (seen ++ [MemoryGraph._bytesToMB (MemoryGraph.mu_heapUsed u)])
    (MemoryMonitor.memoryGraph (fst (MemoryMonitor.tick u m))).
Proof.
  intro Hg. pose proof (capture_holds u Hg) as Hc.
  destruct Hg as (_ & Hr & _). unfold MemoryMonitor.tick. rewrite Hr. cbn [negb].
  destruct (MemoryGraph._captureMemoryUsage u (MemoryMonitor.memoryGraph m))
    as [g info] eqn:E.
  cbn [fst] in Hc.
  destruct (MemoryMonitor.running m).
  - rewrite (proj1 (proj2 (onMemoryUpdate_frame info _))). exact Hc.
  - exact Hc.
Qed.

Lemma ticks_hold (usages : list MemoryGraph.MemoryUsage) :
  forall (seen : list float) (m : MemoryMonitor.t),
    graph_holds seen (MemoryMonitor.memoryGraph m) ->
    graph_holds
      (seen ++ map (fun u => MemoryGraph._bytesToMB (MemoryGraph.mu_heapUsed u)) usages)
      (MemoryMonitor.memoryGraph (MemoryMonitor.ticks usages m)).
Proof.
  induction usages as [|u usages IH]; intros seen m Hg.
  - cbn. now rewrite app_nil_r.
  - cbn [map]. change (MemoryMonitor.ticks (u :: usages) m)
      with (MemoryMonitor.ticks usages (fst (MemoryMonitor.tick u m))).
    replace (seen ++ MemoryGraph._bytesToMB (MemoryGraph.mu_heapUsed u)
                     :: map (fun u0 => MemoryGraph._bytesToMB (MemoryGraph.mu_heapUsed u0)) usages)
      with ((seen ++ [MemoryGraph._bytesToMB (MemoryGraph.mu_heapUsed u)])
              ++ map (fun u0 => MemoryGraph._bytesToMB (MemoryGraph.mu_heapUsed u0)) usages)
      by (now rewrite <- app_assoc).
    apply IH. now apply tick_holds.
Qed.

(** Without NaN among the readings, the running maximum bounds every
    reading from above and is the initial value or one of the readings. *)
Lemma fold_max_bounds (xs : list float) :
  forall m0 : float,
    PrimFloat.is_nan m0 = false ->
    Forall (fun x => PrimFloat.is_nan x = false) xs ->
    let r := fold_left (fun m x => if PrimFloat.ltb m x then x else m) xs m0 in
    PrimFloat.is_nan r = false
    /\ PrimFloat.leb m0 r = true
    /\ Forall (fun x => PrimFloat.leb x r = true) xs
    /\ In r (m0 :: xs).
Proof.
  induction xs as [|x xs IH]; intros m0 H0 Hxs; cbn [fold_left].
  - repeat split; [exact H0 | now apply number_leb_refl | constructor | now left].
  - inversion Hxs as [|? ? Hx Hxs']; subst.
    destruct (PrimFloat.ltb m0 x) eqn:Hlt.
    + destruct (IH x Hx Hxs') as (Hn & Hle & Hall & Hin).
      repeat split; [exact Hn | | | ].
      * eapply number_leb_trans; [apply number_ltb_leb; exact Hlt | exact Hle].
      * constructor; assumption.
      * right. exact Hin.
    + destruct (IH m0 H0 Hxs') as (Hn & Hle & Hall & Hin).
      repeat split; [exact Hn | exact Hle | | ].
      * constructor; [|exact Hall].
        eapply number_leb_trans; [|exact Hle].
        now apply number_not_ltb_leb.
      * destruct Hin as [Hin | Hin]; [now left | right; now right].
Qed.

End MemoryStatistics.

(** C9 (as the code has it).  After any sequence of timer firings on a
    started monitor, with [readings] the heap-used values of all samples
    since the start: the graph retains the most recent 120 of them (all of
    them when fewer); [max] is their running maximum from [0] over all of
    them, which without NaN readings bounds every reading and is [0] or one
    of them; [average] is the mean of the retained readings only; and
    [current] is the last reading. *)
Theorem monitor_statistics :
  forall (opt_thresholdMB : option float) (opt_autoThrottle : option bool)
         (env_thresholdMB : float) (usages : list MemoryGraph.MemoryUsage),
    let m := MemoryMonitor.ticks usages
               (MemoryMonitor.start
                  (MemoryMonitor.constructor opt_thresholdMB opt_autoThrottle
                     env_thresholdMB)) in
    let readings :=
      map (fun u => MemoryGraph._bytesToMB (MemoryGraph.mu_heapUsed u)) usages in
    MemoryGraph.heapUsed (MemoryGraph.memoryData (MemoryMonitor.memoryGraph m))
    = MemorySpec.most_recent 120 readings
    /\ (List.length
          (MemoryGraph.heapUsed (MemoryGraph.memoryData (MemoryMonitor.memoryGraph m)))
        <= 120)%nat
    /\ MemoryGraph.max (MemoryMonitor.getStats m) = MemorySpec.running_maximum readings
    /\ (Forall (fun x => PrimFloat.is_nan x = false) readings ->
        Forall (fun x => PrimFloat.leb x (MemoryGraph.max (MemoryMonitor.getStats m)) = true)
          readings
        /\ In (MemoryGraph.max (MemoryMonitor.getStats m)) (0%float :: readings))
    /\ (usages <> [] ->
        MemoryGraph.average (MemoryMonitor.getStats m)
        = MemorySpec.mean (MemorySpec.most_recent 120 readings)
        /\ MemoryGraph.current (MemoryMonitor.getStats m) = last readings 0%float).
Proof.
  intros opt_t opt_a env usages m readings.
  assert (H0 : MemorySpec.graph_holds []
                 (MemoryMonitor.memoryGraph
                    (MemoryMonitor.start (MemoryMonitor.constructor opt_t opt_a env)))).
  { repeat split. }
  pose proof (@ticks_hold usages [] _ H0) as (Hn & Hr & Hd & Hm).
  cbn [app] in Hd, Hm. fold readings in Hd, Hm. fold m in Hn, Hr, Hd, Hm.
  assert (Hlen : (List.length readings = List.length usages)%nat)
    by apply length_map.
  assert (Hmax : MemoryGraph.max (MemoryMonitor.getStats m)
                 = MemorySpec.running_maximum readings).
  { unfold MemoryMonitor.getStats, MemoryGraph.getStats. rewrite Hd.
    destruct (Nat.eqb_spec
                (List.length (MemorySpec.most_recent 120 readings)) 0) as [Hz | Hz].
    - cbn [MemoryGraph.max].
      unfold MemorySpec.most_recent in Hz. rewrite length_skipn in Hz.
      assert (Hr0 : readings = []) by (apply length_zero_iff_nil; lia).
      now rewrite Hr0.
    - exact Hm. }
  split; [exact Hd|].
  split; [rewrite Hd; apply most_recent_length|].
  split; [exact Hmax|].
  split.
  - intro Hnan. rewrite Hmax.
    destruct (@fold_max_bounds readings 0%float eq_refl Hnan) as (_ & _ & Hall & Hin).
    split; [exact Hall | exact Hin].
  - intro Hne.
    assert (Hpos : (0 < List.length readings)%nat).
    { rewrite Hlen. destruct usages; [now elim Hne | cbn; lia]. }
    unfold MemoryMonitor.getStats, MemoryGraph.getStats. rewrite Hd.
    destruct (Nat.eqb_spec
                (List.length (MemorySpec.most_recent 120 readings)) 0) as [Hz | Hz].
    + unfold MemorySpec.most_recent in Hz. rewrite length_skipn in Hz. lia.
    + cbn [MemoryGraph.average MemoryGraph.current]. split; [reflexivity|].
      unfold MemorySpec.most_recent. apply last_skipn. lia.
Qed.

(** C9 as stated fails: 121 samples, the first of 122 MB and then 120 of
    1 MB.  All 121 were taken since the start and their mean is 2, but
    [average] is 1, the mean of the 120 retained; [max] is 122, a reading
    no longer retained. *)
Lemma average_is_over_the_retained_window :
  let usage (mb : float) :=
    MemoryGraph.mkUsage (PrimFloat.mul mb 1048576%float) (PrimFloat.mul mb 1048576%float)
      (PrimFloat.mul mb 1048576%float) 0%float in
  let usages := usage 122%float :: repeat (usage 1%float) 120 in
  let m := MemoryMonitor.ticks usages
             (MemoryMonitor.start (MemoryMonitor.constructor None None 512%float)) in
  let readings :=
    map (fun u => MemoryGraph._bytesToMB (MemoryGraph.mu_heapUsed u)) usages in
  List.length readings = 121%nat
  /\ MemorySpec.mean readings = 2%float
  /\ MemoryGraph.average (MemoryMonitor.getStats m) = 1%float
  /\ PrimFloat.eqb (MemoryGraph.average (MemoryMonitor.getStats m))
       (MemorySpec.mean readings) = false
  /\ MemoryGraph.max (MemoryMonitor.getStats m) = 122%float.
Proof.
  cbv zeta. repeat split; vm_compute; reflexivity.
Qed.

(** ** Employee model and DatabaseWriter *)

Section WriterFacts.
Context {W : Type} {D : Db.Driver W}.

Import Db Transformer DatabaseWriter.

(** One [Employee.insert] sends exactly its own statement to the pool. *)
Lemma insert_log (e : Value) (s : Session W) :
  log (fst (Employee.insert e s)) = log s ++ Employee.insert_events e.
Proof.
  unfold Employee.insert, Employee.insert_events, Employee.destructure,
    Employee.bindable, query.
  destruct (Employee.destructurable e); [|now rewrite app_nil_r].
  destruct (Employee.stringifiable e); cbn [negb andb]; [|now rewrite app_nil_r].
  destruct (pool_query (INSERT [e]) (world s)) as [w [[|id ids] | err]]; cbn.
  - reflexivity.
  - reflexivity.
  - destruct (Employee.is_unique_violation err); reflexivity.
Qed.

(** One turn of the fallback loop counts its record once, as a success or
    as a failure, and sends its statement. *)
Lemma fallback_one_effect (st : Stats) (s : Session W) (e : Value) :
  let st' := fst (fallback_one (st, s) e) in
  let s' := snd (fallback_one (st, s) e) in
  totalProcessed st' = totalProcessed st
  /\ successfulInserts st' + failedInserts st'
     = successfulInserts st + failedInserts st + 1
  /\ successfulInserts st <= successfulInserts st'
  /\ failedInserts st <= failedInserts st'
  /\ log s' = log s ++ Employee.insert_events e.
Proof.
  cbv zeta. pose proof (insert_log e s) as Hlog.
  unfold fallback_one.
  destruct (Employee.insert e s) as [s1 [[row|]|err]]; cbn in *;
    repeat split; try lia; exact Hlog.
Qed.

Lemma fallback_effect (es : list Value) :
  forall (st : Stats) (s : Session W),
    let st' := fst (fold_left fallback_one es (st, s)) in
    let s' := snd (fold_left fallback_one es (st, s)) in
    totalProcessed st' = totalProcessed st
    /\ successfulInserts st' + failedInserts st'
       = successfulInserts st + failedInserts st + Z.of_nat (List.length es)
    /\ successfulInserts st <= successfulInserts st'
    /\ failedInserts st <= failedInserts st'
    /\ log s' = log s ++ flat_map Employee.insert_events es.
Proof.
  induction es as [|e es IH]; intros st s; cbv zeta.
  - cbn. rewrite app_nil_r. repeat split; lia.
  - cbn [fold_left flat_map List.length].
    destruct (fallback_one (st, s) e) as [st1 s1] eqn:E1.
    pose proof (fallback_one_effect st s e) as H1. rewrite E1 in H1. cbn in H1.
    destruct H1 as (Ht1 & Hc1 & Hs1 & Hf1 & Hl1).
    destruct (IH st1 s1) as (Ht2 & Hc2 & Hs2 & Hf2 & Hl2).
    repeat split; try lia.
    rewrite Hl2, Hl1. now rewrite app_assoc.
Qed.

(** The calls a failed [batchInsert] has made: a refused [connect] and
    nothing else, or a transaction that was opened, got as far as [mid], was
    sent ROLLBACK and had its client released. *)
Lemma batchInsert_failure_log (es : list Value) (s s1 : Session W) (e : Error) :
  Employee.batchInsert es s = (s1, Throw e) ->
  es <> []
  /\ (log s1 = log s ++ [EConnect]
      \/ exists mid,
           (mid = [] \/ mid = [EClientQuery (INSERT es)]
            \/ mid = [EClientQuery (INSERT es); EClientQuery COMMIT])
           /\ log s1 = log s ++ [EConnect; EClientQuery BEGIN] ++ mid
                         ++ [EClientQuery ROLLBACK; ERelease]).
Proof.
  unfold Employee.batchInsert.
  destruct es as [|e0 es']; [discriminate|].
  set (es := e0 :: es'). cbn [List.length Nat.eqb].
  intro Hb. split; [discriminate|]. revert Hb.
  unfold getClient.
  destruct (pool_connect (world s)) as [w0 [[]|ec]]; cbn [log world].
  2:{ intros [= <- _]. now left. }
  unfold Employee.batchInsert_try, clientQuery, release. cbn [log world].
  destruct (client_query BEGIN w0) as [w1 [r1|e1]]; cbn [log world].
  - destruct (find _ es) as [bad|]; cbn [log world].
    + destruct (client_query ROLLBACK w1) as [w2 [r2|e2]]; cbn [log world];
        intros [= <- _]; right; exists []; cbn [log];
        (split; [now left | now rewrite <- !app_assoc]).
    + destruct (client_query (INSERT es) w1) as [w2 [r2|e2]]; cbn [log world].
      * destruct (client_query COMMIT w2) as [w3 [r3|e3]]; cbn [log world];
          [discriminate|].
        destruct (client_query ROLLBACK w3) as [w4 [r4|e4]]; cbn [log world];
          intros [= <- _]; right;
          exists [EClientQuery (INSERT es); EClientQuery COMMIT]; cbn [log];
          (split; [now right; right | now rewrite <- !app_assoc]).
      * destruct (client_query ROLLBACK w2) as [w3 [r3|e3]]; cbn [log world];
          intros [= <- _]; right;
          exists [EClientQuery (INSERT es)]; cbn [log];
          (split; [now right; left | now rewrite <- !app_assoc]).
  - destruct (client_query ROLLBACK w1) as [w2 [r2|e2]]; cbn [log world];
      intros [= <- _]; right; exists []; cbn [log];
      (split; [now left | now rewrite <- !app_assoc]).
Qed.

(** On a driver that returns a row per tuple, a [batchInsert] that returns
    has one id per employee. *)
Lemma batchInsert_ids (es : list Value) (s s1 : Session W) (ids : list Z) :
  returns_a_row_per_tuple D ->
  Employee.batchInsert es s = (s1, Ok ids) ->
  List.length ids = List.length es.
Proof.
  intro HD. unfold Employee.batchInsert.
  destruct es as [|e0 es']; [now intros [= _ <-]|].
  set (es := e0 :: es'). cbn [List.length Nat.eqb].
  unfold getClient.
  destruct (pool_connect (world s)) as [w0 [[]|ec]]; [|discriminate].
  unfold Employee.batchInsert_try, clientQuery, release. cbn [log world].
  destruct (client_query BEGIN w0) as [w1 [r1|e1]]; cbn [log world].
  - destruct (find _ es) as [bad|]; cbn [log world].
    + destruct (client_query ROLLBACK w1) as [w2 [r2|e2]]; discriminate.
    + destruct (client_query (INSERT es) w1) as [w2 [r2|e2]] eqn:Ei; cbn [log world].
      * destruct (client_query COMMIT w2) as [w3 [r3|e3]]; cbn [log world].
        -- intros [= _ <-]. exact (HD _ _ _ _ Ei).
        -- destruct (client_query ROLLBACK w3) as [w4 [r4|e4]]; discriminate.
      * destruct (client_query ROLLBACK w2) as [w3 [r3|e3]]; discriminate.
  - destruct (client_query ROLLBACK w1) as [w2 [r2|e2]]; discriminate.
Qed.

(** The counters after one [_write], on a driver that returns a row per
    tuple: every valid record of the chunk is counted once. *)
Lemma write_accounting (chunk : Chunk) (this : t) (s : Session W) :
  returns_a_row_per_tuple D ->
  forall this' s' r,
    _write chunk this s = (this', s', r) ->
    r = Ok tt
    /\ successfulInserts (stats this') + failedInserts (stats this')
       = successfulInserts (stats this) + failedInserts (stats this)
         + Z.of_nat (List.length (validEmployees (records_of chunk)))
    /\ successfulInserts (stats this) <= successfulInserts (stats this')
    /\ failedInserts (stats this) <= failedInserts (stats this').
Proof.
  intros HD this' s' r. unfold _write.
  destruct (Nat.eqb_spec (List.length (records_of chunk)) 0) as [Hz | Hz].
  - intros [= <- _ <-].
    apply length_zero_iff_nil in Hz. rewrite Hz. cbn. repeat split; lia.
  - destruct (Nat.eqb_spec (List.length (validEmployees (records_of chunk))) 0)
      as [Hv | Hv].
    + intros [= <- _ <-]. rewrite Hv. cbn. repeat split; lia.
    + destruct (Employee.batchInsert (validEmployees (records_of chunk)) s)
        as [s1 [ids | dbError]] eqn:Eb.
      * intros [= <- _ <-]. cbn.
        rewrite (batchInsert_ids _ _ HD Eb). repeat split; lia.
      * destruct (fold_left fallback_one (validEmployees (records_of chunk)) _)
          as [st2 s2] eqn:Ef.
        intros [= <- _ <-]. cbn [stats].
        match type of Ef with
        | fold_left _ _ (?st0, _) = _ =>
            pose proof (fallback_effect (validEmployees (records_of chunk)) st0 s1) as Hf
        end.
        rewrite Ef in Hf. cbn in Hf.
        destruct Hf as (_ & Hc & Hs & Hfl & _).
        repeat split; lia.
Qed.

End WriterFacts.

Section FallbackFacts.
Context {W : Type} {D : Db.Driver W}.

Import Db Transformer DatabaseWriter.

(** How one turn of the fallback loop classifies the answer of the pool. *)
Lemma fallback_one_classifies (st : Stats) (s0 : Session W) (e : Value) :
  Employee.bindable e = true ->
  let st' := fst (fallback_one (st, s0) e) in
  match snd (pool_query (INSERT [e]) (world s0)) with
  | Ok (_ :: _) =>
      successfulInserts st' = successfulInserts st + 1
      /\ failedInserts st' = failedInserts st
      /\ errors st' = errors st
  | Ok [] =>
      successfulInserts st' = successfulInserts st
      /\ failedInserts st' = failedInserts st + 1
  | Throw error =>
      successfulInserts st' = successfulInserts st
      /\ failedInserts st' = failedInserts st + 1
      /\ errors st'
         = errors st
           ++ [(Some e,
                if Employee.is_unique_violation error
                then duplicate_message else err_message error)]
  end.
Proof.
  intro He. cbv zeta.
  apply andb_prop in He. destruct He as [Hd Hs].
  unfold fallback_one, Employee.insert, Employee.destructure, query.
  rewrite Hd, Hs. cbn [negb].
  destruct (pool_query (INSERT [e]) (world s0)) as [w [[|id ids] | err]]; cbn.
  - auto.
  - auto.
  - destruct (Employee.is_unique_violation err); cbn; auto.
Qed.

End FallbackFacts.

Section BatchInsertOutcomes.
Context {W : Type} {D : Db.Driver W}.

Import Db.

(** [Employee.batchInsert] on a list that is not empty, by the answers of
    the store: each call is made on the store the call before it left.
    [rolled_back w error sent] is the [catch] and [finally] after the client
    queries [sent], on the store [w]: ROLLBACK, the release, and the error
    rethrown, which is ROLLBACK's own when ROLLBACK is rejected. *)
Lemma batchInsert_by_outcome (es : list Value) (s : Session W) :
  es <> [] ->
  let connect := pool_connect (world s) in
  let begin := client_query BEGIN (fst connect) in
  let insert := client_query (INSERT es) (fst begin) in
  let commit := client_query COMMIT (fst insert) in
  let rolled_back (w : W) (error : Error) (sent : list Sql) :=
    (mkSession (client_release (fst (client_query ROLLBACK w)))
       (log s ++ EConnect :: map EClientQuery (sent ++ [ROLLBACK]) ++ [ERelease]),
     match snd (client_query ROLLBACK w) with
     | Throw e2 => Throw e2
     | Ok _ => @Throw (list Z) error
     end) in
  Employee.batchInsert es s
  = match snd connect with
    | Throw e => (mkSession (fst connect) (log s ++ [EConnect]), Throw e)
    | Ok _ =>
        match snd begin with
        | Throw e => rolled_back (fst begin) e [BEGIN]
        | Ok _ =>
            match find (fun e => negb (Employee.bindable e)) es with
            | Some bad => rolled_back (fst begin) (Employee.bind_error bad) [BEGIN]
            | None =>
                match snd insert with
                | Throw e => rolled_back (fst insert) e [BEGIN; INSERT es]
                | Ok ids =>
                    match snd commit with
                    | Throw e =>
                        rolled_back (fst commit) e [BEGIN; INSERT es; COMMIT]
                    | Ok _ =>
                        (mkSession (client_release (fst commit))
                           (log s ++ EConnect
                                     :: map EClientQuery [BEGIN; INSERT es; COMMIT]
                                     ++ [ERelease]),
                         Ok ids)
                    end
                end
            end
        end
    end.
Proof.
  intro Hne. cbv zeta. unfold Employee.batchInsert.
  destruct es as [|e0 es']; [now elim Hne|].
  set (es := e0 :: es'). cbn [List.length Nat.eqb].
  unfold getClient.
  destruct (pool_connect (world s)) as [w0 [[]|ec]]; cbn [fst snd log world];
    [|reflexivity].
  unfold Employee.batchInsert_try, clientQuery, release. cbn [log world].
  destruct (client_query BEGIN w0) as [w1 [r1|e1]]; cbn [fst snd log world].
  - destruct (find _ es) as [bad|]; cbn [fst snd log world].
    + destruct (client_query ROLLBACK w1) as [w2 [r2|e2]]; cbn [fst snd log world map app];
        now rewrite <- !app_assoc.
    + destruct (client_query (INSERT es) w1) as [w2 [r2|e2]]; cbn [fst snd log world].
      * destruct (client_query COMMIT w2) as [w3 [r3|e3]]; cbn [fst snd log world].
        -- cbn [map app]. now rewrite <- !app_assoc.
        -- destruct (client_query ROLLBACK w3) as [w4 [r4|e4]];
             cbn [fst snd log world map app]; now rewrite <- !app_assoc.
      * destruct (client_query ROLLBACK w2) as [w3 [r3|e3]];
          cbn [fst snd log world map app]; now rewrite <- !app_assoc.
  - destruct (client_query ROLLBACK w1) as [w2 [r2|e2]]; cbn [fst snd log world map app];
      now rewrite <- !app_assoc.
Qed.

(** A failed [batchInsert], by the answer to [connect]: refused, the only
    call is the [connect] and its error is the failure; granted, the
    transaction was opened, got as far as [mid], was sent ROLLBACK, and the
    client was released. *)
Lemma batchInsert_failure_by_connect (es : list Value) (s s1 : Session W) (e : Error) :
  Employee.batchInsert es s = (s1, Throw e) ->
  match snd (pool_connect (world s)) with
  | Throw ec => e = ec /\ log s1 = log s ++ [EConnect]
  | Ok _ =>
      exists mid,
        (mid = [] \/ mid = [EClientQuery (INSERT es)]
         \/ mid = [EClientQuery (INSERT es); EClientQuery COMMIT])
        /\ log s1 = log s ++ [EConnect; EClientQuery BEGIN] ++ mid
                      ++ [EClientQuery ROLLBACK; ERelease]
  end.
Proof.
  intro Hb.
  assert (Hne : es <> []).
  { intros ->. cbn in Hb. discriminate Hb. }
  rewrite (batchInsert_by_outcome s Hne) in Hb. cbv zeta in Hb.
  destruct (snd (pool_connect (world s))) as [[]|ec].
  - destruct (snd (client_query BEGIN _)) as [r1|e1].
    + destruct (find _ es) as [bad|].
      * injection Hb as <- _. exists []. split; [now left | reflexivity].
      * destruct (snd (client_query (INSERT es) _)) as [ids|e2].
        -- destruct (snd (client_query COMMIT _)) as [r3|e3]; [discriminate Hb|].
           injection Hb as <- _.
           exists [EClientQuery (INSERT es); EClientQuery COMMIT].
           split; [now right; right | reflexivity].
        -- injection Hb as <- _. exists [EClientQuery (INSERT es)].
           split; [now right; left | reflexivity].
    + injection Hb as <- _. exists []. split; [now left | reflexivity].
  - injection Hb as <- <-. split; reflexivity.
Qed.

End BatchInsertOutcomes.

(** C1 (as the code has it).  When [batchInsert] fails on the valid
    records of a chunk, [_write] still calls back without an error.  If the
    pool refused the client, the failure is that refusal, the [connect] is
    the only call made, no transaction was opened and nothing is rolled
    back; if the pool granted the client, the transaction was opened, and
    ROLLBACK was sent on the client and the client released, before
    anything else.
    In both cases the fallback then runs the loop body once per valid record,
    in order, each sending its own INSERT to the pool whatever happened to
    the earlier ones, and the two counters together grow by the number of
    valid records.  In the loop body a returned row adds one to
    [successfulInserts]; a rejection adds one to [failedInserts] and records
    the duplicate message when its code is 23505, its own message
    otherwise. *)
Theorem fallback_after_failed_batch :
  forall (W : Type) (D : Db.Driver W)
         (records : list Transformer.ValidatedRecord)
         (this : DatabaseWriter.t) (s s1 : Db.Session W) (dbError : Error),
    Employee.batchInsert (DatabaseWriter.validEmployees records) s
    = (s1, Throw dbError) ->
    match DatabaseWriter._write (DatabaseWriter.ChunkArray records) this s with
    | (this', s', r) =>
        r = Ok tt
        /\ match snd (Db.pool_connect (Db.world s)) with
           | Throw connectError =>
               dbError = connectError
               /\ Db.log s1 = Db.log s ++ [Db.EConnect]
           | Ok _ =>
               exists mid,
                 (mid = []
                  \/ mid = [Db.EClientQuery
                              (Db.INSERT (DatabaseWriter.validEmployees records))]
                  \/ mid = [Db.EClientQuery
                              (Db.INSERT (DatabaseWriter.validEmployees records));
                            Db.EClientQuery Db.COMMIT])
                 /\ Db.log s1
                    = Db.log s ++ [Db.EConnect; Db.EClientQuery Db.BEGIN] ++ mid
                        ++ [Db.EClientQuery Db.ROLLBACK; Db.ERelease]
           end
        /\ Db.log s' = Db.log s1
                       ++ flat_map Employee.insert_events
                            (DatabaseWriter.validEmployees records)
        /\ (DatabaseWriter.stats this', s')
           = fold_left DatabaseWriter.fallback_one
               (DatabaseWriter.validEmployees records)
               (DatabaseWriter.mkStats
                  (DatabaseWriter.totalProcessed (DatabaseWriter.stats this)
                   + Z.of_nat (List.length records))
                  (DatabaseWriter.successfulInserts (DatabaseWriter.stats this))
                  (DatabaseWriter.failedInserts (DatabaseWriter.stats this))
                  (DatabaseWriter.errors (DatabaseWriter.stats this)),
                s1)
        /\ DatabaseWriter.successfulInserts (DatabaseWriter.stats this')
           + DatabaseWriter.failedInserts (DatabaseWriter.stats this')
           = DatabaseWriter.successfulInserts (DatabaseWriter.stats this)
             + DatabaseWriter.failedInserts (DatabaseWriter.stats this)
             + Z.of_nat (List.length (DatabaseWriter.validEmployees records))
    end
    /\ (forall (st : DatabaseWriter.Stats) (s0 : Db.Session W) (e : Value),
          Employee.bindable e = true ->
          let st' := fst (DatabaseWriter.fallback_one (st, s0) e) in
          match snd (Db.pool_query (Db.INSERT [e]) (Db.world s0)) with
          | Ok (_ :: _) =>
              DatabaseWriter.successfulInserts st'
              = DatabaseWriter.successfulInserts st + 1
              /\ DatabaseWriter.failedInserts st' = DatabaseWriter.failedInserts st
              /\ DatabaseWriter.errors st' = DatabaseWriter.errors st
          | Ok [] =>
              DatabaseWriter.successfulInserts st' = DatabaseWriter.successfulInserts st
              /\ DatabaseWriter.failedInserts st' = DatabaseWriter.failedInserts st + 1
          | Throw error =>
              DatabaseWriter.successfulInserts st' = DatabaseWriter.successfulInserts st
              /\ DatabaseWriter.failedInserts st' = DatabaseWriter.failedInserts st + 1
              /\ DatabaseWriter.errors st'
                 = DatabaseWriter.errors st
                   ++ [(Some e,
                        if Employee.is_unique_violation error
                        then DatabaseWriter.duplicate_message
                        else err_message error)]
          end).
Proof.
  intros W D records this s s1 dbError Hb.
  split; [|intros st s0 e He; now apply fallback_one_classifies].
  destruct (batchInsert_failure_log _ _ Hb) as (Hne & _).
  pose proof (batchInsert_failure_by_connect _ _ Hb) as Hlog.
  unfold DatabaseWriter._write. cbn [DatabaseWriter.records_of].
  assert (Hrec : Nat.eqb (List.length records) 0 = false).
  { apply Nat.eqb_neq. intro Hz. apply length_zero_iff_nil in Hz.
    apply Hne. now rewrite Hz. }
  assert (Hval : Nat.eqb (List.length (DatabaseWriter.validEmployees records)) 0 = false).
  { apply Nat.eqb_neq. intro Hz. now apply length_zero_iff_nil in Hz. }
  rewrite Hrec, Hval, Hb.
  match goal with
  | |- context [fold_left _ _ (?st0, _)] =>
      pose proof (fallback_effect (DatabaseWriter.validEmployees records) st0 s1) as Hf;
      destruct (fold_left DatabaseWriter.fallback_one
                  (DatabaseWriter.validEmployees records) (st0, s1))
        as [st2 s2] eqn:Ef
  end.
  cbn in Hf. destruct Hf as (_ & Hc & _ & _ & Hl).
  cbn [DatabaseWriter.stats].
  split; [reflexivity|].
  split.
  { exact Hlog. }
  split; [exact Hl|].
  split; [reflexivity | exact Hc].
Qed.

Lemma fallback_after_failed_batch_witness :
  let records :=
    [Samples.valid_record Samples.ann;
     Transformer.mkRecord (of_record Samples.eve) false ["First name is required"];
     Samples.valid_record Samples.bob] in
  let s := Db.mkSession Samples.store_with_ann [] in
  let this := DatabaseWriter.constructor None 100 in
  let s1 := fst (@Employee.batchInsert _ MemStore.driver
                   (DatabaseWriter.validEmployees records) s) in
  @Employee.batchInsert _ MemStore.driver (DatabaseWriter.validEmployees records) s
  = (s1, Throw MemStore.unique_violation)
  /\ match @DatabaseWriter._write _ MemStore.driver
             (DatabaseWriter.ChunkArray records) this s with
     | (this', s', r) =>
         r = Ok tt
         /\ DatabaseWriter.successfulInserts (DatabaseWriter.stats this')
            + DatabaseWriter.failedInserts (DatabaseWriter.stats this')
            = 0 + 0 + 2
     end.
Proof.
  intros records s this s1.
  assert (Hb : @Employee.batchInsert _ MemStore.driver
                 (DatabaseWriter.validEmployees records) s
               = (s1, Throw MemStore.unique_violation))
    by (vm_compute; reflexivity).
  split; [exact Hb|].
  pose proof (fallback_after_failed_batch MemStore.driver records this s Hb)
    as [Hw _].
  destruct (@DatabaseWriter._write _ MemStore.driver
              (DatabaseWriter.ChunkArray records) this s) as [[this' s'] r].
  destruct Hw as (Hr & _ & _ & _ & Hc).
  split; [exact Hr | exact Hc].
Defined.

(** C1 as stated fails when the client cannot be obtained: [batchInsert]
    fails at [getClient], outside its [try], so no ROLLBACK is sent; the
    fallback still tries each valid record. *)
Lemma no_rollback_without_a_client :
  let records := [Samples.valid_record Samples.ann; Samples.valid_record Samples.bob] in
  let s := Db.mkSession Samples.store_offline [] in
  match @DatabaseWriter._write _ MemStore.driver
          (DatabaseWriter.ChunkArray records)
          (DatabaseWriter.constructor None 100) s with
  | (this', s', r) =>
      snd (@Employee.batchInsert _ MemStore.driver
             (DatabaseWriter.validEmployees records) s)
      = Throw MemStore.connection_error
      /\ Db.log s'
         = [Db.EConnect;
            Db.EPoolQuery (Db.INSERT [of_record Samples.ann]);
            Db.EPoolQuery (Db.INSERT [of_record Samples.bob])]
      /\ existsb (fun ev => match ev with
                            | Db.EClientQuery Db.ROLLBACK => true
                            | _ => false
                            end) (Db.log s') = false
      /\ DatabaseWriter.failedInserts (DatabaseWriter.stats this') = 2
      /\ r = Ok tt
  end.
Proof.
  cbv zeta. vm_compute. repeat split; reflexivity.
Qed.

(** ** The pipeline *)

Section PipelineFacts.
Context {W : Type} {D : Db.Driver W} {E : Engine}.

Import Db Transformer Pipeline.

Lemma count_valid_app (l1 l2 : list ValidatedRecord) :
  count_valid (l1 ++ l2) = count_valid l1 + count_valid l2.
Proof. unfold count_valid. rewrite filter_app, length_app. lia. Qed.

Lemma count_valid_cons (x : ValidatedRecord) (l : list ValidatedRecord) :
  count_valid (x :: l) = count_valid [x] + count_valid l.
Proof. apply (count_valid_app [x] l). Qed.

Lemma count_valid_nonneg (l : list ValidatedRecord) : 0 <= count_valid l.
Proof. unfold count_valid. lia. Qed.

Lemma count_valid_keeps (vo : bool) (x : ValidatedRecord) :
  count_valid (filter (BatchTransformer.keeps vo) [x]) = count_valid [x].
Proof.
  unfold count_valid, BatchTransformer.keeps. cbn.
  destruct vo, (Transformer.valid x) eqn:Hx; cbn; rewrite ?Hx; reflexivity.
Qed.

Lemma validEmployees_length (l : list ValidatedRecord) :
  Z.of_nat (List.length (DatabaseWriter.validEmployees l)) = count_valid l.
Proof. unfold DatabaseWriter.validEmployees, count_valid. now rewrite length_map. Qed.

(** [valid] grows by the number of valid records pushed. *)
Lemma transform_valid_count (chunk : Value) (this this' : EmployeeTransformer.t)
    (out : list ValidatedRecord) (r : Res unit) :
  EmployeeTransformer._transform chunk this = (this', out, r) ->
  EmployeeTransformer.valid (EmployeeTransformer.stats this')
  = EmployeeTransformer.valid (EmployeeTransformer.stats this) + count_valid out
  /\ (List.length out <= 1)%nat.
Proof.
  unfold EmployeeTransformer._transform.
  destruct (Validator.validateEmployee chunk) as [validation | e].
  - destruct (Validator.isValid validation); intros [= <- <- <-]; cbn; split; lia.
  - intros [= <- <- <-]; cbn; split; lia.
Qed.

Lemma batch_transform_count (chunk : ValidatedRecord) (this this' : BatchTransformer.t)
    (out : list BatchTransformer.Batch) :
  BatchTransformer._transform chunk this = (this', out) ->
  count_valid (List.concat out) + count_valid (BatchTransformer.currentBatch this')
  = count_valid (BatchTransformer.currentBatch this) + count_valid [chunk]
  /\ (List.length out <= 1)%nat.
Proof.
  intro Ht. destruct (transform_concat _ _ Ht) as (_ & _ & Hc).
  split.
  - rewrite <- count_valid_app, Hc, count_valid_app. now rewrite count_valid_keeps.
  - revert Ht. unfold BatchTransformer._transform.
    destruct (_ && _); [intros [= _ <-]; cbn; lia|].
    destruct (Z.geb _ _); intros [= _ <-]; cbn; lia.
Qed.

Lemma flush_count (this this' : BatchTransformer.t) (out : list BatchTransformer.Batch) :
  BatchTransformer._flush this = (this', out) ->
  count_valid (List.concat out) + count_valid (BatchTransformer.currentBatch this')
  = count_valid (BatchTransformer.currentBatch this)
  /\ (List.length out <= 1)%nat.
Proof.
  unfold BatchTransformer._flush.
  destruct (Z.gtb _ _); intros [= <- <-]; cbn; rewrite ?app_nil_r; split;
    try lia; unfold count_valid; cbn; lia.
Qed.

(** [_write] always calls back without an error. *)
Lemma write_ok (chunk : DatabaseWriter.Chunk) (this : DatabaseWriter.t) (s : Session W) :
  snd (DatabaseWriter._write chunk this s) = Ok tt.
Proof.
  unfold DatabaseWriter._write.
  destruct (Nat.eqb _ 0); [reflexivity|].
  destruct (Nat.eqb _ 0); [reflexivity|].
  destruct (Employee.batchInsert _ s) as [s1 [ids|err]]; [reflexivity|].
  destruct (fold_left _ _ _); reflexivity.
Qed.

Lemma step_drained (a : Action) (st st' : State W) :
  drained st -> step a st = Some st' -> drained st'.
Proof.
  unfold drained, step. intro Hd.
  destruct (failure st); [discriminate|].
  destruct a.
  - destruct (source st) eqn:Es; [discriminate|]. intros [= <-]. cbn.
    intro Hfl. destruct (Hd Hfl) as (H1 & _). discriminate H1.
  - destruct (to_transformer st) eqn:Et; [discriminate|].
    destruct (EmployeeTransformer._transform _ _) as [[et out] r].
    intros [= <-]. cbn.
    intro Hfl. destruct (Hd Hfl) as (_ & H2 & _). discriminate H2.
  - destruct (to_batcher st) eqn:Eb; [discriminate|].
    destruct (BatchTransformer._transform _ _) as [bt out].
    intros [= <-]. cbn.
    intro Hfl. destruct (Hd Hfl) as (_ & _ & H3 & _). discriminate H3.
  - destruct (source st), (to_transformer st), (to_batcher st), (flushed st);
      try discriminate.
    unfold BatchTransformer._flush.
    destruct (Z.gtb _ _) eqn:G; intros [= <-]; cbn; intros _;
      repeat split; try reflexivity.
    destruct (BatchTransformer.currentBatch (batchTransformer st));
      [reflexivity | discriminate G].
  - destruct (to_writer st); [discriminate|].
    destruct (DatabaseWriter._write _ _ _) as [[dw s] r].
    intros [= <-]. cbn. exact Hd.
Qed.

Lemma exec_drained (schedule : list Action) :
  forall st st' : State W,
    drained st -> exec schedule st = Some st' -> drained st'.
Proof.
  induction schedule as [|a schedule IH]; intros st st' Hd; cbn [exec].
  - now intros [= <-].
  - destruct (step a st) as [st1|] eqn:Es; [|discriminate].
    apply IH. exact (step_drained _ Hd Es).
Qed.

Lemma init_accounted (batchSize : Z) (rows : list RawRecord) (w : W) :
  accounted (init batchSize rows w).
Proof. unfold accounted. cbn. repeat split; lia. Qed.

Lemma step_accounted (a : Action) (st st' : State W) :
  returns_a_row_per_tuple D ->
  accounted st -> step a st = Some st' -> accounted st'.
Proof.
  intros HD (Heq & Hs & Hf). unfold step.
  destruct (failure st); [discriminate|].
  unfold accounted, storedRecords, failedRecords, validRecords in *.
  unfold DatabaseWriter.getStats, EmployeeTransformer.getStats in *.
  destruct a.
  - destruct (source st); [discriminate|]. intros [= <-]. cbn. auto.
  - destruct (to_transformer st) as [|chunk rest]; [discriminate|].
    destruct (EmployeeTransformer._transform chunk (employeeTransformer st))
      as [[et out] r] eqn:Et.
    intros [= <-]. cbn.
    destruct (transform_valid_count _ _ Et) as (Hv & _).
    rewrite count_valid_app, Hv. repeat split; lia.
  - destruct (to_batcher st) as [|chunk rest] eqn:Eb; [discriminate|].
    destruct (BatchTransformer._transform chunk (batchTransformer st))
      as [bt out] eqn:Et.
    intros [= <-]. cbn.
    destruct (batch_transform_count _ _ Et) as (Hc & _).
    rewrite count_valid_cons in Heq.
    rewrite concat_app, count_valid_app. repeat split; lia.
  - destruct (source st), (to_transformer st), (to_batcher st) eqn:Eb,
      (flushed st); try discriminate.
    destruct (BatchTransformer._flush (batchTransformer st)) as [bt out] eqn:Efl.
    intros [= <-]. cbn.
    destruct (flush_count _ Efl) as (Hc & _).
    rewrite concat_app, count_valid_app.
    change (count_valid []) with 0 in *. repeat split; lia.
  - destruct (to_writer st) as [|batch rest] eqn:Ew; [discriminate|].
    destruct (DatabaseWriter._write (DatabaseWriter.ChunkArray batch)
                (dbWriter st) (session st)) as [[dw s] r] eqn:Edw.
    intros [= <-]. cbn.
    destruct (write_accounting _ _ _ HD Edw) as (_ & Hc & Hs' & Hf').
    cbn [DatabaseWriter.records_of] in Hc. rewrite validEmployees_length in Hc.
    cbn [List.concat] in Heq. rewrite count_valid_app in Heq.
    repeat split; lia.
Qed.

Lemma exec_accounted (schedule : list Action) :
  returns_a_row_per_tuple D ->
  forall st st' : State W,
    accounted st -> exec schedule st = Some st' -> accounted st'.
Proof.
  intro HD. induction schedule as [|a schedule IH]; intros st st' Hacc; cbn.
  - now intros [= <-].
  - destruct (step a st) as [st1|] eqn:Es; [|discriminate].
    apply IH. exact (step_accounted _ HD Hacc Es).
Qed.

End PipelineFacts.

Section PipelineTermination.
Context {W : Type} {D : Db.Driver W} {E : Engine}.

Import Db Transformer Pipeline.

Lemma step_work_left (a : Action) (st st' : State W) :
  step a st = Some st' -> (work_left st' < work_left st)%nat.
Proof.
  unfold step, work_left.
  destruct (failure st); [discriminate|].
  destruct a.
  - destruct (source st); [discriminate|]. intros [= <-]. cbn.
    rewrite length_app. cbn. lia.
  - destruct (to_transformer st) as [|chunk rest]; [discriminate|].
    destruct (EmployeeTransformer._transform chunk (employeeTransformer st))
      as [[et out] r] eqn:Et.
    intros [= <-]. cbn.
    destruct (@transform_valid_count E _ _ _ _ _ Et) as (_ & Hl).
    rewrite length_app. lia.
  - destruct (to_batcher st) as [|chunk rest]; [discriminate|].
    destruct (BatchTransformer._transform chunk (batchTransformer st))
      as [bt out] eqn:Et.
    intros [= <-]. cbn.
    destruct (batch_transform_count _ _ Et) as (_ & Hl).
    rewrite length_app. lia.
  - destruct (source st), (to_transformer st), (to_batcher st), (flushed st);
      try discriminate.
    destruct (BatchTransformer._flush (batchTransformer st)) as [bt out] eqn:Efl.
    intros [= <-]. cbn.
    destruct (flush_count _ Efl) as (_ & Hl).
    rewrite length_app. lia.
  - destruct (to_writer st) as [|batch rest]; [discriminate|].
    destruct (DatabaseWriter._write (DatabaseWriter.ChunkArray batch)
                (dbWriter st) (session st)) as [[dw s] r].
    intros [= <-]. cbn. lia.
Qed.

Lemma step_parsed (a : Action) (st st' : State W) :
  parsed st -> step a st = Some st' -> parsed st' /\ failure st' = None.
Proof.
  unfold step, parsed.
  destruct (failure st); [discriminate|].
  intro Hp. destruct a.
  - destruct (source st) as [|row rest]; [discriminate|]. intros [= <-]. cbn.
    split; [|reflexivity]. apply Forall_app. split; [exact Hp|].
    constructor; [now exists row | constructor].
  - destruct (to_transformer st) as [|chunk rest]; [discriminate|].
    inversion Hp as [|? ? [row ->] Hrest]; subst.
    destruct (transform_of_record row (employeeTransformer st)) as (et & out & ->).
    intros [= <-]. cbn. split; [exact Hrest | reflexivity].
  - destruct (to_batcher st) as [|chunk rest]; [discriminate|].
    destruct (BatchTransformer._transform chunk (batchTransformer st)) as [bt out].
    intros [= <-]. cbn. split; [exact Hp | reflexivity].
  - destruct (source st), (to_transformer st), (to_batcher st), (flushed st);
      try discriminate.
    destruct (BatchTransformer._flush (batchTransformer st)) as [bt out].
    intros [= <-]. cbn. split; [constructor | reflexivity].
  - destruct (to_writer st) as [|batch rest]; [discriminate|].
    pose proof (write_ok (DatabaseWriter.ChunkArray batch) (dbWriter st) (session st))
      as Hok.
    destruct (DatabaseWriter._write (DatabaseWriter.ChunkArray batch)
                (dbWriter st) (session st)) as [[dw s] r].
    cbn in Hok. subst r.
    intros [= <-]. cbn. split; [exact Hp | reflexivity].
Qed.

(** While the run is not over and no stage has failed, some stage can act. *)
Lemma progress (st : State W) :
  failure st = None -> finished st = false ->
  exists a st', step a st = Some st'.
Proof.
  intros Hf Hfin. unfold finished in Hfin. rewrite Hf in Hfin.
  destruct (source st) as [|row rows] eqn:Es.
  2:{ exists Count. unfold step. rewrite Hf, Es. eauto. }
  destruct (to_transformer st) as [|chunk chunks] eqn:Et.
  2:{ exists Validate. unfold step. rewrite Hf, Et.
      destruct (EmployeeTransformer._transform chunk (employeeTransformer st))
        as [[et out] r]. eauto. }
  destruct (to_batcher st) as [|rec recs] eqn:Eb.
  2:{ exists Batch. unfold step. rewrite Hf, Eb.
      destruct (BatchTransformer._transform rec (batchTransformer st)) as [bt out].
      eauto. }
  destruct (flushed st) eqn:Efl.
  - destruct (to_writer st) as [|batch batches] eqn:Ew; [discriminate|].
    exists Write. unfold step. rewrite Hf, Ew.
    destruct (DatabaseWriter._write (DatabaseWriter.ChunkArray batch)
                (dbWriter st) (session st)) as [[dw s] r]. eauto.
  - exists Flush. unfold step. rewrite Hf, Es, Et, Eb, Efl.
    destruct (BatchTransformer._flush (batchTransformer st)) as [bt out]. eauto.
Qed.

(** A schedule never has more actions than the work that was left. *)
Lemma exec_length (schedule : list Action) :
  forall st st' : State W,
    exec schedule st = Some st' ->
    (List.length schedule + work_left st' <= work_left st)%nat.
Proof.
  induction schedule as [|a schedule IH]; intros st st'; cbn [exec List.length].
  - intros [= <-]. lia.
  - destruct (step a st) as [st1|] eqn:Es; [|discriminate].
    intro Hx. apply IH in Hx. apply step_work_left in Es. lia.
Qed.

(** From a state whose waiting chunks are parsed rows, the run can be
    carried to its end. *)
Lemma runs_to_completion (n : nat) :
  forall st : State W,
    (work_left st <= n)%nat -> parsed st -> failure st = None ->
    exists schedule st', exec schedule st = Some st' /\ finished st' = true.
Proof.
  induction n as [|n IH]; intros st Hn Hp Hf.
  - destruct (finished st) eqn:Hfin.
    + exists [], st. auto.
    + destruct (progress st Hf Hfin) as (a & st1 & Hs).
      apply step_work_left in Hs. lia.
  - destruct (finished st) eqn:Hfin.
    + exists [], st. auto.
    + destruct (progress st Hf Hfin) as (a & st1 & Hs).
      destruct (step_parsed _ Hp Hs) as (Hp1 & Hf1).
      pose proof (step_work_left _ _ Hs) as Hlt.
      destruct (IH st1 ltac:(lia) Hp1 Hf1) as (schedule & st' & Hx & Hfin').
      exists (a :: schedule), st'. cbn. rewrite Hs. auto.
Qed.

End PipelineTermination.

Lemma memstore_returns_a_row_per_tuple :
  Db.returns_a_row_per_tuple MemStore.driver.
Proof.
  assert (Hrows : forall es table next table' next' ids,
             MemStore.insert_rows es table next = Some (table', next', ids) ->
             List.length ids = List.length es).
  { induction es as [|e es IH]; intros table next table' next' ids; cbn.
    - now intros [= _ _ <-].
    - destruct (existsb _ table); [discriminate|].
      destruct (MemStore.insert_rows es _ _) as [[[t n] i]|] eqn:Er; [|discriminate].
      intros [= _ _ <-]. cbn. f_equal. exact (IH _ _ _ _ _ Er). }
  intros es w w' ids. cbn. unfold MemStore.run_query.
  destruct (negb (MemStore.online w)); [discriminate|].
  destruct (MemStore.insert_rows es _ _) as [[[t n] i]|] eqn:Er; [|discriminate].
  intros [= _ <-]. exact (Hrows _ _ _ _ _ _ Er).
Qed.

(** C2.  On a driver that returns a row per inserted tuple, in every
    state the pipeline can reach, under any interleaving of its stages,
    [successfulInserts] is at most the transformer's [valid]; in every
    reachable state where the run is over, [successfulInserts +
    failedInserts] equals [valid].  Every schedule is bounded by the length
    of the input, and the run can be carried to its end. *)
Theorem stored_at_most_valid :
  forall (W : Type) (D : Db.Driver W) (E : Engine)
         (batchSize : Z) (rows : list RawRecord) (w : W),
    Db.returns_a_row_per_tuple D ->
    (forall st,
        Pipeline.reachable (Pipeline.init batchSize rows w) st ->
        Pipeline.storedRecords st <= Pipeline.validRecords st
        /\ (Pipeline.finished st = true ->
            Pipeline.storedRecords st + Pipeline.failedRecords st
            = Pipeline.validRecords st))
    /\ (forall schedule st,
          Pipeline.exec schedule (Pipeline.init batchSize rows w) = Some st ->
          (List.length schedule <= 5 * List.length rows + 2)%nat)
    /\ (exists schedule st,
          Pipeline.exec schedule (Pipeline.init batchSize rows w) = Some st
          /\ Pipeline.finished st = true).
Proof.
  intros W D E batchSize rows w HD. split; [|split].
  - intros st [schedule Hx].
    pose proof (exec_accounted schedule HD (init_accounted batchSize rows w) Hx)
      as (Heq & Hs & Hf).
    pose proof (count_valid_nonneg (List.concat (Pipeline.to_writer st))) as H1.
    pose proof (count_valid_nonneg
                  (Transformer.BatchTransformer.currentBatch (Pipeline.batchTransformer st)))
      as H2.
    pose proof (count_valid_nonneg (Pipeline.to_batcher st)) as H3.
    split; [lia|].
    intro Hfin. unfold Pipeline.finished in Hfin.
    destruct (Pipeline.source st), (Pipeline.to_transformer st),
      (Pipeline.to_batcher st) eqn:Eb, (Pipeline.to_writer st) eqn:Ew,
      (Pipeline.failure st); try discriminate.
    pose proof (@exec_drained W D E schedule _ _
                  (fun Hfl : Pipeline.flushed (Pipeline.init batchSize rows w) = true =>
                     False_ind _ (Bool.diff_false_true Hfl)) Hx Hfin)
      as (_ & _ & _ & Hcb).
    rewrite Hcb in Heq. cbn [List.concat] in Heq.
    change (Transformer.count_valid []) with 0 in Heq. lia.
  - intros schedule st Hx.
    pose proof (exec_length schedule _ Hx) as Hl.
    change (Pipeline.work_left (Pipeline.init batchSize rows w))
      with (5 * List.length rows + 4 * 0 + 3 * 0 + 2 + 0)%nat in Hl.
    lia.
  - apply (@runs_to_completion W D E _ (Pipeline.init batchSize rows w) (le_n _)).
    + constructor.
    + reflexivity.
Qed.

Lemma stored_at_most_valid_witness :
  let rows := [Samples.ann; Samples.eve; Samples.bob; Samples.ann] in
  Db.returns_a_row_per_tuple MemStore.driver
  /\ exists schedule st,
       @Pipeline.exec _ MemStore.driver stub_engine schedule
         (Pipeline.init 2 rows Samples.store_with_ann) = Some st
       /\ Pipeline.finished st = true
       /\ Pipeline.storedRecords st + Pipeline.failedRecords st
          = Pipeline.validRecords st
       /\ Pipeline.storedRecords st <= Pipeline.validRecords st.
Proof.
  intro rows.
  split; [exact memstore_returns_a_row_per_tuple|].
  destruct (@stored_at_most_valid _ MemStore.driver stub_engine 2 rows
              Samples.store_with_ann memstore_returns_a_row_per_tuple)
    as (Hinv & _ & schedule & st & Hx & Hfin).
  exists schedule, st.
  destruct (Hinv st (ex_intro _ schedule Hx)) as (Hle & Heq).
  split; [exact Hx|]. split; [exact Hfin|]. split; [exact (Heq Hfin) | exact Hle].
Defined.

(** The same run, executed: Ann is already stored and appears twice, Eve
    has no first name, Bob is new.  The batch of Ann and Bob fails and falls
    back (Ann fails, Bob is stored); the flushed batch with Ann alone fails
    and falls back (Ann fails). *)
Example pipeline_run :
  let rows := [Samples.ann; Samples.eve; Samples.bob; Samples.ann] in
  let schedule :=
    [Pipeline.Count; Pipeline.Count; Pipeline.Validate; Pipeline.Count;
     Pipeline.Validate; Pipeline.Batch; Pipeline.Batch; Pipeline.Validate;
     Pipeline.Batch; Pipeline.Write; Pipeline.Count; Pipeline.Validate;
     Pipeline.Batch; Pipeline.Flush; Pipeline.Write] in
  match @Pipeline.exec _ MemStore.driver stub_engine schedule
          (Pipeline.init 2 rows Samples.store_with_ann) with
  | Some st =>
      Pipeline.finished st = true
      /\ (Pipeline.recordCount st, Pipeline.validRecords st,
          Pipeline.invalidRecords st, Pipeline.storedRecords st,
          Pipeline.failedRecords st) = (4, 3, 1, 1, 2)
      /\ MemStore.emails (Db.world (Pipeline.session st))
         = ["ann@example.com"; "bob@example.com"]
  | None => False
  end.
Proof. vm_compute. repeat split; reflexivity. Qed.

(* ================================================================== *)
(** * Further properties of the modules                                *)
(* ================================================================== *)

(** ** Validator: which rows are valid *)

Section RowFacts.
Context `{Engine}.

Import Validator.

Lemma get_field (r : RawRecord) (k : string) :
  get (of_record r) k
  = match Rows.field r k with
    | Some s => PString s
    | None => PUndefined
    end.
Proof.
  unfold get, of_record.
  induction r as [|[k' v] r IH]; cbn; [reflexivity|].
  destruct (String.eqb k k'); [reflexivity | exact IH].
Qed.

Lemma all_space_trimStart (s : string) :
  all_chars is_space (trimStart s) = all_chars is_space s.
Proof.
  induction s as [|c s IH]; cbn; [reflexivity|].
  destruct (is_space c) eqn:Hc; cbn; [exact IH | now rewrite Hc].
Qed.

Lemma trimEnd_empty (s : string) :
  String.eqb (trimEnd s) "" = all_chars is_space s.
Proof.
  induction s as [|c s IH]; cbn; [reflexivity|].
  rewrite IH.
  destruct (is_space c), (all_chars is_space s); reflexivity.
Qed.

(** [s.trim() === ''] exactly when [s] holds white space only. *)
Lemma trim_empty (s : string) :
  String.eqb (trim s) "" = all_chars is_space s.
Proof. unfold trim. now rewrite trimEnd_empty, all_space_trimStart. Qed.

(** [!p || p.trim() === ''] on what a row holds under a column. *)
Lemma blank_field (r : RawRecord) (k : string) :
  blank k (get (of_record r) k)
  = Ok match Rows.field r k with
       | Some s => all_chars is_space s
       | None => true
       end.
Proof.
  rewrite get_field. destruct (Rows.field r k) as [s|]; [|reflexivity].
  unfold blank. cbn. rewrite trim_empty.
  destruct s as [|c s]; reflexivity.
Qed.

Lemma push_if_nil (c : bool) (msg : string) (l : list string) :
  push_if c msg l = [] <-> c = false /\ l = [].
Proof.
  unfold push_if. destruct c.
  - split; [|intros [Hc _]; discriminate Hc].
    intro Happ. apply app_eq_nil in Happ. destruct Happ as [_ Hm]. discriminate Hm.
  - split; [auto | now intros [_ Hl]].
Qed.

(** Whenever the validator returns, [isValid] says that [errors] is empty. *)
Lemma isValid_errors (v : Value) (o : ValidationOutcome) :
  validateEmployee v = Ok o -> (isValid o = true <-> errors o = []).
Proof.
  unfold validateEmployee.
  destruct (negb (truthy v) || negb (String.eqb (typeof v) "object")).
  - intros [= <-]. cbn. split; discriminate.
  - destruct (blank "first_name" (get v "first_name")) as [b1|e]; [|discriminate].
    destruct (blank "last_name" (get v "last_name")) as [b2|e]; [|discriminate].
    cbn [bind]. intros [= <-]. cbn [isValid errors].
    rewrite Nat.eqb_eq. apply length_zero_iff_nil.
Qed.

(** The errors collected for a parsed row are empty exactly when none of
    the five rules fires. *)
Lemma row_errors_nil (r : RawRecord) (o : ValidationOutcome) :
  validateEmployee (of_record r) = Ok o ->
  (errors o = [] <->
   match Rows.field r "first_name" with
   | Some s => all_chars is_space s
   | None => true
   end = false
   /\ match Rows.field r "last_name" with
      | Some s => all_chars is_space s
      | None => true
      end = false
   /\ match Rows.field r "email" with
      | Some s => negb (test emailRegex s)
      | None => true
      end = false
   /\ match Rows.field r "hire_date" with
      | Some s => negb (String.eqb s "") && PrimFloat.is_nan (Date_parse s)
      | None => false
      end = false
   /\ match Rows.field r "salary" with
      | Some s =>
          negb (String.eqb s "")
          && (PrimFloat.is_nan (parseFloat s)
              || PrimFloat.ltb (parseFloat s) 0%float)
      | None => false
      end = false).
Proof.
  unfold validateEmployee.
  replace (negb (truthy (of_record r))
           || negb (String.eqb (typeof (of_record r)) "object")) with false
    by reflexivity.
  rewrite !blank_field. cbn [bind].
  rewrite !get_field. intros [= <-]. cbn [errors].
  rewrite !push_if_nil.
  assert (Hemail :
            (if negb (truthy_prim match Rows.field r "email" with
                                  | Some s => PString s
                                  | None => PUndefined
                                  end)
             then (push_if match Rows.field r "last_name" with
                           | Some s => all_chars is_space s
                           | None => true
                           end "Last name is required"
                     (push_if match Rows.field r "first_name" with
                              | Some s => all_chars is_space s
                              | None => true
                              end "First name is required" [])
                   ++ ["Email is required"])
             else push_if (negb (isValidEmail match Rows.field r "email" with
                                              | Some s => PString s
                                              | None => PUndefined
                                              end))
                    "Email format is invalid"
                    (push_if match Rows.field r "last_name" with
                             | Some s => all_chars is_space s
                             | None => true
                             end "Last name is required"
                       (push_if match Rows.field r "first_name" with
                                | Some s => all_chars is_space s
                                | None => true
                                end "First name is required" []))) = []
            <-> match Rows.field r "email" with
                | Some s => negb (test emailRegex s)
                | None => true
                end = false
                /\ match Rows.field r "last_name" with
                   | Some s => all_chars is_space s
                   | None => true
                   end = false
                /\ match Rows.field r "first_name" with
                   | Some s => all_chars is_space s
                   | None => true
                   end = false).
  { destruct (Rows.field r "email") as [em|]; cbn [truthy_prim negb].
    - destruct (String.eqb_spec em "") as [-> | Hne]; cbn [negb].
      + split; [|intros [Hc _]; discriminate Hc].
        intro Happ. apply app_eq_nil in Happ. destruct Happ as [_ Hm]. discriminate Hm.
      + rewrite !push_if_nil. unfold isValidEmail. cbn [truthy_prim ToString].
        destruct (String.eqb_spec em "") as [-> | _]; [now elim Hne|]. cbn [negb].
        tauto.
    - split; [|intros [Hc _]; discriminate Hc].
      intro Happ. apply app_eq_nil in Happ. destruct Happ as [_ Hm]. discriminate Hm. }
  rewrite Hemail.
  assert (Hdate :
            truthy_prim match Rows.field r "hire_date" with
                        | Some s => PString s
                        | None => PUndefined
                        end
            && isNaN (Date_parse (ToString match Rows.field r "hire_date" with
                                           | Some s => PString s
                                           | None => PUndefined
                                           end))
            = match Rows.field r "hire_date" with
              | Some s => negb (String.eqb s "") && PrimFloat.is_nan (Date_parse s)
              | None => false
              end).
  { destruct (Rows.field r "hire_date"); reflexivity. }
  assert (Hsalary :
            truthy_prim match Rows.field r "salary" with
                        | Some s => PString s
                        | None => PUndefined
                        end
            && (isNaN (parseFloat (ToString match Rows.field r "salary" with
                                            | Some s => PString s
                                            | None => PUndefined
                                            end))
                || PrimFloat.ltb
                     (parseFloat (ToString match Rows.field r "salary" with
                                           | Some s => PString s
                                           | None => PUndefined
                                           end)) 0%float)
            = match Rows.field r "salary" with
              | Some s =>
                  negb (String.eqb s "")
                  && (PrimFloat.is_nan (parseFloat s)
                      || PrimFloat.ltb (parseFloat s) 0%float)
              | None => false
              end).
  { destruct (Rows.field r "salary"); reflexivity. }
  rewrite Hdate, Hsalary. tauto.
Qed.

Lemma flag_has (f : option string) (p : string -> bool) :
  match f with Some s => p s | None => true end = false
  <-> exists s, f = Some s /\ p s = false.
Proof.
  destruct f as [s|]; split.
  - intro Hp. now exists s.
  - now intros (s' & [= <-] & Hp).
  - discriminate.
  - now intros (s' & [=] & _).
Qed.

Lemma flag_all (f : option string) (p : string -> bool) :
  match f with Some s => negb (String.eqb s "") && p s | None => false end = false
  <-> forall s, f = Some s -> s = "" \/ p s = false.
Proof.
  destruct f as [s|]; split.
  - intros Hp s' [= <-].
    destruct (String.eqb_spec s ""); [now left | right].
    cbn in Hp. exact Hp.
  - intro Hall. destruct (Hall s eq_refl) as [-> | Hp]; [reflexivity|].
    rewrite Hp. apply andb_false_r.
  - intros _ s' [=].
  - reflexivity.
Qed.

End RowFacts.

(** X2.  A parsed row is reported valid exactly when: its first and last
    names each hold a character that is not white space; its [email] matches
    the address pattern as it stands (it is not trimmed); its [hire_date] is
    absent, empty or parsed by [Date.parse]; and its [salary] is absent,
    empty or parsed by [parseFloat] to a number that is not below zero (zero
    passes).  On such rows the validator always returns, and [isValid] holds
    exactly when no error was collected. *)
Theorem row_is_valid_iff : forall (E : Engine) (r : RawRecord),
  exists o,
    Validator.validateEmployee (of_record r) = Ok o
    /\ (Validator.isValid o = true <-> Validator.errors o = [])
    /\ (Validator.isValid o = true <->
        (exists s, Rows.field r "first_name" = Some s
                   /\ all_chars is_space s = false)
        /\ (exists s, Rows.field r "last_name" = Some s
                      /\ all_chars is_space s = false)
        /\ (exists s, Rows.field r "email" = Some s
                      /\ test Validator.emailRegex s = true)
        /\ (forall s, Rows.field r "hire_date" = Some s ->
                      s = "" \/ PrimFloat.is_nan (Date_parse s) = false)
        /\ (forall s, Rows.field r "salary" = Some s ->
                      s = ""
                      \/ (PrimFloat.is_nan (parseFloat s) = false
                          /\ PrimFloat.ltb (parseFloat s) 0%float = false))).
Proof.
  intros E r.
  destruct (validateEmployee_of_record r) as [o Ho].
  exists o. split; [exact Ho|]. split; [exact (isValid_errors _ Ho)|].
  rewrite (isValid_errors _ Ho), (row_errors_nil r Ho).
  rewrite (flag_has (Rows.field r "first_name") (all_chars is_space)).
  rewrite (flag_has (Rows.field r "last_name") (all_chars is_space)).
  rewrite (flag_has (Rows.field r "email")
             (fun s => negb (test Validator.emailRegex s))).
  rewrite (flag_all (Rows.field r "hire_date")
             (fun s => PrimFloat.is_nan (Date_parse s))).
  rewrite (flag_all (Rows.field r "salary")
             (fun s => PrimFloat.is_nan (parseFloat s)
                       || PrimFloat.ltb (parseFloat s) 0%float)).
  assert (Hem : (exists s, Rows.field r "email" = Some s
                           /\ negb (test Validator.emailRegex s) = false)
                <-> (exists s, Rows.field r "email" = Some s
                               /\ test Validator.emailRegex s = true)).
  { split; intros (s & Hs & Ht); exists s; split; try exact Hs.
    - now apply negb_false_iff in Ht.
    - now rewrite Ht. }
  assert (Hsa : (forall s, Rows.field r "salary" = Some s ->
                           s = "" \/ PrimFloat.is_nan (parseFloat s)
                                     || PrimFloat.ltb (parseFloat s) 0%float = false)
                <-> (forall s, Rows.field r "salary" = Some s ->
                               s = ""
                               \/ (PrimFloat.is_nan (parseFloat s) = false
                                   /\ PrimFloat.ltb (parseFloat s) 0%float = false))).
  { split; intros Hall s Hs; (destruct (Hall s Hs) as [-> | Hp]; [now left | right]).
    - now apply orb_false_iff in Hp.
    - now apply orb_false_iff. }
  rewrite Hem, Hsa. tauto.
Qed.

(** ** EmployeeTransformer: what is pushed, and the error path *)

Section TransformerOutput.
Context `{Engine}.

Import Transformer Transformer.EmployeeTransformer.

(** One [_transform] on a chunk the validator accepts or rejects without
    throwing. *)
Lemma transform_validated (chunk : Value) (o : Validator.ValidationOutcome) (this : t) :
  Validator.validateEmployee chunk = Ok o ->
  _transform chunk this
  = (mk (mkStats (processed (stats this) + 1)
           (valid (stats this) + (if Validator.isValid o then 1 else 0))
           (invalid (stats this) + (if Validator.isValid o then 0 else 1))
           (errors (stats this)
            ++ (if Validator.isValid o then [] else [(chunk, Validator.errors o)]))),
     [Rows.validated chunk], Ok tt).
Proof.
  intro Ho. unfold _transform, Rows.validated, Rows.outcome. rewrite Ho.
  pose proof (isValid_errors _ Ho) as Hiff.
  destruct (Validator.isValid o); cbn.
  - rewrite (proj1 Hiff eq_refl), app_nil_r, !Z.add_0_r. reflexivity.
  - rewrite !Z.add_0_r. reflexivity.
Qed.

End TransformerOutput.

(** X3.  On parsed rows the transformer pushes exactly one record per row,
    in arrival order, each carrying the row itself as [data] with the
    validator's verdict and messages; it never reports an error; [valid] and
    [invalid] grow by the numbers of accepted and rejected rows, and
    [stats.errors] gains one entry per rejected row, in order. *)
Theorem transformer_pushes_one_record_per_row :
  forall (E : Engine) (rows : list RawRecord)
         (this : Transformer.EmployeeTransformer.t),
    let chunks := map of_record rows in
    let accepted chunk := Validator.isValid (Rows.outcome chunk) in
    exists this',
      Transformer.EmployeeTransformer.feed chunks this
      = (this', map Rows.validated chunks, Ok tt)
      /\ Transformer.EmployeeTransformer.valid
           (Transformer.EmployeeTransformer.stats this')
         = Transformer.EmployeeTransformer.valid
             (Transformer.EmployeeTransformer.stats this)
           + Z.of_nat (List.length (filter accepted chunks))
      /\ Transformer.EmployeeTransformer.invalid
           (Transformer.EmployeeTransformer.stats this')
         = Transformer.EmployeeTransformer.invalid
             (Transformer.EmployeeTransformer.stats this)
           + Z.of_nat (List.length (filter (fun c => negb (accepted c)) chunks))
      /\ Transformer.EmployeeTransformer.errors
           (Transformer.EmployeeTransformer.stats this')
         = Transformer.EmployeeTransformer.errors
             (Transformer.EmployeeTransformer.stats this)
           ++ map (fun c => (c, Validator.errors (Rows.outcome c)))
                (filter (fun c => negb (accepted c)) chunks).
Proof.
  intros E rows. cbv zeta.
  induction rows as [|row rows IH]; intro this.
  - exists this. cbn. rewrite app_nil_r. repeat split; lia.
  - destruct (validateEmployee_of_record row) as [o Ho].
    cbn [map Transformer.EmployeeTransformer.feed filter].
    rewrite (@transform_validated E (of_record row) o this Ho).
    assert (Hout : Rows.outcome (of_record row) = o)
      by (unfold Rows.outcome; now rewrite Ho).
    rewrite Hout.
    destruct (Validator.isValid o) eqn:Hval; cbn [negb].
    + match goal with
      | |- context [Transformer.EmployeeTransformer.feed _ ?this1] =>
          destruct (IH this1) as (this2 & Hfeed & Hv & Hi & He)
      end.
      rewrite Hfeed. exists this2.
      cbn [Transformer.EmployeeTransformer.stats Transformer.EmployeeTransformer.valid
             Transformer.EmployeeTransformer.invalid
             Transformer.EmployeeTransformer.errors] in Hv, Hi, He.
      rewrite app_nil_r in He.
      split; [reflexivity|]. rewrite Hv, Hi, He. cbn [List.length].
      repeat split; lia.
    + match goal with
      | |- context [Transformer.EmployeeTransformer.feed _ ?this1] =>
          destruct (IH this1) as (this2 & Hfeed & Hv & Hi & He)
      end.
      rewrite Hfeed. exists this2.
      cbn [Transformer.EmployeeTransformer.stats Transformer.EmployeeTransformer.valid
             Transformer.EmployeeTransformer.invalid
             Transformer.EmployeeTransformer.errors] in Hv, Hi, He.
      split; [reflexivity|]. rewrite Hv, Hi, He. cbn [List.length map].
      rewrite Hout, <- app_assoc. cbn [app].
      repeat split; lia.
Qed.

(** X4.  A chunk whose [first_name] is a truthy value that is not a string
    makes [validateEmployee] throw the [TypeError]
    "employee.first_name.trim is not a function".
    [_transform] has then already counted the chunk in [processed]; it
    pushes nothing, leaves [valid] and [invalid] as they were and hands the
    error to the callback, so that [processed = valid + invalid + 1]
    afterwards if the counters agreed before. *)
Theorem non_string_name_is_an_error :
  forall (E : Engine) (props : list (string * Prim)) (p : Prim)
         (this : Transformer.EmployeeTransformer.t),
    lookup "first_name" props = Some p ->
    truthy_prim p = true ->
    (forall s, p <> PString s) ->
    Validator.validateEmployee (VObject props)
    = Throw (TypeError "employee.first_name.trim is not a function")
    /\ Transformer.EmployeeTransformer._transform (VObject props) this
       = (Transformer.EmployeeTransformer.mk
            (Transformer.EmployeeTransformer.mkStats
               (Transformer.EmployeeTransformer.processed
                  (Transformer.EmployeeTransformer.stats this) + 1)
               (Transformer.EmployeeTransformer.valid
                  (Transformer.EmployeeTransformer.stats this))
               (Transformer.EmployeeTransformer.invalid
                  (Transformer.EmployeeTransformer.stats this))
               (Transformer.EmployeeTransformer.errors
                  (Transformer.EmployeeTransformer.stats this))),
          [], Throw (TypeError "employee.first_name.trim is not a function")).
Proof.
  intros E props p this Hl Ht Hs.
  assert (Hv : Validator.validateEmployee (VObject props)
               = Throw (TypeError "employee.first_name.trim is not a function")).
  { unfold Validator.validateEmployee. cbn [truthy typeof negb orb String.eqb].
    replace (negb (String.eqb "object" "object")) with false by reflexivity.
    cbn [orb]. unfold get. rewrite Hl. unfold Validator.blank. rewrite Ht.
    cbn [negb]. destruct p as [ | | b | x | s]; try reflexivity.
    now elim (Hs s). }
  split; [exact Hv|].
  unfold Transformer.EmployeeTransformer._transform. now rewrite Hv.
Qed.

Lemma non_string_name_is_an_error_witness :
  let props := [("first_name", PNumber 5%float); ("last_name", PString "Lee")] in
  (lookup "first_name" props = Some (PNumber 5%float)
   /\ truthy_prim (PNumber 5%float) = true
   /\ (forall s, PNumber 5%float <> PString s))
  /\ @Validator.validateEmployee stub_engine (VObject props)
     = Throw (TypeError "employee.first_name.trim is not a function").
Proof.
  intro props.
  assert (Hl : lookup "first_name" props = Some (PNumber 5%float)) by reflexivity.
  assert (Ht : truthy_prim (PNumber 5%float) = true) by (vm_compute; reflexivity).
  assert (Hs : forall s, PNumber 5%float <> PString s) by (intros s; discriminate).
  split; [repeat split; assumption|].
  exact (proj1 (@non_string_name_is_an_error stub_engine props _
                  Transformer.EmployeeTransformer.constructor Hl Ht Hs)).
Defined.

(** ** BatchTransformer: pass-through mode and degenerate capacities *)

Section BatchTransformerEdges.

Import Transformer Transformer.BatchTransformer.

Lemma feed_singletons (chunks : list ValidatedRecord) (B : Z) (vo : bool) :
  B <= 1 ->
  feed chunks (mk B [] vo)
  = (mk B [] vo, map (fun chunk => [chunk]) (filter (keeps vo) chunks)).
Proof.
  intro HB. induction chunks as [|chunk chunks IH]; [reflexivity|].
  cbn [feed filter]. unfold _transform, keeps at 1.
  cbn [validOnly currentBatch batchSize app List.length].
  unfold keeps at 1.
  destruct (vo && negb (Transformer.valid chunk)); cbn [negb].
  - rewrite IH. reflexivity.
  - replace (Z.geb (Z.of_nat 1) B) with true
      by (symmetry; rewrite Z.geb_leb; apply Z.leb_le; cbn; lia).
    rewrite IH. reflexivity.
Qed.

End BatchTransformerEdges.

(** X5.  With [validOnly: false] nothing is dropped: the batches of a run,
    laid end to end, are the whole input in arrival order, invalid records
    included. *)
Theorem batches_pass_everything_without_validOnly :
  forall (opt_b : option Z) (chunks : list Transformer.ValidatedRecord),
    List.concat
      (Transformer.BatchTransformer.emitted chunks
         (Transformer.BatchTransformer.constructor
            (Transformer.BatchTransformer.mkOptions opt_b (Some false))))
    = chunks.
Proof.
  intros opt_b chunks. rewrite emitted_concat. cbn [Transformer.BatchTransformer.currentBatch
    Transformer.BatchTransformer.constructor Transformer.BatchTransformer.validOnly
    Transformer.BatchTransformer.opt_validOnly app].
  induction chunks as [|c chunks IH]; [reflexivity|].
  cbn [filter]. unfold Transformer.BatchTransformer.keeps at 1. cbn [andb negb].
  now rewrite IH.
Qed.

(** X6.  A capacity of one or less, negative ones included, disables
    batching: every admitted record is pushed at once as a batch of its own,
    [currentBatch] is empty after every chunk, and [_flush] pushes
    nothing. *)
Theorem capacity_below_two_gives_singletons :
  forall (options : Transformer.BatchTransformer.Options)
         (chunks : list Transformer.ValidatedRecord),
    let this := Transformer.BatchTransformer.constructor options in
    Transformer.BatchTransformer.batchSize this <= 1 ->
    Transformer.BatchTransformer.run chunks this
    = (this,
       map (fun chunk => [chunk]) (Transformer.BatchTransformer.admitted this chunks),
       []).
Proof.
  intros options chunks this HB.
  unfold Transformer.BatchTransformer.run, Transformer.BatchTransformer.admitted.
  change this with (Transformer.BatchTransformer.mk
                      (Transformer.BatchTransformer.batchSize this) []
                      (Transformer.BatchTransformer.validOnly this)) at 1.
  rewrite (feed_singletons chunks _ HB). reflexivity.
Qed.

Lemma capacity_below_two_gives_singletons_witness :
  let options := Transformer.BatchTransformer.mkOptions (Some (-5)) (Some true) in
  let this := Transformer.BatchTransformer.constructor options in
  let chunks :=
    [Samples.valid_record Samples.ann;
     Transformer.mkRecord (of_record Samples.eve) false ["First name is required"];
     Samples.valid_record Samples.bob] in
  Transformer.BatchTransformer.batchSize this <= 1
  /\ Transformer.BatchTransformer.run chunks this
     = (this,
        [[Samples.valid_record Samples.ann]; [Samples.valid_record Samples.bob]],
        []).
Proof.
  intros options this chunks.
  assert (HB : Transformer.BatchTransformer.batchSize this <= 1)
    by (vm_compute; discriminate).
  split; [exact HB|].
  exact (capacity_below_two_gives_singletons options chunks HB).
Defined.

(** ** Employee.batchInsert: the calls it makes *)

Section BatchInsertCalls.
Context {W : Type} {D : Db.Driver W}.

Import Db.

Lemma batchInsert_success_log (es : list Value) (s s1 : Session W) (ids : list Z) :
  Employee.batchInsert es s = (s1, Ok ids) ->
  (es = [] /\ s1 = s /\ ids = [])
  \/ (es <> []
      /\ log s1 = log s ++ [EConnect; EClientQuery BEGIN; EClientQuery (INSERT es);
                            EClientQuery COMMIT; ERelease]).
Proof.
  unfold Employee.batchInsert.
  destruct es as [|e0 es']; [intros [= <- <-]; now left|].
  set (es := e0 :: es'). cbn [List.length Nat.eqb].
  intro Hb. right. split; [discriminate|]. revert Hb.
  unfold getClient.
  destruct (pool_connect (world s)) as [w0 [[]|ec]]; cbn [log world]; [|discriminate].
  unfold Employee.batchInsert_try, clientQuery, release. cbn [log world].
  destruct (client_query BEGIN w0) as [w1 [r1|e1]]; cbn [log world].
  - destruct (find _ es) as [bad|]; cbn [log world].
    + destruct (client_query ROLLBACK w1) as [w2 [r2|e2]]; discriminate.
    + destruct (client_query (INSERT es) w1) as [w2 [r2|e2]]; cbn [log world].
      * destruct (client_query COMMIT w2) as [w3 [r3|e3]]; cbn [log world].
        -- intros [= <- _]. cbn [log]. now rewrite <- !app_assoc.
        -- destruct (client_query ROLLBACK w3) as [w4 [r4|e4]]; discriminate.
      * destruct (client_query ROLLBACK w2) as [w3 [r3|e3]]; discriminate.
  - destruct (client_query ROLLBACK w1) as [w2 [r2|e2]]; discriminate.
Qed.

End BatchInsertCalls.

(** X7.  The calls of one [batchInsert] and its result, by the answers of
    the store.  On an empty list it makes no call and returns [[]].
    Otherwise it asks the pool for a client.  If the pool refuses, that is
    the only call and the refusal is thrown: nothing is begun, rolled back
    or released.  If the pool grants the client, the calls are the
    [connect], then client queries only, then one release, which is the last
    call.  The queries are BEGIN, INSERT, COMMIT, with the ids of the INSERT
    returned, exactly when all three are accepted; as soon as one is
    rejected, or the values of an employee cannot be built once BEGIN was
    accepted, the next query is ROLLBACK and the error is thrown (ROLLBACK's
    own error if ROLLBACK is rejected too).  So ROLLBACK is never sent after
    a COMMIT that was accepted, and COMMIT is never sent after a rejected
    INSERT. *)
Theorem batchInsert_calls :
  forall (W : Type) (D : Db.Driver W) (es : list Value) (s : Db.Session W),
    let connect := Db.pool_connect (Db.world s) in
    let begin := Db.client_query Db.BEGIN (fst connect) in
    let insert := Db.client_query (Db.INSERT es) (fst begin) in
    let commit := Db.client_query Db.COMMIT (fst insert) in
    let rethrown (w : W) (error : Error) : Res (list Z) :=
      match snd (Db.client_query Db.ROLLBACK w) with
      | Throw rollbackError => Throw rollbackError
      | Ok _ => Throw error
      end in
    match Employee.batchInsert es s with
    | (s', r) =>
        match es with
        | [] => s' = s /\ r = Ok []
        | _ :: _ =>
            match snd connect with
            | Throw connectError =>
                Db.log s' = Db.log s ++ [Db.EConnect] /\ r = Throw connectError
            | Ok _ =>
                exists sent,
                  Db.log s'
                  = Db.log s
                    ++ Db.EConnect :: map Db.EClientQuery sent ++ [Db.ERelease]
                  /\ match snd begin with
                     | Throw e =>
                         sent = [Db.BEGIN; Db.ROLLBACK]
                         /\ r = rethrown (fst begin) e
                     | Ok _ =>
                         match find (fun e => negb (Employee.bindable e)) es with
                         | Some bad =>
                             sent = [Db.BEGIN; Db.ROLLBACK]
                             /\ r = rethrown (fst begin) (Employee.bind_error bad)
                         | None =>
                             match snd insert with
                             | Throw e =>
                                 sent = [Db.BEGIN; Db.INSERT es; Db.ROLLBACK]
                                 /\ r = rethrown (fst insert) e
                             | Ok ids =>
                                 match snd commit with
                                 | Throw e =>
                                     sent = [Db.BEGIN; Db.INSERT es; Db.COMMIT;
                                             Db.ROLLBACK]
                                     /\ r = rethrown (fst commit) e
                                 | Ok _ =>
                                     sent = [Db.BEGIN; Db.INSERT es; Db.COMMIT]
                                     /\ r = Ok ids
                                 end
                             end
                         end
                     end
            end
        end
    end.
Proof.
  intros W D es s. cbv zeta.
  destruct es as [|e0 es']; [cbn; split; reflexivity|].
  set (es := e0 :: es').
  assert (Hne : es <> []) by discriminate.
  rewrite (batchInsert_by_outcome s Hne). cbv zeta.
  destruct (snd (Db.pool_connect (Db.world s))) as [[]|connectError];
    [|split; reflexivity].
  destruct (snd (Db.client_query Db.BEGIN _)) as [r1|e1];
    [|eexists; split; [reflexivity | split; reflexivity]].
  destruct (find _ es) as [bad|];
    [eexists; split; [reflexivity | split; reflexivity]|].
  destruct (snd (Db.client_query (Db.INSERT es) _)) as [ids|e2];
    [|eexists; split; [reflexivity | split; reflexivity]].
  destruct (snd (Db.client_query Db.COMMIT _)) as [r3|e3];
    eexists; (split; [reflexivity | split; reflexivity]).
Qed.

(** ** DatabaseWriter over a whole stream *)

Section WriterRuns.
Context {W : Type} {D : Db.Driver W}.

Import Db Transformer DatabaseWriter.

(** One turn of the fallback loop adds an error entry exactly when it adds
    a failure. *)
Lemma fallback_one_errors (st : Stats) (s : Session W) (e : Value) :
  Z.of_nat (List.length (errors (fst (fallback_one (st, s) e))))
  - failedInserts (fst (fallback_one (st, s) e))
  = Z.of_nat (List.length (errors st)) - failedInserts st.
Proof.
  unfold fallback_one.
  destruct (Employee.insert e s) as [s1 [[row|]|err]]; cbn;
    rewrite ?length_app; cbn; lia.
Qed.

Lemma fallback_errors (es : list Value) :
  forall (st : Stats) (s : Session W),
    Z.of_nat (List.length (errors (fst (fold_left fallback_one es (st, s)))))
    - failedInserts (fst (fold_left fallback_one es (st, s)))
    = Z.of_nat (List.length (errors st)) - failedInserts st.
Proof.
  induction es as [|e es IH]; intros st s; [reflexivity|].
  cbn [fold_left].
  destruct (fallback_one (st, s) e) as [st1 s1] eqn:E1.
  rewrite IH. pose proof (fallback_one_errors st s e) as H1.
  rewrite E1 in H1. exact H1.
Qed.

(** What one [_write] keeps: the gap between the error entries and
    [failedInserts], the sign of [successfulInserts], and [totalProcessed]
    counting every record of the chunk, valid or not. *)
Lemma write_keeps (chunk : Chunk) (this : t) (s : Session W) :
  let this' := fst (fst (_write chunk this s)) in
  Z.of_nat (List.length (errors (stats this'))) - failedInserts (stats this')
  = Z.of_nat (List.length (errors (stats this))) - failedInserts (stats this)
  /\ successfulInserts (stats this) <= successfulInserts (stats this')
  /\ totalProcessed (stats this')
     = totalProcessed (stats this) + Z.of_nat (List.length (records_of chunk)).
Proof.
  cbv zeta. unfold _write.
  destruct (Nat.eqb_spec (List.length (records_of chunk)) 0) as [Hz | Hz].
  - cbn. rewrite Hz. repeat split; lia.
  - destruct (Nat.eqb (List.length (validEmployees (records_of chunk))) 0).
    + cbn. repeat split; lia.
    + destruct (Employee.batchInsert _ s) as [s1 [ids | dbError]].
      * cbn. repeat split; lia.
      * match goal with
        | |- context [fold_left fallback_one ?es (?st0, s1)] =>
            pose proof (fallback_errors es st0 s1) as He;
            pose proof (fallback_effect es st0 s1) as Hf;
            destruct (fold_left fallback_one es (st0, s1)) as [st2 s2]
        end.
        cbn in He, Hf |- *. destruct Hf as (Ht & _ & Hs & _ & _).
        repeat split; lia.
Qed.

(** The same over a sequence of writes. *)
Lemma write_all_keeps (chunks : list Chunk) :
  forall acc : t * Session W,
    let this := fst (Runs.write_all chunks acc) in
    Z.of_nat (List.length (errors (stats this))) - failedInserts (stats this)
    = Z.of_nat (List.length (errors (stats (fst acc)))) - failedInserts (stats (fst acc))
    /\ successfulInserts (stats (fst acc)) <= successfulInserts (stats this)
    /\ totalProcessed (stats this)
       = totalProcessed (stats (fst acc))
         + Z.of_nat (List.length (List.concat (map records_of chunks))).
Proof.
  unfold Runs.write_all.
  induction chunks as [|chunk chunks IH]; intro acc; cbv zeta.
  - cbn. repeat split; lia.
  - cbn [fold_left map List.concat]. rewrite length_app.
    destruct (IH (Runs.write_step acc chunk)) as (He & Hs & Ht).
    pose proof (write_keeps chunk (fst acc) (snd acc)) as (He1 & Hs1 & Ht1).
    unfold Runs.write_step in *.
    destruct (_write chunk (fst acc) (snd acc)) as [[this1 s1] r1].
    cbn [fst snd] in *. repeat split; lia.
Qed.

End WriterRuns.

(** X8.  Over any sequence of chunks written by a fresh writer, on any
    store: [errors] holds exactly one entry per failed insert
    ([errors.length = failedInserts]), [totalProcessed] is the number of
    records received, invalid ones included, and [successfulInserts] is not
    negative. *)
Theorem writer_keeps_one_error_per_failure :
  forall (W : Type) (D : Db.Driver W) (opt_batchSize : option Z) (env_batch_size : Z)
         (chunks : list DatabaseWriter.Chunk) (s : Db.Session W),
    let this :=
      fst (Runs.write_all chunks
             (DatabaseWriter.constructor opt_batchSize env_batch_size, s)) in
    Z.of_nat (List.length (DatabaseWriter.errors (DatabaseWriter.getStats this)))
    = DatabaseWriter.failedInserts (DatabaseWriter.getStats this)
    /\ DatabaseWriter.totalProcessed (DatabaseWriter.getStats this)
       = Z.of_nat (List.length (List.concat (map DatabaseWriter.records_of chunks)))
    /\ 0 <= DatabaseWriter.successfulInserts (DatabaseWriter.getStats this).
Proof.
  intros W D opt_b env chunks s. cbv zeta.
  unfold DatabaseWriter.getStats, Runs.write_all.
  destruct (write_all_keeps chunks (DatabaseWriter.constructor opt_b env, s))
    as (He & Hs & Ht).
  unfold Runs.write_all in He, Hs, Ht.
  cbn [fst DatabaseWriter.constructor DatabaseWriter.stats DatabaseWriter.errors
         DatabaseWriter.failedInserts DatabaseWriter.successfulInserts
         DatabaseWriter.totalProcessed List.length] in He, Hs, Ht.
  repeat split; lia.
Qed.

(** ** The pipeline: the order of the stages does not matter *)

Section PipelineOrder.
Context {W : Type} {D : Db.Driver W} {E : Engine}.

Import Db Transformer Pipeline.

(** The transformer on parsed rows: one record per row, no error. *)
Lemma feed_rows (rows : list RawRecord) :
  forall this : EmployeeTransformer.t,
    exists this',
      EmployeeTransformer.feed (map of_record rows) this
      = (this', map Rows.validated (map of_record rows), Ok tt).
Proof.
  induction rows as [|row rows IH]; intro this.
  - exists this. reflexivity.
  - destruct (validateEmployee_of_record row) as [o Ho].
    cbn [map EmployeeTransformer.feed].
    rewrite (@transform_validated E (of_record row) o this Ho).
    match goal with
    | |- context [EmployeeTransformer.feed _ ?this1] =>
        destruct (IH this1) as (this2 & Hfeed)
    end.
    rewrite Hfeed. exists this2. reflexivity.
Qed.

(** [valid] grows by the number of valid records pushed. *)
Lemma feed_valid_count (chunks : list Value) :
  forall (this this' : EmployeeTransformer.t) (out : list ValidatedRecord) (r : Res unit),
    EmployeeTransformer.feed chunks this = (this', out, r) ->
    EmployeeTransformer.valid (EmployeeTransformer.stats this')
    = EmployeeTransformer.valid (EmployeeTransformer.stats this) + count_valid out.
Proof.
  induction chunks as [|chunk chunks IH]; intros this this' out r; cbn [EmployeeTransformer.feed].
  - intros [= <- <- <-]. cbn. lia.
  - destruct (EmployeeTransformer._transform chunk this) as [[this1 out1] r1] eqn:E1.
    destruct (transform_valid_count _ _ E1) as (Hv1 & _).
    destruct r1 as [u|e].
    + destruct (EmployeeTransformer.feed chunks this1) as [[this2 out2] r2] eqn:E2.
      intros [= <- <- <-]. rewrite (IH _ _ _ _ E2), Hv1, count_valid_app. lia.
    + intros [= <- <- <-]. exact Hv1.
Qed.

(** A stage handling one item leaves the outcome of the rest of the run as
    it was. *)
Lemma step_remaining (a : Action) (st st' : State W) :
  parsed st -> step a st = Some st' -> Runs.remaining st' = Runs.remaining st.
Proof.
  unfold step, parsed, Runs.remaining. cbv zeta.
  destruct (failure st); [discriminate|].
  intro Hp. destruct a.
  - destruct (source st) as [|row rest]; [discriminate|]. intros [= <-].
    cbn [source recordCount to_transformer employeeTransformer to_batcher
           batchTransformer flushed to_writer dbWriter session map List.length].
    rewrite <- app_assoc. cbn [app]. rewrite Nat2Z.inj_succ.
    f_equal. lia.
  - destruct (to_transformer st) as [|chunk rest]; [discriminate|].
    inversion Hp as [|? ? [row ->] Hrest]; subst.
    destruct (validateEmployee_of_record row) as [o Ho].
    rewrite (@transform_validated E (of_record row) o (employeeTransformer st) Ho).
    intros [= <-].
    cbn [source recordCount to_transformer employeeTransformer to_batcher
           batchTransformer flushed to_writer dbWriter session].
    rewrite <- app_comm_cons. cbn [EmployeeTransformer.feed].
    rewrite (@transform_validated E (of_record row) o (employeeTransformer st) Ho).
    match goal with
    | |- context [EmployeeTransformer.feed ?l ?this1] =>
        destruct (EmployeeTransformer.feed l this1) as [[et2 out2] r2]
    end.
    cbn [fst snd]. rewrite <- app_assoc. reflexivity.
  - destruct (to_batcher st) as [|chunk rest]; [discriminate|].
    destruct (BatchTransformer._transform chunk (batchTransformer st)) as [bt out] eqn:Eb.
    intros [= <-].
    cbn [source recordCount to_transformer employeeTransformer to_batcher
           batchTransformer flushed to_writer dbWriter session].
    rewrite <- app_comm_cons. cbn [BatchTransformer.feed]. rewrite Eb.
    match goal with
    | |- context [BatchTransformer.feed ?l bt] =>
        destruct (BatchTransformer.feed l bt) as [bt2 out2]
    end.
    cbn [fst snd]. rewrite <- !app_assoc. reflexivity.
  - destruct (source st), (to_transformer st), (to_batcher st), (flushed st);
      try discriminate.
    destruct (BatchTransformer._flush (batchTransformer st)) as [bt out] eqn:Ef.
    intros [= <-].
    cbn [source recordCount to_transformer employeeTransformer to_batcher
           batchTransformer flushed to_writer dbWriter session map app
           EmployeeTransformer.feed BatchTransformer.feed fst snd List.length].
    rewrite Ef. cbn [fst snd app]. rewrite app_nil_r. reflexivity.
  - destruct (to_writer st) as [|batch rest]; [discriminate|].
    destruct (DatabaseWriter._write (DatabaseWriter.ChunkArray batch)
                (dbWriter st) (session st)) as [[dw s] r] eqn:Ew.
    intros [= <-].
    cbn [source recordCount to_transformer employeeTransformer to_batcher
           batchTransformer flushed to_writer dbWriter session].
    assert (Hstep : Runs.write_step (dbWriter st, session st)
                      (DatabaseWriter.ChunkArray batch) = (dw, s))
      by (unfold Runs.write_step; cbn [fst snd]; now rewrite Ew).
    rewrite <- app_comm_cons. cbn [map].
    unfold Runs.write_all. cbn [fold_left]. rewrite Hstep. reflexivity.
Qed.

Lemma exec_remaining (schedule : list Action) :
  forall st st' : State W,
    parsed st -> exec schedule st = Some st' ->
    Runs.remaining st' = Runs.remaining st.
Proof.
  induction schedule as [|a schedule IH]; intros st st' Hp; cbn [exec].
  - now intros [= <-].
  - destruct (step a st) as [st1|] eqn:Es; [|discriminate].
    intro Hx. rewrite (IH _ _ (proj1 (step_parsed _ Hp Es)) Hx).
    exact (step_remaining _ Hp Es).
Qed.

(** Nothing remains to be done in a finished state. *)
Lemma finished_remaining (st : State W) :
  finished st = true ->
  Runs.remaining st
  = Runs.mkOutcome (recordCount st) (employeeTransformer st) (batchTransformer st)
      (dbWriter st) (session st).
Proof.
  unfold finished, Runs.remaining. cbv zeta.
  destruct (source st), (to_transformer st), (to_batcher st), (to_writer st),
    (failure st); try discriminate.
  intros ->. cbn. now rewrite Z.add_0_r.
Qed.

(** From the initial state, the rest of the run is the whole run. *)
Lemma init_remaining (batchSize : Z) (rows : list RawRecord) (w : W) :
  let records := map Rows.validated (map of_record rows) in
  let bt0 :=
    BatchTransformer.constructor
      (BatchTransformer.mkOptions (Some batchSize) (Some true)) in
  let written :=
    Runs.write_all
      (map DatabaseWriter.ChunkArray (BatchTransformer.emitted records bt0))
      (DatabaseWriter.constructor (Some batchSize) 100, mkSession w []) in
  Runs.remaining (init batchSize rows w)
  = Runs.mkOutcome (Z.of_nat (List.length rows))
      (fst (fst (EmployeeTransformer.feed (map of_record rows)
                   EmployeeTransformer.constructor)))
      (fst (fst (BatchTransformer.run records bt0)))
      (fst written) (snd written).
Proof.
  cbv zeta. unfold Runs.remaining, init. cbv zeta.
  cbn [source recordCount to_transformer employeeTransformer to_batcher
         batchTransformer flushed to_writer dbWriter session app].
  destruct (feed_rows rows EmployeeTransformer.constructor) as (et & ->).
  cbn [fst snd]. unfold BatchTransformer.emitted, BatchTransformer.run.
  destruct (BatchTransformer.feed _ _) as [bt1 out1].
  cbn [fst snd].
  destruct (BatchTransformer._flush bt1) as [bt2 out2].
  cbn [fst snd]. reflexivity.
Qed.

Lemma init_parsed (batchSize : Z) (rows : list RawRecord) (w : W) :
  parsed (init batchSize rows w).
Proof. constructor. Qed.

End PipelineOrder.

(** X9.  However the stages of the pipeline interleave, a run that finishes
    ends in the state that running them one after the other gives: the
    counter has seen every row, the transformer is as after validating all
    rows, and the writer and the store are as after writing, in order, the
    batches that the batcher emits for all validated records, flush
    included. *)
Theorem finished_run_is_the_stages_in_sequence :
  forall (W : Type) (D : Db.Driver W) (E : Engine)
         (batchSize : Z) (rows : list RawRecord) (w : W)
         (schedule : list Pipeline.Action) (st : Pipeline.State W),
    Pipeline.exec schedule (Pipeline.init batchSize rows w) = Some st ->
    Pipeline.finished st = true ->
    let chunks := map of_record rows in
    let records := map Rows.validated chunks in
    let batches :=
      Transformer.BatchTransformer.emitted records
        (Transformer.BatchTransformer.constructor
           (Transformer.BatchTransformer.mkOptions (Some batchSize) (Some true))) in
    Pipeline.recordCount st = Z.of_nat (List.length rows)
    /\ Pipeline.employeeTransformer st
       = fst (fst (Transformer.EmployeeTransformer.feed chunks
                     Transformer.EmployeeTransformer.constructor))
    /\ (Pipeline.dbWriter st, Pipeline.session st)
       = Runs.write_all (map DatabaseWriter.ChunkArray batches)
           (DatabaseWriter.constructor (Some batchSize) 100, Db.mkSession w []).
Proof.
  intros W D E batchSize rows w schedule st Hx Hfin. cbv zeta.
  pose proof (exec_remaining _ (init_parsed batchSize rows w) Hx) as Hrem.
  rewrite (finished_remaining _ Hfin), init_remaining in Hrem.
  cbv zeta in Hrem. injection Hrem as Hc Het _ Hdw Hs.
  split; [exact Hc|]. split; [exact Het|].
  rewrite Hdw, Hs. now destruct (Runs.write_all _ _).
Qed.

Lemma finished_run_is_the_stages_in_sequence_witness :
  let rows := [Samples.ann; Samples.eve; Samples.bob; Samples.ann] in
  let schedule :=
    [Pipeline.Count; Pipeline.Count; Pipeline.Validate; Pipeline.Count;
     Pipeline.Validate; Pipeline.Batch; Pipeline.Batch; Pipeline.Validate;
     Pipeline.Batch; Pipeline.Write; Pipeline.Count; Pipeline.Validate;
     Pipeline.Batch; Pipeline.Flush; Pipeline.Write] in
  exists st,
    @Pipeline.exec _ MemStore.driver stub_engine schedule
      (Pipeline.init 2 rows Samples.store_with_ann) = Some st
    /\ Pipeline.finished st = true
    /\ Pipeline.recordCount st = 4
    /\ (Pipeline.dbWriter st, Pipeline.session st)
       = @Runs.write_all _ MemStore.driver
           (map DatabaseWriter.ChunkArray
              (Transformer.BatchTransformer.emitted
                 (map (@Rows.validated stub_engine) (map of_record rows))
                 (Transformer.BatchTransformer.constructor
                    (Transformer.BatchTransformer.mkOptions (Some 2) (Some true)))))
           (DatabaseWriter.constructor (Some 2) 100,
            Db.mkSession Samples.store_with_ann []).
Proof.
  intros rows schedule.
  destruct (@Pipeline.exec _ MemStore.driver stub_engine schedule
              (Pipeline.init 2 rows Samples.store_with_ann)) as [st|] eqn:Hx;
    [|vm_compute in Hx; discriminate Hx].
  exists st.
  assert (Hfin : Pipeline.finished st = true).
  { vm_compute in Hx. injection Hx as <-. reflexivity. }
  destruct (@finished_run_is_the_stages_in_sequence _ MemStore.driver stub_engine
              2 rows Samples.store_with_ann schedule st Hx Hfin) as (Hc & _ & Hw).
  split; [reflexivity|]. split; [exact Hfin|]. split; [exact Hc | exact Hw].
Defined.

Section SummaryFacts.
Context {W : Type} {D : Db.Driver W} {E : Engine}.

Import Db Transformer Pipeline.

Lemma count_valid_validated (chunks : list Value) :
  count_valid (map Rows.validated chunks)
  = Z.of_nat (List.length
                (filter (fun chunk => Validator.isValid (Rows.outcome chunk)) chunks)).
Proof.
  unfold count_valid. f_equal.
  induction chunks as [|chunk chunks IH]; [reflexivity|].
  cbn [map filter]. change (valid (Rows.validated chunk))
    with (Validator.isValid (Rows.outcome chunk)).
  destruct (Validator.isValid (Rows.outcome chunk)); cbn [List.length]; now rewrite IH.
Qed.

Lemma records_of_arrays (batches : list BatchTransformer.Batch) :
  map DatabaseWriter.records_of (map DatabaseWriter.ChunkArray batches) = batches.
Proof. rewrite map_map. apply map_id. Qed.

(** The counters of the writer and of the transformer after the stages
    were run one after the other on parsed rows. *)
Lemma sequence_totals (batchSize : Z) (rows : list RawRecord) (s : Session W) :
  let chunks := map of_record rows in
  let et := fst (fst (EmployeeTransformer.feed chunks EmployeeTransformer.constructor)) in
  let batches :=
    BatchTransformer.emitted (map Rows.validated chunks)
      (BatchTransformer.constructor
         (BatchTransformer.mkOptions (Some batchSize) (Some true))) in
  let dw :=
    fst (Runs.write_all (map DatabaseWriter.ChunkArray batches)
           (DatabaseWriter.constructor (Some batchSize) 100, s)) in
  EmployeeTransformer.valid (EmployeeTransformer.stats et)
  + EmployeeTransformer.invalid (EmployeeTransformer.stats et)
  = Z.of_nat (List.length rows)
  /\ EmployeeTransformer.valid (EmployeeTransformer.stats et)
     = Z.of_nat (List.length
                   (filter (fun chunk => Validator.isValid (Rows.outcome chunk)) chunks))
  /\ DatabaseWriter.totalProcessed (DatabaseWriter.stats dw)
     = EmployeeTransformer.valid (EmployeeTransformer.stats et)
  /\ Z.of_nat (List.length (DatabaseWriter.errors (DatabaseWriter.stats dw)))
     = DatabaseWriter.failedInserts (DatabaseWriter.stats dw).
Proof.
  cbv zeta.
  destruct (feed_of_records rows EmployeeTransformer.constructor)
    as (et & out & Hfeed & _ & Hsum & _ & _).
  destruct (feed_rows rows EmployeeTransformer.constructor) as (et' & Hfeed').
  pose proof (feed_valid_count _ _ Hfeed') as Hvalid.
  rewrite Hfeed' in Hfeed. injection Hfeed as <- _.
  rewrite Hfeed'. cbn [fst snd].
  cbn [EmployeeTransformer.constructor EmployeeTransformer.stats
         EmployeeTransformer.valid EmployeeTransformer.invalid] in Hsum, Hvalid.
  rewrite count_valid_validated in Hvalid.
  match goal with
  | |- context [Runs.write_all ?cs ?acc] =>
      destruct (@write_all_keeps W D cs acc) as (He & _ & Ht)
  end.
  rewrite records_of_arrays in Ht.
  destruct (@emitted_validOnly (Some batchSize) (Some true)
              (map Rows.validated (map of_record rows)) eq_refl) as (Hc & _).
  rewrite Hc in Ht.
  fold (count_valid (map Rows.validated (map of_record rows))) in Ht.
  rewrite count_valid_validated in Ht.
  cbn [fst DatabaseWriter.constructor DatabaseWriter.stats DatabaseWriter.errors
         DatabaseWriter.failedInserts DatabaseWriter.totalProcessed List.length] in He, Ht.
  split; [lia|]. split; [lia|]. split; lia.
Qed.

End SummaryFacts.

(** X10.  The totals [processEmployeeFile] reports after a finished run, in
    whatever order the stages ran: [totalRecords] is the number of rows of
    the file and equals [validRecords + invalidRecords]; [validRecords] is
    the number of rows the validator accepts; the writer has processed
    exactly the valid records, no invalid row reaches it; and it holds one
    error entry per failed insert. *)
Theorem summary_counts_every_row_once :
  forall (W : Type) (D : Db.Driver W) (E : Engine)
         (batchSize : Z) (rows : list RawRecord) (w : W)
         (schedule : list Pipeline.Action) (st : Pipeline.State W),
    Pipeline.exec schedule (Pipeline.init batchSize rows w) = Some st ->
    Pipeline.finished st = true ->
    Pipeline.recordCount st = Z.of_nat (List.length rows)
    /\ Pipeline.validRecords st + Pipeline.invalidRecords st = Pipeline.recordCount st
    /\ Pipeline.validRecords st
       = Z.of_nat (List.length
                     (filter (fun row => Validator.isValid (Rows.outcome (of_record row)))
                        rows))
    /\ DatabaseWriter.totalProcessed (DatabaseWriter.getStats (Pipeline.dbWriter st))
       = Pipeline.validRecords st
    /\ Z.of_nat (List.length
                   (DatabaseWriter.errors (DatabaseWriter.getStats (Pipeline.dbWriter st))))
       = Pipeline.failedRecords st.
Proof.
  intros W D E batchSize rows w schedule st Hx Hfin.
  pose proof (exec_remaining _ (init_parsed batchSize rows w) Hx) as Hrem.
  rewrite (finished_remaining _ Hfin), init_remaining in Hrem.
  cbv zeta in Hrem. injection Hrem as Hc Het _ Hdw _.
  destruct (@sequence_totals W D E batchSize rows (Db.mkSession w []))
    as (Hsum & Hvalid & Htotal & Herr).
  unfold Pipeline.validRecords, Pipeline.invalidRecords, Pipeline.failedRecords,
    DatabaseWriter.getStats, Transformer.EmployeeTransformer.getStats.
  rewrite Hc, Het, Hdw.
  split; [reflexivity|]. split; [exact Hsum|].
  split; [|split; [exact Htotal | exact Herr]].
  rewrite Hvalid. f_equal.
  clear. induction rows as [|row rows IH]; [reflexivity|].
  cbn [map filter].
  destruct (Validator.isValid (Rows.outcome (of_record row))); cbn [List.length];
    now rewrite IH.
Qed.

Lemma summary_counts_every_row_once_witness :
  let rows := [Samples.ann; Samples.eve; Samples.bob; Samples.ann] in
  let schedule :=
    [Pipeline.Count; Pipeline.Validate; Pipeline.Batch; Pipeline.Count;
     Pipeline.Validate; Pipeline.Batch; Pipeline.Count; Pipeline.Validate;
     Pipeline.Batch; Pipeline.Count; Pipeline.Validate; Pipeline.Batch;
     Pipeline.Flush; Pipeline.Write; Pipeline.Write] in
  exists st,
    @Pipeline.exec _ MemStore.driver stub_engine schedule
      (Pipeline.init 2 rows Samples.store_with_ann) = Some st
    /\ Pipeline.finished st = true
    /\ Pipeline.recordCount st = 4
    /\ Pipeline.validRecords st + Pipeline.invalidRecords st = Pipeline.recordCount st
    /\ DatabaseWriter.totalProcessed (DatabaseWriter.getStats (Pipeline.dbWriter st))
       = Pipeline.validRecords st.
Proof.
  intros rows schedule.
  destruct (@Pipeline.exec _ MemStore.driver stub_engine schedule
              (Pipeline.init 2 rows Samples.store_with_ann)) as [st|] eqn:Hx;
    [|vm_compute in Hx; discriminate Hx].
  exists st.
  assert (Hfin : Pipeline.finished st = true).
  { vm_compute in Hx. injection Hx as <-. reflexivity. }
  destruct (@summary_counts_every_row_once _ MemStore.driver stub_engine
              2 rows Samples.store_with_ann schedule st Hx Hfin)
    as (Hc & Hsum & _ & Ht & _).
  split; [reflexivity|]. split; [exact Hfin|].
  split; [exact Hc|]. split; [exact Hsum | exact Ht].
Defined.

(** ** MemoryMonitor: the events over time *)

Section MonitorEvents.

Import MemoryMonitor.

Lemma alternates_app (out1 : list Emitted) :
  forall (b : bool) (out2 : list Emitted),
    Runs.alternates b (out1 ++ out2)
    = Runs.alternates b out1 && Runs.alternates (Runs.flag_after b out1) out2.
Proof.
  induction out1 as [|e out1 IH]; intros b out2; [reflexivity|].
  destruct e; cbn [app Runs.alternates Runs.flag_after]; rewrite IH;
    now rewrite ?andb_assoc.
Qed.

Lemma flag_after_app (out1 : list Emitted) :
  forall (b : bool) (out2 : list Emitted),
    Runs.flag_after b (out1 ++ out2) = Runs.flag_after (Runs.flag_after b out1) out2.
Proof.
  induction out1 as [|e out1 IH]; intros b out2; [reflexivity|].
  destruct e; cbn [app Runs.flag_after]; apply IH.
Qed.

(** One [_onMemoryUpdate]: at most one threshold event, in step with the
    flag, followed by the ['memory-update']. *)
Lemma onMemoryUpdate_events (memoryInfo : MemoryGraph.MemoryInfo) (this : t) :
  let T := thresholdMB (options this) in
  let r := _onMemoryUpdate memoryInfo this in
  Runs.alternates (throttling this) (snd r) = true
  /\ throttling (fst r) = Runs.flag_after (throttling this) (snd r)
  /\ Forall (Runs.justified T) (snd r)
  /\ options (fst r) = options this.
Proof.
  cbv zeta. unfold _onMemoryUpdate.
  destruct (PrimFloat.ltb (thresholdMB (options this)) (MemoryGraph.heap_used memoryInfo))
    eqn:Habove.
  - destruct (throttling this) eqn:Hth; cbn [negb andb].
    + cbn. rewrite Hth. repeat split; auto. repeat constructor.
    + destruct (autoThrottle (options this)); cbn; rewrite ?Hth;
        repeat split; auto; repeat constructor; auto.
  - destruct (throttling this) eqn:Hth; cbn [andb].
    + destruct (PrimFloat.ltb (MemoryGraph.heap_used memoryInfo) _) eqn:Hbelow;
        cbn; rewrite ?Hth; repeat split; auto; repeat constructor; auto.
    + cbn. rewrite Hth. repeat split; auto. repeat constructor.
Qed.

Lemma tick_events (u : MemoryGraph.MemoryUsage) (this : t) :
  let T := thresholdMB (options this) in
  let r := tick u this in
  Runs.alternates (throttling this) (snd r) = true
  /\ throttling (fst r) = Runs.flag_after (throttling this) (snd r)
  /\ Forall (Runs.justified T) (snd r)
  /\ options (fst r) = options this.
Proof.
  cbv zeta. unfold tick.
  destruct (MemoryGraph.running (memoryGraph this)); cbn [negb].
  - destruct (MemoryGraph._captureMemoryUsage u (memoryGraph this)) as [g info].
    destruct (running this).
    + exact (onMemoryUpdate_events info (mk (options this) g true (throttling this))).
    + cbn. repeat split; auto.
  - cbn. repeat split; auto.
Qed.

Lemma tick_all_events (usages : list MemoryGraph.MemoryUsage) :
  forall this : t,
    let T := thresholdMB (options this) in
    let r := Runs.tick_all usages this in
    Runs.alternates (throttling this) (snd r) = true
    /\ throttling (fst r) = Runs.flag_after (throttling this) (snd r)
    /\ Forall (Runs.justified T) (snd r)
    /\ options (fst r) = options this.
Proof.
  induction usages as [|u usages IH]; intro this; cbv zeta.
  - cbn. repeat split; auto.
  - cbn [Runs.tick_all].
    destruct (tick_events u this) as (Ha1 & Hf1 & Hj1 & Ho1).
    destruct (tick u this) as [this1 out1]. cbn [fst snd] in *.
    destruct (IH this1) as (Ha2 & Hf2 & Hj2 & Ho2).
    destruct (Runs.tick_all usages this1) as [this2 out2]. cbn [fst snd] in *.
    rewrite alternates_app, flag_after_app, Ha1, <- Hf1, Ha2, Hf2.
    rewrite Ho1 in Hj2.
    repeat split; auto; [apply Forall_app; now split | congruence].
Qed.

(** A monitor that does not throttle emits one ['memory-update'] per
    reading and keeps its flag off. *)
Lemma tick_without_throttle (u : MemoryGraph.MemoryUsage) (this : t) :
  autoThrottle (options this) = false ->
  throttling this = false ->
  running this = true ->
  MemoryGraph.running (memoryGraph this) = true ->
  let r := tick u this in
  snd r = [memory_update (Runs.info_of u)]
  /\ autoThrottle (options (fst r)) = false
  /\ throttling (fst r) = false
  /\ running (fst r) = true
  /\ MemoryGraph.running (memoryGraph (fst r)) = true.
Proof.
  intros Hauto Hth Hrun Hg. cbv zeta. unfold tick. rewrite Hg, Hrun. cbn [negb].
  unfold MemoryGraph._captureMemoryUsage, _onMemoryUpdate.
  cbn [options throttling running memoryGraph MemoryGraph.heap_used].
  rewrite Hauto, Hth. cbn [negb andb].
  destruct (PrimFloat.ltb _ _); cbn; rewrite ?Hauto, ?Hth, ?Hg; auto.
Qed.

End MonitorEvents.

(** X11.  Over any sequence of timer firings, from any state of the
    monitor: ['threshold-exceeded'] and ['threshold-restored'] alternate,
    the first being ['threshold-exceeded'] when the flag is off and
    ['threshold-restored'] when it is on; [isThrottling()] afterwards is what
    the last threshold event says (the initial flag if there was none); and
    each event carries the configured threshold and a reading above it, or
    below 0.8 times it, respectively. *)
Theorem threshold_events_alternate :
  forall (usages : list MemoryGraph.MemoryUsage) (this : MemoryMonitor.t),
    let T := MemoryMonitor.thresholdMB (MemoryMonitor.options this) in
    let this' := fst (Runs.tick_all usages this) in
    let out := snd (Runs.tick_all usages this) in
    Runs.alternates (MemoryMonitor.isThrottling this) out = true
    /\ MemoryMonitor.isThrottling this'
       = Runs.flag_after (MemoryMonitor.isThrottling this) out
    /\ Forall (Runs.justified T) out.
Proof.
  intros usages this. cbv zeta. unfold MemoryMonitor.isThrottling.
  destruct (tick_all_events usages this) as (Ha & Hf & Hj & _).
  split; [exact Ha|]. split; [exact Hf | exact Hj].
Qed.

(** X12.  A monitor built with [autoThrottle: false] and started never
    throttles and never emits a threshold event, however high the readings:
    every timer firing emits exactly the ['memory-update'] of its
    reading. *)
Theorem no_throttling_without_autoThrottle :
  forall (opt_thresholdMB : option float) (env_thresholdMB : float)
         (usages : list MemoryGraph.MemoryUsage),
    let this :=
      MemoryMonitor.start
        (MemoryMonitor.constructor opt_thresholdMB (Some false) env_thresholdMB) in
    MemoryMonitor.isThrottling (fst (Runs.tick_all usages this)) = false
    /\ snd (Runs.tick_all usages this)
       = map (fun u => MemoryMonitor.memory_update (Runs.info_of u)) usages.
Proof.
  intros opt_T env usages. cbv zeta. unfold MemoryMonitor.isThrottling.
  set (this := MemoryMonitor.start _).
  assert (Hinv : MemoryMonitor.autoThrottle (MemoryMonitor.options this) = false
                 /\ MemoryMonitor.throttling this = false
                 /\ MemoryMonitor.running this = true
                 /\ MemoryGraph.running (MemoryMonitor.memoryGraph this) = true)
    by (repeat split; reflexivity).
  clearbody this. revert this Hinv.
  induction usages as [|u usages IH]; intros this (Hauto & Hth & Hrun & Hg).
  - split; [exact Hth | reflexivity].
  - cbn [Runs.tick_all map].
    destruct (tick_without_throttle u this Hauto Hth Hrun Hg) as (Hout & Hinv1).
    destruct (MemoryMonitor.tick u this) as [this1 out1]. cbn [fst snd] in Hout, Hinv1.
    destruct (IH this1 Hinv1) as (Hth2 & Hout2).
    destruct (Runs.tick_all usages this1) as [this2 out2]. cbn [fst snd] in *.
    split; [exact Hth2|]. now rewrite Hout, Hout2.
Qed.

(** ** MemoryGraph: the four series *)

Section GraphSeries.

Import MemorySpec.

Lemma update_collection_most_recent (n : Z) (xs : list float) (v : float) :
  MemoryGraph.update_collection n (most_recent (Z.to_nat n) xs) v
  = most_recent (Z.to_nat n) (xs ++ [v]).
Proof.
  destruct (Z.le_gt_cases 1 n) as [Hn | Hn].
  - rewrite <- (Z2Nat.id n) at 1 by lia.
    apply update_collection_recent. lia.
  - replace (Z.to_nat n) with 0%nat by lia.
    unfold most_recent, MemoryGraph.update_collection.
    rewrite !Nat.sub_0_r, !skipn_all. cbn [app List.length].
    replace (Z.gtb (Z.of_nat 1) n) with true; [reflexivity|].
    symmetry. rewrite Z.gtb_ltb. apply Z.ltb_lt. lia.
Qed.

Lemma series_snoc (reading : MemoryGraph.MemoryUsage -> float)
    (seen : list MemoryGraph.MemoryUsage) (u : MemoryGraph.MemoryUsage) :
  Runs.series reading (seen ++ [u])
  = Runs.series reading seen ++ [MemoryGraph._bytesToMB (reading u)].
Proof. unfold Runs.series. now rewrite map_app. Qed.

(** What the graph holds after the samples [seen]. *)
Lemma captures_series (usages : list MemoryGraph.MemoryUsage) :
  forall (seen : list MemoryGraph.MemoryUsage) (g : MemoryGraph.t),
    let n := Z.to_nat (MemoryGraph.maxDataPoints g) in
    MemoryGraph.memoryData g
    = MemoryGraph.mkData
        (most_recent n (Runs.series MemoryGraph.mu_heapUsed seen))
        (most_recent n (Runs.series MemoryGraph.mu_heapTotal seen))
        (most_recent n (Runs.series MemoryGraph.mu_rss seen))
        (most_recent n (Runs.series MemoryGraph.mu_external seen)) ->
    MemoryGraph.maxDataPoints (Runs.captures usages g) = MemoryGraph.maxDataPoints g
    /\ MemoryGraph.memoryData (Runs.captures usages g)
       = MemoryGraph.mkData
           (most_recent n (Runs.series MemoryGraph.mu_heapUsed (seen ++ usages)))
           (most_recent n (Runs.series MemoryGraph.mu_heapTotal (seen ++ usages)))
           (most_recent n (Runs.series MemoryGraph.mu_rss (seen ++ usages)))
           (most_recent n (Runs.series MemoryGraph.mu_external (seen ++ usages))).
Proof.
  induction usages as [|u usages IH]; intros seen g; cbv zeta; intro Hd.
  - rewrite app_nil_r. split; [reflexivity | exact Hd].
  - unfold Runs.captures. cbn [fold_left]. fold (Runs.captures usages).
    set (g1 := fst (MemoryGraph._captureMemoryUsage u g)).
    assert (Hn : MemoryGraph.maxDataPoints g1 = MemoryGraph.maxDataPoints g)
      by reflexivity.
    destruct (IH (seen ++ [u]) g1) as (Hn2 & Hd2).
    + rewrite Hn. unfold g1, MemoryGraph._captureMemoryUsage.
      cbn [fst MemoryGraph.memoryData]. rewrite Hd.
      cbn [MemoryGraph.heapUsed MemoryGraph.heapTotal MemoryGraph.rss
             MemoryGraph.external].
      rewrite !update_collection_most_recent, !series_snoc. reflexivity.
    + rewrite Hn in Hn2, Hd2. rewrite <- app_assoc in Hd2.
      split; [exact Hn2 | exact Hd2].
Qed.

End GraphSeries.

(** X13.  After any number of samples a graph built by the constructor
    holds, in each of its four series (heapUsed, heapTotal, rss, external),
    the most recent [maxDataPoints] readings in megabytes, oldest first (none
    at all when [maxDataPoints] is negative); the four series have the same
    length, the smaller of the number of samples and [maxDataPoints]. *)
Theorem graph_keeps_the_latest_readings :
  forall (opt_maxDataPoints : option Z) (usages : list MemoryGraph.MemoryUsage),
    let g0 := MemoryGraph.start (MemoryGraph.constructor opt_maxDataPoints) in
    let n := Z.to_nat (MemoryGraph.maxDataPoints g0) in
    let d := MemoryGraph.memoryData (Runs.captures usages g0) in
    MemoryGraph.heapUsed d
    = MemorySpec.most_recent n (Runs.series MemoryGraph.mu_heapUsed usages)
    /\ MemoryGraph.heapTotal d
       = MemorySpec.most_recent n (Runs.series MemoryGraph.mu_heapTotal usages)
    /\ MemoryGraph.rss d
       = MemorySpec.most_recent n (Runs.series MemoryGraph.mu_rss usages)
    /\ MemoryGraph.external d
       = MemorySpec.most_recent n (Runs.series MemoryGraph.mu_external usages)
    /\ List.length (MemoryGraph.heapUsed d) = Nat.min n (List.length usages)
    /\ List.length (MemoryGraph.heapTotal d) = List.length (MemoryGraph.heapUsed d)
    /\ List.length (MemoryGraph.rss d) = List.length (MemoryGraph.heapUsed d)
    /\ List.length (MemoryGraph.external d) = List.length (MemoryGraph.heapUsed d).
Proof.
  intros opt usages. cbv zeta.
  destruct (@captures_series usages []
              (MemoryGraph.start (MemoryGraph.constructor opt)) eq_refl) as (_ & Hd).
  cbn [app] in Hd. rewrite Hd.
  cbn [MemoryGraph.heapUsed MemoryGraph.heapTotal MemoryGraph.rss MemoryGraph.external].
  unfold MemorySpec.most_recent, Runs.series.
  rewrite !length_skipn, !length_map.
  repeat split; lia.
Qed.

(** ** The pipeline: what is sent to the store *)

Section SentToTheStore.
Context {W : Type} {D : Db.Driver W} {E : Engine}.

Import Db Transformer Pipeline.

Lemma sent_insert_events (es : list Value) :
  incl (flat_map Runs.sent (flat_map Employee.insert_events es)) es.
Proof.
  induction es as [|e es IH]; [intros x []|].
  cbn [flat_map]. rewrite flat_map_app. unfold Employee.insert_events at 1.
  destruct (Employee.bindable e); cbn [flat_map Runs.sent app].
  - intros x [<- | Hx]; [now left | right; now apply IH].
  - intros x Hx. right. now apply IH.
Qed.

(** One [_write] sends nothing but valid records of its chunk. *)
Lemma write_sent (chunk : DatabaseWriter.Chunk) (this : DatabaseWriter.t)
    (s : Session W) :
  exists calls,
    log (snd (fst (DatabaseWriter._write chunk this s))) = log s ++ calls
    /\ incl (flat_map Runs.sent calls)
         (DatabaseWriter.validEmployees (DatabaseWriter.records_of chunk)).
Proof.
  unfold DatabaseWriter._write.
  set (es := DatabaseWriter.validEmployees (DatabaseWriter.records_of chunk)).
  destruct (Nat.eqb (List.length (DatabaseWriter.records_of chunk)) 0).
  { exists []. cbn. rewrite app_nil_r. split; [reflexivity | intros x []]. }
  destruct (Nat.eqb (List.length es) 0).
  { exists []. cbn. rewrite app_nil_r. split; [reflexivity | intros x []]. }
  destruct (Employee.batchInsert es s) as [s1 [ids | dbError]] eqn:Eb.
  - cbn [fst snd].
    destruct (batchInsert_success_log _ _ Eb) as [(_ & -> & _) | (_ & Hlog)].
    + exists []. rewrite app_nil_r. split; [reflexivity | intros x []].
    + eexists. split; [exact Hlog|]. cbn. rewrite app_nil_r. apply incl_refl.
  - match goal with
    | |- context [fold_left DatabaseWriter.fallback_one es (?st0, s1)] =>
        pose proof (fallback_effect es st0 s1) as Hf;
        destruct (fold_left DatabaseWriter.fallback_one es (st0, s1)) as [st2 s2]
    end.
    cbn [fst snd] in Hf |- *. destruct Hf as (_ & _ & _ & _ & Hlog2).
    destruct (batchInsert_failure_log _ _ Eb) as (_ & [Hlog | (mid & Hmid & Hlog)]).
    + eexists. split; [rewrite Hlog2, Hlog, <- app_assoc; reflexivity|].
      cbn [app flat_map Runs.sent]. apply sent_insert_events.
    + eexists. split; [rewrite Hlog2, Hlog, <- app_assoc; reflexivity|].
      rewrite !flat_map_app. cbn [flat_map Runs.sent app].
      intros x Hx. apply in_app_or in Hx. destruct Hx as [Hx | Hx].
      * destruct Hmid as [-> | [-> | ->]]; cbn in Hx;
          rewrite ?app_nil_r in Hx; [destruct Hx | exact Hx | exact Hx].
      * now apply sent_insert_events.
Qed.

Variable rows : list RawRecord.

Lemma valid_pushed_accepted (batch : list ValidatedRecord) :
  Forall (Runs.pushed rows) batch ->
  Forall (Runs.accepted rows) (DatabaseWriter.validEmployees batch).
Proof.
  unfold DatabaseWriter.validEmployees.
  induction 1 as [|r batch (row & Hin & ->) _ IH]; [constructor|].
  cbn [filter]. destruct (valid (Rows.validated (of_record row))) eqn:Hv; [|exact IH].
  cbn [map]. constructor; [|exact IH].
  exists row. repeat split; [exact Hin | exact Hv].
Qed.

Lemma step_from_the_file (a : Action) (st st' : State W) :
  Runs.from_the_file rows st -> step a st = Some st' ->
  Runs.from_the_file rows st'.
Proof.
  unfold Runs.from_the_file, step.
  intros (Hsrc & Htt & Htb & Hcb & Htw & Hlog).
  destruct (failure st); [discriminate|].
  destruct a.
  - destruct (source st) as [|row rest]; [discriminate|]. intros [= <-].
    cbn [source to_transformer to_batcher batchTransformer to_writer session].
    split; [intros x Hx; apply Hsrc; now right|].
    split; [|now repeat split].
    apply Forall_app. split; [exact Htt|].
    constructor; [|constructor]. exists row. split; [apply Hsrc; now left | reflexivity].
  - destruct (to_transformer st) as [|chunk rest]; [discriminate|].
    inversion Htt as [|? ? (row & Hin & ->) Hrest]; subst.
    destruct (validateEmployee_of_record row) as [o Ho].
    rewrite (@transform_validated E (of_record row) o (employeeTransformer st) Ho).
    intros [= <-].
    cbn [source to_transformer to_batcher batchTransformer to_writer session].
    split; [exact Hsrc|]. split; [exact Hrest|].
    split; [|now repeat split].
    apply Forall_app. split; [exact Htb|].
    constructor; [|constructor]. now exists row.
  - destruct (to_batcher st) as [|chunk rest]; [discriminate|].
    inversion Htb as [|? ? Hchunk Hrest]; subst.
    destruct (BatchTransformer._transform chunk (batchTransformer st)) as [bt out] eqn:Eb.
    destruct (transform_concat _ _ Eb) as (_ & _ & Hc).
    assert (Hall : Forall (Runs.pushed rows)
                     (List.concat out ++ BatchTransformer.currentBatch bt)).
    { rewrite Hc. apply Forall_app. split; [exact Hcb|].
      cbn [filter]. destruct (BatchTransformer.keeps _ chunk); repeat constructor.
      exact Hchunk. }
    apply Forall_app in Hall. destruct Hall as [Hout Hcb'].
    intros [= <-].
    cbn [source to_transformer to_batcher batchTransformer to_writer session].
    split; [exact Hsrc|]. split; [exact Htt|]. split; [exact Hrest|].
    split; [exact Hcb'|]. split; [|exact Hlog].
    apply Forall_app. split; [exact Htw|]. now apply Forall_concat.
  - destruct (source st), (to_transformer st), (to_batcher st), (flushed st);
      try discriminate.
    unfold BatchTransformer._flush.
    destruct (Z.gtb _ 0); intros [= <-];
      cbn [source to_transformer to_batcher batchTransformer to_writer session
             BatchTransformer.currentBatch];
      (split; [exact Hsrc|]); (split; [constructor|]); (split; [constructor|]).
    + split; [constructor|]. split; [|exact Hlog].
      apply Forall_app. split; [exact Htw|]. constructor; [exact Hcb | constructor].
    + split; [exact Hcb|]. split; [|exact Hlog]. now rewrite app_nil_r.
  - destruct (to_writer st) as [|batch rest]; [discriminate|].
    inversion Htw as [|? ? Hbatch Hrest]; subst.
    destruct (write_sent (DatabaseWriter.ChunkArray batch) (dbWriter st) (session st))
      as (calls & Hcalls & Hincl).
    destruct (DatabaseWriter._write (DatabaseWriter.ChunkArray batch)
                (dbWriter st) (session st)) as [[dw s] r].
    cbn [fst snd] in Hcalls. intros [= <-].
    cbn [source to_transformer to_batcher batchTransformer to_writer session].
    split; [exact Hsrc|]. split; [exact Htt|]. split; [exact Htb|].
    split; [exact Hcb|]. split; [exact Hrest|].
    rewrite Hcalls, flat_map_app. apply Forall_app. split; [exact Hlog|].
    pose proof (valid_pushed_accepted Hbatch) as Hacc.
    rewrite Forall_forall in Hacc |- *.
    intros x Hx. apply Hacc, Hincl, Hx.
Qed.

Lemma exec_from_the_file (schedule : list Action) :
  forall st st' : State W,
    Runs.from_the_file rows st -> exec schedule st = Some st' ->
    Runs.from_the_file rows st'.
Proof.
  induction schedule as [|a schedule IH]; intros st st' Hinv; cbn [exec].
  - now intros [= <-].
  - destruct (step a st) as [st1|] eqn:Es; [|discriminate].
    apply IH. exact (step_from_the_file _ Hinv Es).
Qed.

Lemma reachable_sent (batchSize : Z) (w : W) (schedule : list Action) (st : State W) :
  exec schedule (init batchSize rows w) = Some st ->
  Forall (Runs.accepted rows) (flat_map Runs.sent (log (session st))).
Proof.
  intro Hx.
  assert (Hinit : Runs.from_the_file rows (init batchSize rows w)).
  { unfold Runs.from_the_file, init.
    cbn [source to_transformer to_batcher batchTransformer to_writer session log
           flat_map].
    split; [apply incl_refl|]. repeat split; constructor. }
  exact (proj2 (proj2 (proj2 (proj2 (proj2 (exec_from_the_file _ Hinit Hx)))))).
Qed.

End SentToTheStore.

(** X14.  Only rows of the file that the validator accepts are ever sent
    to the store: in every state a run can reach, whatever the store answers
    and whether a batch succeeded or fell back to single inserts, each INSERT
    in the record of calls, on the pool or on a client, lists nothing but
    parsed rows of the input for which [validateEmployee] says [isValid]. *)
Theorem only_accepted_rows_are_sent :
  forall (W : Type) (D : Db.Driver W) (E : Engine)
         (batchSize : Z) (rows : list RawRecord) (w : W)
         (schedule : list Pipeline.Action) (st : Pipeline.State W),
    Pipeline.exec schedule (Pipeline.init batchSize rows w) = Some st ->
    forall (ev : Db.Event) (es : list Value),
      In ev (Db.log (Pipeline.session st)) ->
      ev = Db.EPoolQuery (Db.INSERT es) \/ ev = Db.EClientQuery (Db.INSERT es) ->
      Forall (fun e =>
                exists row,
                  In row rows /\ e = of_record row
                  /\ Validator.isValid (Rows.outcome (of_record row)) = true) es.
Proof.
  intros W D E batchSize rows w schedule st Hx ev es Hin Hev.
  pose proof (reachable_sent rows batchSize w schedule Hx) as Hsent.
  rewrite Forall_forall in Hsent |- *.
  intros e He. apply Hsent. apply in_flat_map. exists ev. split; [exact Hin|].
  destruct Hev as [-> | ->]; exact He.
Qed.

Lemma only_accepted_rows_are_sent_witness :
  let rows := [Samples.ann; Samples.eve; Samples.bob; Samples.ann] in
  let schedule :=
    [Pipeline.Count; Pipeline.Count; Pipeline.Validate; Pipeline.Count;
     Pipeline.Validate; Pipeline.Batch; Pipeline.Batch; Pipeline.Validate;
     Pipeline.Batch; Pipeline.Write] in
  let es := [of_record Samples.ann; of_record Samples.bob] in
  exists st,
    @Pipeline.exec _ MemStore.driver stub_engine schedule
      (Pipeline.init 2 rows Samples.store_with_ann) = Some st
    /\ In (Db.EClientQuery (Db.INSERT es)) (Db.log (Pipeline.session st))
    /\ Forall (fun e =>
                 exists row,
                   In row rows /\ e = of_record row
                   /\ Validator.isValid (@Rows.outcome stub_engine (of_record row))
                      = true) es.
Proof.
  intros rows schedule es.
  destruct (@Pipeline.exec _ MemStore.driver stub_engine schedule
              (Pipeline.init 2 rows Samples.store_with_ann)) as [st|] eqn:Hx;
    [|vm_compute in Hx; discriminate Hx].
  exists st.
  assert (Hin : In (Db.EClientQuery (Db.INSERT es)) (Db.log (Pipeline.session st))).
  { vm_compute in Hx. injection Hx as <-. right. right. left. reflexivity. }
  split; [reflexivity|]. split; [exact Hin|].
  exact (@only_accepted_rows_are_sent _ MemStore.driver stub_engine 2 rows
           Samples.store_with_ann schedule st Hx _ es Hin (or_intror eq_refl)).
Defined.

(** ** MemoryGraph: the data of the line chart *)

Section ChartFacts.

Import MemoryChart.

Local Open Scope nat_scope.

Variable label : nat -> string.

(** Past the end the loop adds nothing, whatever the fuel. *)
Lemma xLabels_done (fuel i n step : nat) :
  (n <= i)%nat -> xLabels_from label fuel i n step = [].
Proof.
  intro Hn. destruct fuel as [|fuel]; [reflexivity|]. cbn [xLabels_from].
  destruct (Nat.ltb_spec i n); [lia | reflexivity].
Qed.

(** With a positive step, [n - i] turns are enough: more fuel changes
    nothing. *)
Lemma xLabels_fuel (step n : nat) :
  (1 <= step)%nat ->
  forall fuel fuel' i : nat,
    (n - i <= fuel)%nat -> (n - i <= fuel')%nat ->
    xLabels_from label fuel i n step = xLabels_from label fuel' i n step.
Proof.
  intro Hs. induction fuel as [|fuel IH]; intros fuel' i Hf Hf'.
  - rewrite (@xLabels_done fuel' i n step) by lia. reflexivity.
  - destruct fuel' as [|fuel'].
    + rewrite (@xLabels_done (S fuel) i n step) by lia. reflexivity.
    + cbn [xLabels_from]. destruct (Nat.ltb_spec i n); [|reflexivity].
      f_equal. apply IH; lia.
Qed.

(** Indices that are not multiples of [step] are dropped. *)
Lemma every_skip (step d : nat) :
  forall (i : nat) (arr : list float),
    (forall j, (i <= j < i + d)%nat -> j mod step <> 0%nat) ->
    every step i arr = every step (i + d) (skipn d arr).
Proof.
  induction d as [|d IH]; intros i arr Hj.
  - now rewrite Nat.add_0_r.
  - destruct arr as [|val rest]; [reflexivity|].
    cbn [every skipn].
    destruct (Nat.eqb_spec (i mod step) 0) as [H0 | _];
      [exfalso; apply (Hj i); [lia | exact H0]|].
    rewrite Nat.add_succ_r, <- Nat.add_succ_l. apply IH.
    intros j Hjr. apply Hj. lia.
Qed.

Lemma between_multiples (step i j : nat) :
  i mod step = 0%nat -> (i < j < i + step)%nat -> j mod step <> 0%nat.
Proof.
  intros Hi Hj.
  assert (Hs : step <> 0%nat) by lia.
  pose proof (Nat.div_mod_eq i step) as Hdiv. rewrite Hi, Nat.add_0_r in Hdiv.
  replace j with ((j - i) + (i / step) * step)%nat by lia.
  rewrite Nat.Div0.mod_add, Nat.mod_small by lia. lia.
Qed.

(** As many labels as points kept. *)
Lemma labels_match_points (step : nat) :
  (1 <= step)%nat ->
  forall (k i fuel : nat) (arr : list float),
    (List.length arr <= k)%nat ->
    i mod step = 0%nat ->
    (List.length arr <= fuel)%nat ->
    List.length (xLabels_from label fuel i (i + List.length arr) step)
    = List.length (every step i arr).
Proof.
  intro Hs. induction k as [|k IH]; intros i fuel arr Hk Hi Hf.
  - destruct arr; [|cbn [List.length] in Hk; lia].
    now rewrite xLabels_done by (cbn [List.length]; lia).
  - destruct arr as [|val rest].
    + now rewrite xLabels_done by (cbn [List.length]; lia).
    + cbn [List.length] in Hk, Hf |- *.
      destruct fuel as [|fuel]; [lia|]. cbn [xLabels_from every].
      destruct (Nat.ltb_spec i (i + S (List.length rest))); [|lia].
      rewrite Hi. cbn [Nat.eqb List.length]. f_equal.
      rewrite (@every_skip step (step - 1) (S i) rest)
        by (intros j Hj; apply (@between_multiples step i j Hi); lia).
      replace (S i + (step - 1))%nat with (i + step)%nat by lia.
      destruct (Nat.le_gt_cases (step - 1) (List.length rest)) as [Hle | Hgt].
      * replace (i + S (List.length rest))%nat
          with ((i + step) + List.length (skipn (step - 1) rest))%nat
          by (rewrite length_skipn; lia).
        apply IH.
        -- rewrite length_skipn. lia.
        -- rewrite <- Nat.Div0.add_mod_idemp_l, Hi, Nat.add_0_l.
           apply Nat.Div0.mod_same.
        -- rewrite length_skipn. lia.
      * rewrite skipn_all2 by lia. rewrite xLabels_done by lia. reflexivity.
Qed.

Lemma step_of_positive (n : nat) : (1 <= step_of n)%nat.
Proof. unfold step_of. lia. Qed.

(** The labels and the kept points of an array as long as [heapUsed]. *)
Lemma chart_aligned (n : nat) (arr : list float) :
  List.length arr = n ->
  List.length (xLabels_from label n 0 n (step_of n))
  = List.length (every (step_of n) 0 (map valid_reading arr)).
Proof.
  intro Hn.
  pose proof (@labels_match_points (step_of n) (step_of_positive n) n 0%nat n
                (map valid_reading arr)) as H.
  rewrite length_map, Hn in H. cbn [Nat.add] in H.
  apply H; [lia | apply Nat.Div0.mod_0_l | lia].
Qed.

End ChartFacts.

(** X15.  For a graph built by the constructor, after any number of
    samples, [_updateChart] hands nothing to the chart when no sample is held
    (or no chart exists), and otherwise three series, Heap Used, Heap Total
    and RSS, each with exactly as many x labels as y points; the label loop
    needs no more turns than there are samples. *)
Theorem chart_series_are_aligned :
  forall (label : nat -> string) (opt_maxDataPoints : option Z)
         (usages : list MemoryGraph.MemoryUsage),
    let g :=
      Runs.captures usages (MemoryGraph.start (MemoryGraph.constructor opt_maxDataPoints)) in
    let n := List.length (MemoryGraph.heapUsed (MemoryGraph.memoryData g)) in
    MemoryChart._updateChart label false g = None
    /\ match MemoryChart._updateChart label true g with
       | None => n = 0%nat
       | Some series =>
           map MemoryChart.title series = ["Heap Used"; "Heap Total"; "RSS"]
           /\ Forall (fun s => List.length (MemoryChart.x s)
                               = List.length (MemoryChart.y s)) series
           /\ Forall (fun s =>
                        forall fuel, (n <= fuel)%nat ->
                          MemoryChart.xLabels_from label fuel 0 n (MemoryChart.step_of n)
                          = MemoryChart.x s) series
       end.
Proof.
  intros label opt usages. cbv zeta.
  destruct (@captures_series usages []
              (MemoryGraph.start (MemoryGraph.constructor opt)) eq_refl) as (_ & Hd).
  cbn [app] in Hd.
  set (g := Runs.captures usages _) in *.
  assert (Hlen : List.length (MemoryGraph.heapTotal (MemoryGraph.memoryData g))
                 = List.length (MemoryGraph.heapUsed (MemoryGraph.memoryData g))
                 /\ List.length (MemoryGraph.rss (MemoryGraph.memoryData g))
                    = List.length (MemoryGraph.heapUsed (MemoryGraph.memoryData g))).
  { rewrite Hd.
    cbn [MemoryGraph.heapUsed MemoryGraph.heapTotal MemoryGraph.rss].
    unfold MemorySpec.most_recent, Runs.series.
    rewrite !length_skipn, !length_map. split; reflexivity. }
  destruct Hlen as (Ht & Hr).
  split; [reflexivity|].
  unfold MemoryChart._updateChart. cbn [negb orb].
  set (n := List.length (MemoryGraph.heapUsed (MemoryGraph.memoryData g))) in *.
  destruct (Nat.eqb_spec n 0) as [H0 | Hpos]; [exact H0|].
  split; [reflexivity|]. split.
  - repeat constructor; cbn [MemoryChart.x MemoryChart.y];
      now apply chart_aligned.
  - repeat constructor; cbn [MemoryChart.x]; intros fuel Hf;
      apply xLabels_fuel; try apply step_of_positive; lia.
Qed.

(** ** Logger: which messages are written *)

Section LoggerFacts.

Import Logger.

(** A line is written exactly when both levels are in the table and the
    message's priority is not below the configured one. *)
Lemma log_written (name message now : string) (this : t) :
  _log name message now this <> []
  <-> exists p q,
        levels name = Some p /\ levels (level (options this)) = Some q /\ q <= p.
Proof.
  unfold _log.
  destruct (levels name) as [p|];
    [|split; [congruence | intros (p & q & Hp & _); discriminate]].
  destruct (levels (level (options this))) as [q|];
    [|split; [congruence | intros (p' & q & _ & Hq & _); discriminate]].
  destruct (Z.geb_spec p q) as [Hge | Hlt].
  - split; [intros _; exists p, q; repeat split; lia|].
    intros _.
    destruct (String.eqb name "debug" || String.eqb name "info"); [discriminate|].
    destruct (String.eqb name "warn"); [discriminate|].
    destruct (String.eqb name "error" || String.eqb name "fatal"); discriminate.
  - split; [congruence|]. intros (p' & q' & [= <-] & [= <-] & Hle). lia.
Qed.

Lemma levels_range (name : string) (p : Z) :
  levels name = Some p -> 0 <= p <= 4.
Proof.
  unfold levels.
  repeat match goal with
         | |- context [String.eqb name ?k] => destruct (String.eqb name k)
         end; intros [= <-]; lia.
Qed.

(** Each method writes with its own console method. *)
Lemma log_console (name message now : string) (this : t) (c : Console) (line : string) :
  In (c, line) (_log name message now this) ->
  line = _format name message now this
  /\ c = (if String.eqb name "warn" then console_warn
          else if String.eqb name "error" || String.eqb name "fatal"
               then console_error else console_log).
Proof.
  unfold _log.
  destruct (levels name) as [p|] eqn:Hp; [|intros []].
  destruct (levels (level (options this))) as [q|]; [|intros []].
  destruct (Z.geb p q); [|intros []].
  unfold levels in Hp.
  destruct (String.eqb_spec name "debug") as [-> | _];
    [cbn; intros [[= <- <-] | []]; now split|].
  destruct (String.eqb_spec name "info") as [-> | _];
    [cbn; intros [[= <- <-] | []]; now split|].
  destruct (String.eqb_spec name "warn") as [-> | _];
    [cbn; intros [[= <- <-] | []]; now split|].
  destruct (String.eqb_spec name "error") as [-> | _];
    [cbn; intros [[= <- <-] | []]; now split|].
  destruct (String.eqb_spec name "fatal") as [-> | _];
    [cbn; intros [[= <- <-] | []]; now split|].
  discriminate Hp.
Qed.

End LoggerFacts.

(** X16.  A logger writes the messages of its configured level and of
    every more severe one: if [debug] writes then so does [info], then
    [warn], then [error], then [fatal].  [fatal] is written exactly when the
    configured level is one of the five names of the table, so a logger
    configured with any other name (a misspelt level, say) writes nothing at
    all, not even [fatal].  What [debug] and [info] write goes to
    [console.log], [warn] to [console.warn], [error] and [fatal] to
    [console.error].  Built without a level, or with the empty string, a
    logger drops [debug] and writes [info]. *)
Theorem logger_writes_from_its_level_up :
  forall (this : Logger.t) (message now : string),
    (Logger.debug message now this <> [] -> Logger.info message now this <> [])
    /\ (Logger.info message now this <> [] -> Logger.warn message now this <> [])
    /\ (Logger.warn message now this <> [] -> Logger.error message now this <> [])
    /\ (Logger.error message now this <> [] -> Logger.fatal message now this <> [])
    /\ (Logger.fatal message now this <> []
        <-> Logger.levels (Logger.level (Logger.options this)) <> None)
    /\ (forall name,
          Logger.levels (Logger.level (Logger.options this)) = None ->
          Logger._log name message now this = [])
    /\ (forall c line,
          In (c, line) (Logger.debug message now this ++ Logger.info message now this) ->
          c = Logger.console_log)
    /\ (forall c line,
          In (c, line) (Logger.warn message now this) -> c = Logger.console_warn)
    /\ (forall c line,
          In (c, line) (Logger.error message now this ++ Logger.fatal message now this) ->
          c = Logger.console_error)
    /\ (forall args,
          Logger.arg_level args = None \/ Logger.arg_level args = Some EmptyString ->
          Logger.debug message now (Logger.constructor args) = []
          /\ Logger.info message now (Logger.constructor args) <> []).
Proof.
  intros this message now.
  unfold Logger.debug, Logger.info, Logger.warn, Logger.error, Logger.fatal.
  assert (Hup : forall a b pa pb,
             Logger.levels a = Some pa -> Logger.levels b = Some pb -> pa <= pb ->
             Logger._log a message now this <> [] ->
             Logger._log b message now this <> []).
  { intros a b pa pb Ha Hb Hle Hw. apply log_written in Hw.
    destruct Hw as (p & q & Hp & Hq & Hqp). apply log_written.
    exists pb, q. rewrite Ha in Hp. injection Hp as <-. repeat split; auto; lia. }
  split; [apply (Hup "debug" "info" 0 1); (reflexivity || lia)|].
  split; [apply (Hup "info" "warn" 1 2); (reflexivity || lia)|].
  split; [apply (Hup "warn" "error" 2 3); (reflexivity || lia)|].
  split; [apply (Hup "error" "fatal" 3 4); (reflexivity || lia)|].
  split.
  { rewrite log_written. split.
    - intros (p & q & _ & Hq & _). congruence.
    - intro Hq. destruct (Logger.levels (Logger.level (Logger.options this)))
        as [q|] eqn:Eq; [|congruence].
      exists 4, q. pose proof (levels_range _ Eq). repeat split; auto; lia. }
  split.
  { intros name Hnone. unfold Logger._log. rewrite Hnone.
    now destruct (Logger.levels name). }
  split; [|split; [|split]].
  - intros c line Hin. apply in_app_or in Hin.
    destruct Hin as [Hin | Hin]; apply log_console in Hin; apply Hin.
  - intros c line Hin. apply log_console in Hin. apply Hin.
  - intros c line Hin. apply in_app_or in Hin.
    destruct Hin as [Hin | Hin]; apply log_console in Hin; apply Hin.
  - intros args Hlevel.
    assert (Hinfo : Logger.level (Logger.options (Logger.constructor args)) = "info")
      by (unfold Logger.constructor; destruct Hlevel as [-> | ->]; reflexivity).
    unfold Logger._log. rewrite Hinfo. split; [reflexivity | discriminate].
Qed.

(** ** The pipeline: no accepted row is lost *)

Section NothingLost.
Context {W : Type} {D : Db.Driver W} {E : Engine}.

Import Db Transformer Pipeline.

Lemma sent_by_insert_events (es : list Value) (e : Value) :
  In e es -> Employee.bindable e = true ->
  In e (flat_map Runs.sent (flat_map Employee.insert_events es)).
Proof.
  intros Hin Hb. apply in_flat_map.
  exists (EPoolQuery (INSERT [e])). split; [|now left].
  apply in_flat_map. exists e. split; [exact Hin|].
  unfold Employee.insert_events. rewrite Hb. now left.
Qed.

(** One [_write] sends every valid record of its chunk, in the batch or,
    after a failed batch, on its own. *)
Lemma write_sends (chunk : DatabaseWriter.Chunk) (this : DatabaseWriter.t)
    (s : Session W) (e : Value) :
  In e (DatabaseWriter.validEmployees (DatabaseWriter.records_of chunk)) ->
  Employee.bindable e = true ->
  exists calls,
    log (snd (fst (DatabaseWriter._write chunk this s))) = log s ++ calls
    /\ In e (flat_map Runs.sent calls).
Proof.
  unfold DatabaseWriter._write.
  set (es := DatabaseWriter.validEmployees (DatabaseWriter.records_of chunk)).
  intros Hin Hb.
  destruct (Nat.eqb_spec (List.length (DatabaseWriter.records_of chunk)) 0) as [Hz | _].
  { exfalso. unfold es, DatabaseWriter.validEmployees in Hin.
    destruct (DatabaseWriter.records_of chunk); [destruct Hin | discriminate Hz]. }
  destruct (Nat.eqb_spec (List.length es) 0) as [Hz | _].
  { exfalso. destruct es; [destruct Hin | discriminate Hz]. }
  destruct (Employee.batchInsert es s) as [s1 [ids | dbError]] eqn:Eb.
  - cbn [fst snd].
    destruct (batchInsert_success_log _ _ Eb) as [(Hnil & _) | (_ & Hlog)].
    + rewrite Hnil in Hin. destruct Hin.
    + eexists. split; [exact Hlog|]. cbn. rewrite app_nil_r. exact Hin.
  - match goal with
    | |- context [fold_left DatabaseWriter.fallback_one es (?st0, s1)] =>
        pose proof (fallback_effect es st0 s1) as Hf;
        destruct (fold_left DatabaseWriter.fallback_one es (st0, s1)) as [st2 s2]
    end.
    cbn [fst snd] in Hf |- *. destruct Hf as (_ & _ & _ & _ & Hlog2).
    assert (Hpre : exists pre, log s1 = log s ++ pre).
    { destruct (batchInsert_failure_log _ _ Eb) as (_ & [Hlog | (mid & _ & Hlog)]);
        eexists; exact Hlog. }
    destruct Hpre as (pre & Hpre).
    exists (pre ++ flat_map Employee.insert_events es).
    split; [rewrite Hlog2, Hpre; now rewrite app_assoc|].
    rewrite flat_map_app. apply in_or_app. right.
    now apply sent_by_insert_events.
Qed.

Variable rows : list RawRecord.

Lemma step_none_lost (a : Action) (st st' : State W) :
  parsed st -> Runs.none_lost rows st -> step a st = Some st' ->
  Runs.none_lost rows st'.
Proof.
  unfold Runs.none_lost, Runs.pending, step, parsed.
  intros Hp Hinv.
  destruct (failure st); [discriminate|].
  destruct a.
  - destruct (source st) as [|row0 rest]; [discriminate|]. intros [= <-] row Hin Hv.
    cbn [source to_transformer to_batcher batchTransformer to_writer session].
    destruct (Hinv row Hin Hv) as [[[<- | Hs] | [Ht | Hb]] | Hsent]; auto.
    + left. right. left. apply in_or_app. right. now left.
    + left. right. left. apply in_or_app. now left.
  - destruct (to_transformer st) as [|chunk rest]; [discriminate|].
    inversion Hp as [|? ? (row0 & ->) Hrest]; subst.
    destruct (validateEmployee_of_record row0) as [o Ho].
    rewrite (@transform_validated E (of_record row0) o (employeeTransformer st) Ho).
    intros [= <-] row Hin Hv.
    cbn [source to_transformer to_batcher batchTransformer to_writer session].
    destruct (Hinv row Hin Hv) as [[Hs | [[Heq | Ht] | Hb]] | Hsent]; auto.
    + left. right. right. rewrite <- Heq, <- app_assoc.
      apply in_or_app. right. now left.
    + left. right. right. rewrite <- app_assoc. apply in_app_or in Hb.
      apply in_or_app. destruct Hb as [Hb | Hb]; [now left | right; now right].
  - destruct (to_batcher st) as [|chunk rest]; [discriminate|].
    destruct (BatchTransformer._transform chunk (batchTransformer st)) as [bt out] eqn:Eb.
    destruct (transform_concat _ _ Eb) as (_ & _ & Hc).
    intros [= <-] row Hin Hv.
    cbn [source to_transformer to_batcher batchTransformer to_writer session].
    destruct (Hinv row Hin Hv) as [[Hs | [Ht | Hb]] | Hsent]; auto.
    left. right. right. rewrite concat_app.
    assert (Hmoved : In (Rows.validated (of_record row))
                       (BatchTransformer.currentBatch (batchTransformer st)
                        ++ filter (BatchTransformer.keeps
                                     (BatchTransformer.validOnly (batchTransformer st)))
                             [chunk]) ->
                     In (Rows.validated (of_record row))
                       (List.concat out ++ BatchTransformer.currentBatch bt))
      by (now rewrite Hc).
    cbn [app] in Hb. destruct Hb as [Heq | Hb].
    + assert (Hk : BatchTransformer.keeps
                     (BatchTransformer.validOnly (batchTransformer st)) chunk = true).
      { unfold BatchTransformer.keeps. rewrite Heq.
        change (valid (Rows.validated (of_record row)))
          with (Validator.isValid (Rows.outcome (of_record row))).
        rewrite Hv. now rewrite andb_false_r. }
      assert (Hm : In (Rows.validated (of_record row))
                     (List.concat out ++ BatchTransformer.currentBatch bt)).
      { apply Hmoved. apply in_or_app. right. cbn [filter]. rewrite Hk. now left. }
      apply in_app_or in Hm. rewrite !in_app_iff. tauto.
    + apply in_app_or in Hb. destruct Hb as [Hb | Hb]; [rewrite !in_app_iff; tauto|].
      apply in_app_or in Hb. destruct Hb as [Hb | Hb]; [|rewrite !in_app_iff; tauto].
      assert (Hm : In (Rows.validated (of_record row))
                     (List.concat out ++ BatchTransformer.currentBatch bt))
        by (apply Hmoved, in_or_app; now left).
      apply in_app_or in Hm. rewrite !in_app_iff. tauto.
  - destruct (source st), (to_transformer st), (to_batcher st), (flushed st);
      try discriminate.
    unfold BatchTransformer._flush.
    destruct (Z.gtb _ 0); intros [= <-] row Hin Hv;
      cbn [source to_transformer to_batcher batchTransformer to_writer session
             BatchTransformer.currentBatch];
      destruct (Hinv row Hin Hv) as [[Hs | [Ht | Hb]] | Hsent]; auto;
      left; right; right; cbn [app] in Hb |- *.
    + rewrite concat_app. cbn [List.concat]. rewrite app_nil_r.
      rewrite in_app_iff in Hb |- *. tauto.
    + rewrite app_nil_r. exact Hb.
  - destruct (to_writer st) as [|batch rest]; [discriminate|].
    intros Hstep row Hin Hv.
    destruct (Hinv row Hin Hv) as [[Hs | [Ht | Hb]] | Hsent].
    + destruct (DatabaseWriter._write _ _ _) as [[dw s] r].
      injection Hstep as <-. left. left. exact Hs.
    + destruct (DatabaseWriter._write _ _ _) as [[dw s] r].
      injection Hstep as <-. left. right. left. exact Ht.
    + cbn [List.concat] in Hb. rewrite !in_app_iff in Hb.
      destruct Hb as [Hb | [Hb | [Hb | Hb]]].
      * destruct (DatabaseWriter._write _ _ _) as [[dw s] r].
        injection Hstep as <-. left. right. right.
        cbn [to_batcher]. apply in_or_app. now left.
      * destruct (DatabaseWriter._write _ _ _) as [[dw s] r].
        injection Hstep as <-. left. right. right.
        cbn [to_batcher batchTransformer]. rewrite !in_app_iff. tauto.
      * assert (He : In (of_record row)
                       (DatabaseWriter.validEmployees
                          (DatabaseWriter.records_of (DatabaseWriter.ChunkArray batch)))).
        { unfold DatabaseWriter.validEmployees. cbn [DatabaseWriter.records_of].
          change (of_record row) with (data (Rows.validated (of_record row))).
          apply in_map, filter_In. split; [exact Hb | exact Hv]. }
        destruct (write_sends (DatabaseWriter.ChunkArray batch) (dbWriter st)
                    (session st) _ He eq_refl) as (calls & Hcalls & Hsent).
        destruct (DatabaseWriter._write _ _ _) as [[dw s] r].
        injection Hstep as <-. right. cbn [session fst snd] in Hcalls |- *.
        rewrite Hcalls, flat_map_app. apply in_or_app. now right.
      * destruct (DatabaseWriter._write _ _ _) as [[dw s] r].
        injection Hstep as <-. left. right. right.
        cbn [to_batcher batchTransformer to_writer]. rewrite !in_app_iff. tauto.
    + destruct (write_sent (DatabaseWriter.ChunkArray batch) (dbWriter st) (session st))
        as (calls & Hcalls & _).
      destruct (DatabaseWriter._write _ _ _) as [[dw s] r].
      injection Hstep as <-. right. cbn [session fst snd] in Hcalls |- *.
      rewrite Hcalls, flat_map_app. apply in_or_app. now left.
Qed.

Lemma exec_none_lost (schedule : list Action) :
  forall st st' : State W,
    parsed st -> Runs.none_lost rows st -> exec schedule st = Some st' ->
    Runs.none_lost rows st'.
Proof.
  induction schedule as [|a schedule IH]; intros st st' Hp Hinv; cbn [exec].
  - now intros [= <-].
  - destruct (step a st) as [st1|] eqn:Es; [|discriminate].
    apply IH; [exact (proj1 (step_parsed _ Hp Es)) | eapply step_none_lost; eassumption].
Qed.

Lemma finished_none_pending (st : State W) (row : RawRecord) :
  drained st -> finished st = true -> ~ Runs.pending st row.
Proof.
  unfold drained, finished, Runs.pending. intros Hd Hfin.
  destruct (source st), (to_transformer st), (to_batcher st) eqn:Etb,
    (to_writer st), (failure st); try discriminate.
  destruct (Hd Hfin) as (_ & _ & _ & ->).
  cbn. tauto.
Qed.

End NothingLost.

(** X17.  No accepted row is lost: when a run has finished, every row of
    the file that the validator accepts has been sent to the store at least
    once, in a batch INSERT on a client or, after a failed batch, in an
    INSERT of its own on the pool. *)
Theorem every_accepted_row_is_sent :
  forall (W : Type) (D : Db.Driver W) (E : Engine)
         (batchSize : Z) (rows : list RawRecord) (w : W)
         (schedule : list Pipeline.Action) (st : Pipeline.State W),
    Pipeline.exec schedule (Pipeline.init batchSize rows w) = Some st ->
    Pipeline.finished st = true ->
    forall row,
      In row rows ->
      Validator.isValid (Rows.outcome (of_record row)) = true ->
      exists ev es,
        In ev (Db.log (Pipeline.session st))
        /\ (ev = Db.EPoolQuery (Db.INSERT es) \/ ev = Db.EClientQuery (Db.INSERT es))
        /\ In (of_record row) es.
Proof.
  intros W D E batchSize rows w schedule st Hx Hfin row Hin Hv.
  assert (Hinit : Runs.none_lost rows (Pipeline.init batchSize rows w))
    by (intros r Hr _; left; left; exact Hr).
  assert (Hd : Pipeline.drained st).
  { apply (exec_drained schedule (st := Pipeline.init batchSize rows w));
      [discriminate | exact Hx]. }
  destruct (exec_none_lost schedule (init_parsed batchSize rows w) Hinit Hx row Hin Hv)
    as [Hpend | Hsent].
  - destruct (@finished_none_pending W E st row Hd Hfin Hpend).
  - apply in_flat_map in Hsent. destruct Hsent as (ev & Hev & Hes).
    destruct ev as [|q|q|]; try destruct Hes; destruct q; try destruct Hes.
    + exists (Db.EPoolQuery (Db.INSERT employees)), employees.
      split; [exact Hev|]. split; [now left | exact Hes].
    + exists (Db.EClientQuery (Db.INSERT employees)), employees.
      split; [exact Hev|]. split; [now right | exact Hes].
Qed.

Lemma every_accepted_row_is_sent_witness :
  let rows := [Samples.ann; Samples.eve; Samples.bob; Samples.ann] in
  let schedule :=
    [Pipeline.Count; Pipeline.Count; Pipeline.Validate; Pipeline.Count;
     Pipeline.Validate; Pipeline.Batch; Pipeline.Batch; Pipeline.Validate;
     Pipeline.Batch; Pipeline.Write; Pipeline.Count; Pipeline.Validate;
     Pipeline.Batch; Pipeline.Flush; Pipeline.Write] in
  exists st,
    @Pipeline.exec _ MemStore.driver stub_engine schedule
      (Pipeline.init 2 rows Samples.store_with_ann) = Some st
    /\ Pipeline.finished st = true
    /\ In Samples.bob rows
    /\ Validator.isValid (@Rows.outcome stub_engine (of_record Samples.bob)) = true
    /\ exists ev es,
         In ev (Db.log (Pipeline.session st))
         /\ (ev = Db.EPoolQuery (Db.INSERT es) \/ ev = Db.EClientQuery (Db.INSERT es))
         /\ In (of_record Samples.bob) es.
Proof.
  intros rows schedule.
  destruct (@Pipeline.exec _ MemStore.driver stub_engine schedule
              (Pipeline.init 2 rows Samples.store_with_ann)) as [st|] eqn:Hx;
    [|vm_compute in Hx; discriminate Hx].
  exists st.
  assert (Hfin : Pipeline.finished st = true).
  { vm_compute in Hx. injection Hx as <-. reflexivity. }
  assert (Hin : In Samples.bob rows) by (right; right; left; reflexivity).
  assert (Hv : Validator.isValid (@Rows.outcome stub_engine (of_record Samples.bob))
               = true) by (vm_compute; reflexivity).
  split; [reflexivity|]. split; [exact Hfin|]. split; [exact Hin|]. split; [exact Hv|].
  exact (@every_accepted_row_is_sent _ MemStore.driver stub_engine 2 rows
           Samples.store_with_ann schedule st Hx Hfin Samples.bob Hin Hv).
Defined.

(** ** processCSVFile: the counters of the record loop *)

Section RecordLoop.

Import FileReader.

Variable processFunction : Value -> Stats -> Stats * Res Value.

(** [processFunction] does not write to the counters it is handed. *)
Hypothesis counters_untouched :
  forall record stats, fst (processFunction record stats) = stats.

Lemma handle_counts (record : Value) (stats : Stats) :
  let r := handle processFunction record stats in
  totalRecords (fst r) = totalRecords stats + 1
  /\ errorRecords (fst r)
     = errorRecords stats + (if failed (snd r) then 1 else 0)
  /\ successRecords (fst r)
     = successRecords stats + (if failed (snd r) then 0 else 1)
  /\ record_of (snd r) = record.
Proof.
  cbv zeta. unfold handle.
  match goal with
  | |- context [processFunction record ?s] =>
      pose proof (counters_untouched record s) as Hs;
      destruct (processFunction record s) as [stats1 [result | error]]
  end; cbn [fst] in Hs; subst stats1.
  - destruct (is_false result) eqn:Hf; cbn; rewrite Hf; cbn; repeat split; lia.
  - cbn. repeat split; lia.
Qed.

Lemma generator_counts (source : list Value) :
  forall stats : Stats,
    let r := generator processFunction source stats in
    totalRecords (fst r) = totalRecords stats + Z.of_nat (List.length source)
    /\ errorRecords (fst r)
       = errorRecords stats + Z.of_nat (List.length (filter failed (snd r)))
    /\ successRecords (fst r)
       = successRecords stats
         + Z.of_nat (List.length (filter (fun y => negb (failed y)) (snd r)))
    /\ map record_of (snd r) = source.
Proof.
  induction source as [|record rest IH]; intro stats; cbv zeta.
  - cbn. repeat split; lia.
  - cbn [generator].
    pose proof (handle_counts record stats) as (Ht & He & Hs & Hr).
    destruct (handle processFunction record stats) as [stats1 y].
    cbn [fst snd] in Ht, He, Hs, Hr.
    destruct (IH stats1) as (Ht2 & He2 & Hs2 & Hr2).
    destruct (generator processFunction rest stats1) as [stats2 ys].
    cbn [fst snd] in *. cbn [filter map List.length].
    rewrite Ht2, He2, Hs2, Ht, He, Hs, Hr, Hr2.
    destruct (failed y); cbn [negb List.length]; repeat split; lia.
Qed.

(** The items counted as errors and the others make up the whole. *)
Lemma filter_split (f : Yielded -> bool) (ys : list Yielded) :
  List.length ys
  = (List.length (filter f ys) + List.length (filter (fun y => negb (f y)) ys))%nat.
Proof.
  induction ys as [|y ys IH]; [reflexivity|].
  cbn [filter List.length]. destruct (f y); cbn [negb List.length]; lia.
Qed.

End RecordLoop.

(** X18.  In the record loop of [processCSVFile], if [processFunction]
    leaves the counters of the [stats] it is handed alone, then after the
    loop has handled the records [source]: it has yielded exactly one item
    per record, in order; [totalRecords] has grown by their number;
    [errorRecords] by the number of records for which [processFunction]
    returned [false] itself or threw, and [successRecords] by the number of
    all others (a result of [0], [null] or [undefined] counts as a success);
    so starting from zero [totalRecords = errorRecords + successRecords].  An
    exception of [processFunction] never leaves the loop. *)
Theorem record_loop_counts_each_record_once :
  forall (processFunction : Value -> FileReader.Stats -> FileReader.Stats * Res Value)
         (source : list Value),
    (forall record stats, fst (processFunction record stats) = stats) ->
    let r := FileReader.generator processFunction source (FileReader.mkStats 0 0 0) in
    map FileReader.record_of (snd r) = source
    /\ FileReader.totalRecords (fst r) = Z.of_nat (List.length source)
    /\ FileReader.errorRecords (fst r)
       = Z.of_nat (List.length (filter FileReader.failed (snd r)))
    /\ FileReader.successRecords (fst r)
       = Z.of_nat (List.length
                     (filter (fun y => negb (FileReader.failed y)) (snd r)))
    /\ FileReader.totalRecords (fst r)
       = FileReader.errorRecords (fst r) + FileReader.successRecords (fst r).
Proof.
  intros processFunction source Hpf. cbv zeta.
  destruct (@generator_counts processFunction Hpf source (FileReader.mkStats 0 0 0))
    as (Ht & He & Hs & Hr).
  cbn [FileReader.totalRecords FileReader.errorRecords FileReader.successRecords]
    in Ht, He, Hs.
  split; [exact Hr|]. split; [lia|]. split; [lia|]. split; [lia|].
  rewrite Ht, He, Hs.
  apply (f_equal (@List.length Value)) in Hr. rewrite length_map in Hr.
  rewrite <- Hr.
  pose proof (filter_split FileReader.failed
                (snd (FileReader.generator processFunction source
                        (FileReader.mkStats 0 0 0)))) as Hsplit.
  lia.
Qed.

Lemma record_loop_counts_each_record_once_witness :
  let processFunction (record : Value) (stats : FileReader.Stats) :=
    (stats,
     match record with
     | VObject _ =>
         Ok (VPrim (PBoolean (Validator.isValid (@Rows.outcome stub_engine record))))
     | VPrim PNull => Ok (VPrim PUndefined)
     | _ => Throw (TypeError "not a record")
     end) in
  let source :=
    [of_record Samples.ann; of_record Samples.eve; VPrim PNull; VPrim (PNumber 1%float)] in
  (forall record stats, fst (processFunction record stats) = stats)
  /\ FileReader.generator processFunction source (FileReader.mkStats 0 0 0)
     = (FileReader.mkStats 4 2 2,
        [FileReader.YResult (of_record Samples.ann) (VPrim (PBoolean true));
         FileReader.YResult (of_record Samples.eve) (VPrim (PBoolean false));
         FileReader.YResult (VPrim PNull) (VPrim PUndefined);
         FileReader.YError (VPrim (PNumber 1%float)) (TypeError "not a record")])
  /\ FileReader.totalRecords
       (fst (FileReader.generator processFunction source (FileReader.mkStats 0 0 0)))
     = FileReader.errorRecords
         (fst (FileReader.generator processFunction source (FileReader.mkStats 0 0 0)))
       + FileReader.successRecords
           (fst (FileReader.generator processFunction source (FileReader.mkStats 0 0 0))).
Proof.
  intros processFunction source.
  assert (Hpf : forall record stats, fst (processFunction record stats) = stats)
    by (intros record stats; reflexivity).
  split; [exact Hpf|]. split; [vm_compute; reflexivity|].
  exact (proj2 (proj2 (proj2 (proj2
           (record_loop_counts_each_record_once processFunction source Hpf))))).
Defined.
